(** * agents-p2p-network: peer message protocol and agent coordination layer

    A shallow embedding of package [p2p] (the message envelope, the
    request/response exchange over one stream, the peer registry with its
    name arbitration, the broadcast fan-out) and of the message dispatch of
    package [agent], followed by the properties the design document states
    about them.  The definitions come first, the properties after them.

    Go values are modelled as follows.
    - [string] and [[]byte] are byte sequences: Rocq [string] (one [ascii]
      per byte).  [peer.ID] is declared in libp2p as [type ID string].
    - [map[K]V] is a [gmap]; ranging over a map visits its entries once
      each, in an order Go leaves unspecified: a range loop takes the
      visiting order as an argument, constrained by [range_order].
    - [*PeerInfo] is a location in a store of [PeerInfo] objects, so that
      two holders of one pointer see each other's writes.
    - a function that can panic returns an [outcome]. *)

From Stdlib Require Import NArith ZArith Ascii String List Lia.
From stdpp Require Import gmap strings list fin_maps pretty.

(** ** Go runtime notions *)

Abbreviation peer_ID := string (only parsing).
Abbreviation loc := positive (only parsing).
Abbreviation error := string (only parsing).

Inductive outcome (A : Type) : Type :=
| Returned (a : A)
| Panicked.
Arguments Returned {A} a.
Arguments Panicked {A}.

(** [s[:n]]: the first [n] bytes, a run-time panic when [s] is shorter. *)
Definition slice_to (s : string) (n : nat) : outcome string :=
  if decide (n <= String.length s) then Returned (substring 0 n s) else Panicked.

(** The orders in which [for k, v := range m] may visit the map [m]. *)
Definition range_order {V} (m : gmap string V) (order : list (string * V)) : Prop :=
  order ≡ₚ map_to_list m.

(** ** Bytes and byte strings *)

Definition byteN (c : ascii) : N := N_of_ascii c.

(** The double quote and the backslash. *)
Definition dquote : ascii := Ascii false true false false false true false false.
Definition backslash : ascii := Ascii false false true true true false true false.

Fixpoint string_drop (n : nat) (s : string) : string :=
  match n, s with
  | S n', String _ r => string_drop n' r
  | _, _ => s
  end.

Fixpoint string_take (n : nat) (s : string) : string :=
  match n, s with
  | S n', String c r => String c (string_take n' r)
  | _, _ => EmptyString
  end.

(** [strings.HasPrefix] together with the remainder. *)
Fixpoint strip_prefix (p s : string) : option string :=
  match p, s with
  | EmptyString, _ => Some s
  | String a p', String b s' => if Ascii.eqb a b then strip_prefix p' s' else None
  | String _ _, EmptyString => None
  end.

(** ** unicode/utf8 and unicode/utf16

    Masks and shifts of the Go sources are written as remainders and
    products: [x & 0x3F] is [x mod 64], [x << 6] is [x * 64], and [|]
    between disjoint bit ranges is [+]. *)
Module utf8.

Definition RuneError : N := 0xFFFD.
Definition MaxRune : N := 0x10FFFF.
Definition RuneSelf : N := 0x80.

Definition in_range (lo hi : N) (c : ascii) : bool :=
  ((lo <=? byteN c) && (byteN c <=? hi))%N.

Definition cont (c : ascii) : bool := in_range 0x80 0xBF c.

Definition DecodeRune (s : string) : N * nat :=
  match s with
  | EmptyString => (RuneError, 0)
  | String b0 r =>
      let x := byteN b0 in
      if (x <? 0x80)%N then (x, 1)
      else if (x <? 0xC2)%N then (RuneError, 1)
      else if (x <? 0xE0)%N then
        match r with
        | String b1 _ =>
            if cont b1 then (((x mod 32) * 64 + byteN b1 mod 64)%N, 2)
            else (RuneError, 1)
        | _ => (RuneError, 1)
        end
      else if (x <? 0xF0)%N then
        let lo := if (x =? 0xE0)%N then 0xA0%N else 0x80%N in
        let hi := if (x =? 0xED)%N then 0x9F%N else 0xBF%N in
        match r with
        | String b1 (String b2 _) =>
            if in_range lo hi b1 && cont b2
            then (((x mod 16) * 4096 + (byteN b1 mod 64) * 64 + byteN b2 mod 64)%N, 3)
            else (RuneError, 1)
        | _ => (RuneError, 1)
        end
      else if (x <? 0xF5)%N then
        let lo := if (x =? 0xF0)%N then 0x90%N else 0x80%N in
        let hi := if (x =? 0xF4)%N then 0x8F%N else 0xBF%N in
        match r with
        | String b1 (String b2 (String b3 _)) =>
            if in_range lo hi b1 && cont b2 && cont b3
            then (((x mod 8) * 262144 + (byteN b1 mod 64) * 4096
                   + (byteN b2 mod 64) * 64 + byteN b3 mod 64)%N, 4)
            else (RuneError, 1)
        | _ => (RuneError, 1)
        end
      else (RuneError, 1)
  end.

Definition bytes3 (a b c : N) : string :=
  String (ascii_of_N a) (String (ascii_of_N b) (String (ascii_of_N c) EmptyString)).

Definition EncodeRune (r : N) : string :=
  if (r <=? 0x7F)%N then String (ascii_of_N r) EmptyString
  else if (r <=? 0x7FF)%N then
    String (ascii_of_N (0xC0 + r / 64)) (String (ascii_of_N (0x80 + r mod 64)) EmptyString)
  else if (MaxRune <? r)%N || ((0xD800 <=? r) && (r <=? 0xDFFF))%N then
    bytes3 0xEF 0xBF 0xBD
  else if (r <=? 0xFFFF)%N then
    bytes3 (0xE0 + r / 4096) (0x80 + (r / 64) mod 64) (0x80 + r mod 64)
  else
    String (ascii_of_N (0xF0 + r / 262144))
      (bytes3 (0x80 + (r / 4096) mod 64) (0x80 + (r / 64) mod 64) (0x80 + r mod 64)).

(** A byte that starts no well-formed sequence decodes as
    [(RuneError, 1)]. *)
Definition malformed (s : string) : bool :=
  let '(c, size) := DecodeRune s in (c =? RuneError)%N && Nat.eqb size 1.

Fixpoint ValidString_loop (fuel : nat) (s : string) : bool :=
  match fuel with
  | O => match s with EmptyString => true | _ => false end
  | S fuel' =>
      match s with
      | EmptyString => true
      | String _ _ =>
          if malformed s then false
          else ValidString_loop fuel' (string_drop (DecodeRune s).2 s)
      end
  end.

Definition ValidString (s : string) : bool := ValidString_loop (String.length s) s.

End utf8.

Module utf16.

Definition IsSurrogate (r : N) : bool := ((0xD800 <=? r) && (r <? 0xE000))%N.

Definition DecodeRune (r1 r2 : N) : N :=
  if ((0xD800 <=? r1) && (r1 <? 0xDC00) && (0xDC00 <=? r2) && (r2 <? 0xE000))%N
  then ((r1 - 0xD800) * 1024 + (r2 - 0xDC00) + 0x10000)%N
  else 0xFFFD%N.

End utf16.

(** ** The message envelope (package p2p) *)

Definition MessageTypeChat : string := "chat".
Definition MessageTypeComplete : string := "complete".
Definition MessageTypeRegister : string := "register".
Definition MessageTypePing : string := "ping".
Definition MessageTypePong : string := "pong".
Definition MessageTypeError : string := "error".
Definition MessageTypeAnnounce : string := "announce".

Definition defined_types : list string :=
  [MessageTypeChat; MessageTypeComplete; MessageTypeRegister; MessageTypePing;
   MessageTypePong; MessageTypeError; MessageTypeAnnounce].

(** [Payload] is a [json.RawMessage]: [None] is the nil slice. *)
Record Message : Type := mkMessage {
  Type_ : string;
  From : string;
  To : string;
  RequestID : string;
  Payload : option string
}.

Definition zero_Message : Message :=
  {| Type_ := EmptyString; From := EmptyString; To := EmptyString;
     RequestID := EmptyString; Payload := None |}.

(** ** encoding/json, as far as [Message] uses it *)
Module json.

Definition maxNestingDepth : N := 10000.

Definition isSpace (c : ascii) : bool :=
  Ascii.eqb c " " || Ascii.eqb c (ascii_of_nat 9) || Ascii.eqb c (ascii_of_nat 13)
  || Ascii.eqb c (ascii_of_nat 10).

Fixpoint skip_ws (s : string) : string :=
  match s with
  | String c r => if isSpace c then skip_ws r else s
  | EmptyString => s
  end.

Definition ws_only (s : string) : bool :=
  match skip_ws s with EmptyString => true | _ => false end.

Definition hex : string := "0123456789abcdef".

Definition hex_digit (n : N) : ascii :=
  match String.get (N.to_nat n) hex with
  | Some c => c
  | None => "0"%char
  end.

(** [\u00XY] for a byte, [\u202X] for U+2028 and U+2029. *)
Definition u00 (c : ascii) : string :=
  String backslash ("u00" +:+
    String (hex_digit (byteN c / 16)) (String (hex_digit (byteN c mod 16)) EmptyString)).

Definition u202 (x : N) : string :=
  String backslash ("u202" +:+ String (hex_digit (x mod 16)) EmptyString).

Definition is_html (c : ascii) : bool :=
  Ascii.eqb c "<" || Ascii.eqb c ">" || Ascii.eqb c "&".

(** *** Strings: [appendString] with [escapeHTML] set *)

Definition htmlSafeSet (b : ascii) : bool :=
  (0x20 <=? byteN b)%N && negb (Ascii.eqb b dquote) && negb (Ascii.eqb b backslash)
  && negb (is_html b).

Definition escape_byte (b : ascii) : string :=
  if Ascii.eqb b backslash || Ascii.eqb b dquote then String backslash (String b EmptyString)
  else if (byteN b =? 8)%N then String backslash "b"
  else if (byteN b =? 12)%N then String backslash "f"
  else if (byteN b =? 10)%N then String backslash "n"
  else if (byteN b =? 13)%N then String backslash "r"
  else if (byteN b =? 9)%N then String backslash "t"
  else u00 b.

Fixpoint appendString_loop (fuel : nat) (src : string) : string :=
  match fuel with
  | O => EmptyString
  | S fuel' =>
      match src with
      | EmptyString => EmptyString
      | String b rest =>
          if (byteN b <? utf8.RuneSelf)%N then
            (if htmlSafeSet b then String b EmptyString else escape_byte b)
              +:+ appendString_loop fuel' rest
          else
            let '(c, size) := utf8.DecodeRune src in
            if (c =? utf8.RuneError)%N && Nat.eqb size 1 then
              String backslash "ufffd" +:+ appendString_loop fuel' rest
            else if (c =? 0x2028)%N || (c =? 0x2029)%N then
              u202 c +:+ appendString_loop fuel' (string_drop size src)
            else
              string_take size src +:+ appendString_loop fuel' (string_drop size src)
      end
  end.

Definition appendString (src : string) : string :=
  String dquote (appendString_loop (String.length src) src +:+ String dquote EmptyString).

(** *** Strings: [unquote] *)

Definition hex_value (c : ascii) : option N :=
  if utf8.in_range 48 57 c then Some (byteN c - 48)%N
  else if utf8.in_range 97 102 c then Some (byteN c - 87)%N
  else if utf8.in_range 65 70 c then Some (byteN c - 55)%N
  else None.

Definition hex4 (s : string) : option (N * string) :=
  match s with
  | String h1 (String h2 (String h3 (String h4 r))) =>
      match hex_value h1, hex_value h2, hex_value h3, hex_value h4 with
      | Some a, Some b, Some c, Some d => Some ((((a * 16 + b) * 16 + c) * 16 + d)%N, r)
      | _, _, _, _ => None
      end
  | _ => None
  end.

(** [getu4]: the code unit of a [\uXXXX] at the head of [s]. *)
Definition getu4 (s : string) : option (N * string) :=
  match s with
  | String c0 (String c1 r) =>
      if Ascii.eqb c0 backslash && Ascii.eqb c1 "u" then hex4 r else None
  | _ => None
  end.

Definition simple_escape (e : ascii) : option ascii :=
  if Ascii.eqb e dquote || Ascii.eqb e backslash || Ascii.eqb e "/" then Some e
  else if Ascii.eqb e "b" then Some (ascii_of_nat 8)
  else if Ascii.eqb e "f" then Some (ascii_of_nat 12)
  else if Ascii.eqb e "n" then Some (ascii_of_nat 10)
  else if Ascii.eqb e "r" then Some (ascii_of_nat 13)
  else if Ascii.eqb e "t" then Some (ascii_of_nat 9)
  else None.

Definition prepend (p : string) (r : option (string * string)) : option (string * string) :=
  match r with
  | Some (out, rest) => Some (p +:+ out, rest)
  | None => None
  end.

(** The text of a string literal after its opening quote: the decoded
    bytes and what follows the closing quote. *)
Fixpoint unquote_loop (fuel : nat) (s : string) : option (string * string) :=
  match fuel with
  | O => None
  | S fuel' =>
      match s with
      | EmptyString => None
      | String c r =>
          if Ascii.eqb c dquote then Some (EmptyString, r)
          else if Ascii.eqb c backslash then
            match r with
            | EmptyString => None
            | String e r1 =>
                match simple_escape e with
                | Some d => prepend (String d EmptyString) (unquote_loop fuel' r1)
                | None =>
                    if Ascii.eqb e "u" then
                      match hex4 r1 with
                      | None => None
                      | Some (rr, r2) =>
                          if utf16.IsSurrogate rr then
                            match getu4 r2 with
                            | Some (rr1, r3) =>
                                let dec := utf16.DecodeRune rr rr1 in
                                if (dec =? 0xFFFD)%N
                                then prepend (utf8.EncodeRune 0xFFFD) (unquote_loop fuel' r2)
                                else prepend (utf8.EncodeRune dec) (unquote_loop fuel' r3)
                            | None => prepend (utf8.EncodeRune 0xFFFD) (unquote_loop fuel' r2)
                            end
                          else prepend (utf8.EncodeRune rr) (unquote_loop fuel' r2)
                      end
                    else None
                end
            end
          else if (byteN c <? 0x20)%N then None
          else if (byteN c <? utf8.RuneSelf)%N then
            prepend (String c EmptyString) (unquote_loop fuel' r)
          else
            let '(rr, size) := utf8.DecodeRune s in
            prepend (utf8.EncodeRune rr) (unquote_loop fuel' (string_drop size s))
      end
  end.

(** *** The scanner (scanner.go) *)

Inductive parse_state : Type := parseObjectKey | parseObjectValue | parseArrayValue.

Inductive scan_state : Type :=
| stateBeginValue | stateBeginValueOrEmpty | stateBeginStringOrEmpty | stateBeginString
| stateEndValue
| stateInString | stateInStringEsc
| stateInStringEscU (seen : nat)
| stateNeg | state1 | state0 | stateDot | stateDot0 | stateE | stateESign | stateE0
| stateLiteral (expect : string).

(** What one byte does to the scanner while one value is read: go on (the
    flag tells whether the byte is kept by [Compact]), the value ended with
    this byte, the value ended before this byte, or a syntax error. *)
Inductive step_result : Type :=
| stepContinue (st : scan_state) (stack : list parse_state) (keep : bool)
| stepEndWith
| stepEndBefore
| stepError.

Definition is_digit (c : ascii) : bool := utf8.in_range 48 57 c.
Definition is_digit19 (c : ascii) : bool := utf8.in_range 49 57 c.

(** After a value: with nothing open the value read is complete. *)
Definition value_done (stack : list parse_state) : step_result :=
  match stack with
  | [] => stepEndWith
  | _ => stepContinue stateEndValue stack true
  end.

Definition popParseState (stack : list parse_state) : step_result :=
  match stack with
  | [] => stepError
  | _ :: stack' => value_done stack'
  end.

Definition step_stateEndValue (stack : list parse_state) (c : ascii) : step_result :=
  match stack with
  | [] => stepEndBefore
  | ps :: stack' =>
      if isSpace c then stepContinue stateEndValue stack false
      else
        match ps with
        | parseObjectKey =>
            if Ascii.eqb c ":" then stepContinue stateBeginValue (parseObjectValue :: stack') true
            else stepError
        | parseObjectValue =>
            if Ascii.eqb c "," then stepContinue stateBeginString (parseObjectKey :: stack') true
            else if Ascii.eqb c "}" then popParseState stack
            else stepError
        | parseArrayValue =>
            if Ascii.eqb c "," then stepContinue stateBeginValue stack true
            else if Ascii.eqb c "]" then popParseState stack
            else stepError
        end
  end.

Definition pushParseState (depth0 : N) (stack : list parse_state)
    (ps : parse_state) (st : scan_state) : step_result :=
  if (depth0 + N.of_nat (List.length stack) + 1 <=? maxNestingDepth)%N
  then stepContinue st (ps :: stack) true
  else stepError.

Definition step_stateBeginValue (depth0 : N) (stack : list parse_state) (c : ascii)
  : step_result :=
  if isSpace c then stepContinue stateBeginValue stack false
  else if Ascii.eqb c "{" then pushParseState depth0 stack parseObjectKey stateBeginStringOrEmpty
  else if Ascii.eqb c "[" then pushParseState depth0 stack parseArrayValue stateBeginValueOrEmpty
  else if Ascii.eqb c dquote then stepContinue stateInString stack true
  else if Ascii.eqb c "-" then stepContinue stateNeg stack true
  else if Ascii.eqb c "0" then stepContinue state0 stack true
  else if Ascii.eqb c "t" then stepContinue (stateLiteral "rue") stack true
  else if Ascii.eqb c "f" then stepContinue (stateLiteral "alse") stack true
  else if Ascii.eqb c "n" then stepContinue (stateLiteral "ull") stack true
  else if is_digit19 c then stepContinue state1 stack true
  else stepError.

Definition step_stateBeginString (stack : list parse_state) (c : ascii) : step_result :=
  if isSpace c then stepContinue stateBeginString stack false
  else if Ascii.eqb c dquote then stepContinue stateInString stack true
  else stepError.

Definition step_state0 (stack : list parse_state) (c : ascii) : step_result :=
  if Ascii.eqb c "." then stepContinue stateDot stack true
  else if Ascii.eqb c "e" || Ascii.eqb c "E" then stepContinue stateE stack true
  else step_stateEndValue stack c.

Definition step_stateESign (stack : list parse_state) (c : ascii) : step_result :=
  if is_digit c then stepContinue stateE0 stack true else stepError.

Definition step (depth0 : N) (st : scan_state) (stack : list parse_state) (c : ascii)
  : step_result :=
  match st with
  | stateBeginValue => step_stateBeginValue depth0 stack c
  | stateBeginValueOrEmpty =>
      if isSpace c then stepContinue stateBeginValueOrEmpty stack false
      else if Ascii.eqb c "]" then step_stateEndValue stack c
      else step_stateBeginValue depth0 stack c
  | stateBeginStringOrEmpty =>
      if isSpace c then stepContinue stateBeginStringOrEmpty stack false
      else if Ascii.eqb c "}" then
        match stack with
        | _ :: stack' => step_stateEndValue (parseObjectValue :: stack') c
        | [] => stepError
        end
      else step_stateBeginString stack c
  | stateBeginString => step_stateBeginString stack c
  | stateEndValue => step_stateEndValue stack c
  | stateInString =>
      if Ascii.eqb c dquote then value_done stack
      else if Ascii.eqb c backslash then stepContinue stateInStringEsc stack true
      else if (byteN c <? 0x20)%N then stepError
      else stepContinue stateInString stack true
  | stateInStringEsc =>
      match simple_escape c with
      | Some _ => stepContinue stateInString stack true
      | None =>
          if Ascii.eqb c "u" then stepContinue (stateInStringEscU 0) stack true
          else stepError
      end
  | stateInStringEscU seen =>
      match hex_value c with
      | Some _ =>
          if Nat.ltb seen 3 then stepContinue (stateInStringEscU (S seen)) stack true
          else stepContinue stateInString stack true
      | None => stepError
      end
  | stateNeg =>
      if Ascii.eqb c "0" then stepContinue state0 stack true
      else if is_digit19 c then stepContinue state1 stack true
      else stepError
  | state1 =>
      if is_digit c then stepContinue state1 stack true else step_state0 stack c
  | state0 => step_state0 stack c
  | stateDot =>
      if is_digit c then stepContinue stateDot0 stack true else stepError
  | stateDot0 =>
      if is_digit c then stepContinue stateDot0 stack true
      else if Ascii.eqb c "e" || Ascii.eqb c "E" then stepContinue stateE stack true
      else step_stateEndValue stack c
  | stateE =>
      if Ascii.eqb c "+" || Ascii.eqb c "-" then stepContinue stateESign stack true
      else step_stateESign stack c
  | stateESign => step_stateESign stack c
  | stateE0 =>
      if is_digit c then stepContinue stateE0 stack true else step_stateEndValue stack c
  | stateLiteral expect =>
      match expect with
      | String e EmptyString => if Ascii.eqb c e then value_done stack else stepError
      | String e expect' =>
          if Ascii.eqb c e then stepContinue (stateLiteral expect') stack true else stepError
      | EmptyString => stepError
      end
  end.

(** The states in which the end of the input ends a number. *)
Definition number_complete (st : scan_state) : bool :=
  match st with
  | state1 | state0 | stateDot0 | stateE0 => true
  | _ => false
  end.

(** U+2028 or U+2029 at the head of [s]: [E2 80 A8] or [E2 80 A9]. *)
Definition line_separator (s : string) : option N :=
  match s with
  | String c0 (String c1 (String c2 _)) =>
      if ((byteN c0 =? 0xE2) && (byteN c1 =? 0x80)
          && ((byteN c2 =? 0xA8) || (byteN c2 =? 0xA9)))%N
      then Some (byteN c2) else None
  | _ => None
  end.

(** One value read from the head of [s], as [appendCompact] with [escape]
    set reads it: the compacted text of the value and the input that
    follows it.  [depth0] counts the containers already open around the
    value; [skip] counts the bytes still covered by an escape already
    written. *)
Fixpoint scan (depth0 : N) (skip : nat) (st : scan_state) (stack : list parse_state)
    (s : string) : option (string * string) :=
  match s with
  | EmptyString =>
      if number_complete st then
        match stack with [] => Some (EmptyString, EmptyString) | _ => None end
      else None
  | String c r =>
      let '(text, skip') :=
        match skip with
        | S k => (EmptyString, k)
        | O =>
            if is_html c then (u00 c, O)
            else match line_separator s with
                 | Some x => (u202 x, 2)
                 | None => (String c EmptyString, O)
                 end
        end in
      match step depth0 st stack c with
      | stepError => None
      | stepEndWith => Some (text, r)
      | stepEndBefore => Some (EmptyString, s)
      | stepContinue st' stack' keep =>
          prepend (if keep then text else EmptyString) (scan depth0 skip' st' stack' r)
      end
  end.

Definition scan_value (depth0 : N) (s : string) : option (string * string) :=
  scan depth0 0 stateBeginValue [] s.

(** [Compact] with HTML escaping, as [Marshal] applies it to the bytes a
    [Marshaler] returns. *)
Definition compact (src : string) : option string :=
  match scan_value 0 src with
  | Some (out, rest) => if ws_only rest then Some out else None
  | None => None
  end.

(** *** [Marshal] of a [Message] *)

Definition quoted (s : string) : string := String dquote (s +:+ String dquote EmptyString).

(** [RawMessage.MarshalJSON], then the compaction. *)
Definition marshal_RawMessage (p : option string) : option string :=
  match p with
  | None => Some "null"
  | Some raw => compact raw
  end.

Definition omitempty (key value : string) : string :=
  match value with
  | EmptyString => EmptyString
  | _ => "," +:+ quoted key +:+ ":" +:+ appendString value
  end.

Definition Marshal (m : Message) : option string :=
  match marshal_RawMessage (Payload m) with
  | Some raw =>
      Some ("{" +:+ quoted "type" +:+ ":" +:+ appendString (Type_ m)
            +:+ "," +:+ quoted "from" +:+ ":" +:+ appendString (From m)
            +:+ omitempty "to" (To m)
            +:+ omitempty "request_id" (RequestID m)
            +:+ "," +:+ quoted "payload" +:+ ":" +:+ raw +:+ "}")
  | None => None
  end.

(** *** [Unmarshal] into a [Message] *)

Inductive field : Type := fType | fFrom | fTo | fRequestID | fPayload.

Definition fields : list (string * field) :=
  [("type", fType); ("from", fFrom); ("to", fTo); ("request_id", fRequestID);
   ("payload", fPayload)].

Definition upper (c : ascii) : ascii :=
  if utf8.in_range 97 122 c then ascii_of_N (byteN c - 32) else c.

(** [foldName]: ASCII letters in upper case; of the other runes only the
    long s (U+017F, [C5 BF]) and the Kelvin sign (U+212A, [E2 84 AA]) fold
    to an ASCII letter, every other one folds to a rune outside ASCII. *)
Fixpoint foldName (s : string) : string :=
  match s with
  | EmptyString => EmptyString
  | String c r =>
      if (byteN c <? utf8.RuneSelf)%N then String (upper c) (foldName r)
      else
        match r with
        | String c1 r1 =>
            if ((byteN c =? 0xC5) && (byteN c1 =? 0xBF))%N then String "S" (foldName r1)
            else
              match r1 with
              | String c2 r2 =>
                  if ((byteN c =? 0xE2) && (byteN c1 =? 0x84) && (byteN c2 =? 0xAA))%N
                  then String "K" (foldName r2)
                  else String c (foldName r)
              | EmptyString => String c (foldName r)
              end
        | EmptyString => String c EmptyString
        end
  end.

Definition lookup_name (names : list (string * field)) (key : string) : option field :=
  snd <$> List.find (fun e => String.eqb (fst e) key) names.

(** The field a key names: the exact name, else the name up to case. *)
Definition find_field (key : string) : option field :=
  match lookup_name fields key with
  | Some f => Some f
  | None => lookup_name (List.map (fun e => (foldName (fst e), snd e)) fields) (foldName key)
  end.

Definition set_string (f : field) (v : string) (m : Message) : Message :=
  match f with
  | fType => {| Type_ := v; From := From m; To := To m; RequestID := RequestID m; Payload := Payload m |}
  | fFrom => {| Type_ := Type_ m; From := v; To := To m; RequestID := RequestID m; Payload := Payload m |}
  | fTo => {| Type_ := Type_ m; From := From m; To := v; RequestID := RequestID m; Payload := Payload m |}
  | fRequestID => {| Type_ := Type_ m; From := From m; To := To m; RequestID := v; Payload := Payload m |}
  | fPayload => {| Type_ := Type_ m; From := From m; To := To m; RequestID := RequestID m; Payload := Some v |}
  end.

(** The bytes of [s] in front of its suffix [rest]. *)
Definition span (s rest : string) : string :=
  string_take (String.length s - String.length rest) s.

(** The value of one member, at the first byte of the value.  A string
    field takes a string or [null]; [Payload] takes the bytes of any
    value; the value of a key that names no field is skipped. *)
Definition store_member (fuel : nat) (f : option field) (s : string) (m : Message)
  : option (Message * string) :=
  match f with
  | Some fPayload =>
      match scan_value 1 s with
      | Some (_, rest) => Some (set_string fPayload (span s rest) m, rest)
      | None => None
      end
  | Some f =>
      match s with
      | String c r =>
          if Ascii.eqb c dquote then
            match unquote_loop fuel r with
            | Some (v, rest) => Some (set_string f v m, rest)
            | None => None
            end
          else
            match strip_prefix "null" s with
            | Some rest => Some (m, rest)
            | None => None
            end
      | EmptyString => None
      end
  | None =>
      match scan_value 1 s with
      | Some (_, rest) => Some (m, rest)
      | None => None
      end
  end.

(** The members of the object, from the opening quote of a key to the
    closing brace. *)
Fixpoint object_loop (fuel : nat) (s : string) (m : Message) : option (Message * string) :=
  match fuel with
  | O => None
  | S fuel' =>
      match s with
      | String c r =>
          if Ascii.eqb c dquote then
            match unquote_loop fuel r with
            | Some (key, r1) =>
                match skip_ws r1 with
                | String c2 r2 =>
                    if Ascii.eqb c2 ":" then
                      match store_member fuel (find_field key) (skip_ws r2) m with
                      | Some (m', r3) =>
                          match skip_ws r3 with
                          | String c4 r4 =>
                              if Ascii.eqb c4 "," then object_loop fuel' (skip_ws r4) m'
                              else if Ascii.eqb c4 "}" then Some (m', r4)
                              else None
                          | EmptyString => None
                          end
                      | None => None
                      end
                    else None
                | EmptyString => None
                end
            | None => None
            end
          else None
      | EmptyString => None
      end
  end.

(** [Unmarshal(data, &msg)] for a zero [msg]; [None] is any error. *)
Definition Unmarshal (data : string) : option Message :=
  let fuel := S (String.length data) in
  match skip_ws data with
  | String c r =>
      if Ascii.eqb c "{" then
        match skip_ws r with
        | String c1 r1 =>
            if Ascii.eqb c1 "}" then
              if ws_only r1 then Some zero_Message else None
            else
              match object_loop fuel (String c1 r1) zero_Message with
              | Some (m, rest) => if ws_only rest then Some m else None
              | None => None
              end
        | EmptyString => None
        end
      else
        match strip_prefix "null" (String c r) with
        | Some rest => if ws_only rest then Some zero_Message else None
        | None => None
        end
  | EmptyString => None
  end.

End json.

(** ** Base58, the text form of a peer identity

    [peer.ID.String] is [b58.Encode([]byte(id))]: the bytes read as a
    big-endian number written in base 58 over the Bitcoin alphabet, one
    ['1'] in front for each leading zero byte. *)
Module Base58.

Definition alphabet : string :=
  "123456789ABCDEFGHJKLMNPQRSTUVWXYZabcdefghijkmnopqrstuvwxyz".

Definition digit (d : N) : ascii :=
  match String.get (N.to_nat d) alphabet with
  | Some c => c
  | None => "1"%char
  end.

Fixpoint to_N (acc : N) (s : string) : N :=
  match s with
  | EmptyString => acc
  | String c r => to_N (acc * 256 + N_of_ascii c)%N r
  end.

Fixpoint digits (fuel : nat) (n : N) (acc : string) : string :=
  match fuel with
  | O => acc
  | S fuel' =>
      if (n =? 0)%N then acc
      else digits fuel' (n / 58)%N (String (digit (n mod 58)%N) acc)
  end.

Fixpoint leading_zeros (s : string) : string :=
  match s with
  | String c r => if Ascii.eqb c zero then String "1" (leading_zeros r) else EmptyString
  | EmptyString => EmptyString
  end.

Definition Encode (s : string) : string :=
  leading_zeros s +:+ digits (2 * String.length s) (to_N 0 s) EmptyString.

End Base58.

(** ** The peer registry of [Host] (package p2p) *)

Record PeerInfo : Type := mkPeerInfo {
  ID : peer_ID;
  Name : string;
  Addrs : list string;
  Connected : bool
}.

Definition set_Connected (b : bool) (p : PeerInfo) : PeerInfo :=
  {| ID := ID p; Name := Name p; Addrs := Addrs p; Connected := b |}.

(** The registry fields of [Host], with the store of the [PeerInfo]
    objects its [peers] map points to.  Both maps are guarded by
    [peersMu]; every operation below runs with the lock held from its
    first to its last access, so it is one atomic step on this state. *)
Record Host : Type := mkHost {
  localName : string;
  peers : gmap string loc;
  agentNames : gmap string string;
  mem : gmap loc PeerInfo
}.

(** The registry part of [NewHost]: two empty maps. *)
Definition NewHost : Host :=
  {| localName := EmptyString; peers := ∅; agentNames := ∅; mem := ∅ |}.

Definition with_mem (h : Host) (m : gmap loc PeerInfo) : Host :=
  {| localName := localName h; peers := peers h; agentNames := agentNames h; mem := m |}.

Section Registry.

(** [peer.ID.String], kept abstract; [Base58.Encode] is libp2p's. *)
Variable ID_String : peer_ID -> string.

(** [fmt.Errorf("agent name '%s' is already taken by peer %s", ...)] *)
Definition name_taken_error (name prefix : string) : error :=
  "agent name '" +:+ name +:+ "' is already taken by peer " +:+ prefix.

Definition RegisterAgentName (name : string) (peerID : peer_ID) (h : Host)
  : Host * outcome (option error) :=
  let claim :=
    ({| localName := localName h; peers := peers h;
        agentNames := <[name := peerID]> (agentNames h); mem := mem h |},
     Returned None) in
  match agentNames h !! name with
  | Some existingPeer =>
      if decide (existingPeer = peerID) then claim
      else
        match slice_to (ID_String existingPeer) 12 with
        | Returned prefix => (h, Returned (Some (name_taken_error name prefix)))
        | Panicked => (h, Panicked)
        end
  | None => claim
  end.

Definition IsNameTaken (name : string) (h : Host) : bool * peer_ID :=
  match agentNames h !! name with
  | Some peerID => (true, peerID)
  | None => (false, EmptyString)
  end.

Definition onPeerConnected (peerID : peer_ID) (h : Host) : Host :=
  match peers h !! peerID with
  | None =>
      let l := fresh (dom (mem h)) in
      {| localName := localName h;
         peers := <[peerID := l]> (peers h);
         agentNames := agentNames h;
         mem := <[l := {| ID := peerID; Name := EmptyString; Addrs := []; Connected := true |}]> (mem h) |}
  | Some l => with_mem h (alter (set_Connected true) l (mem h))
  end.

Definition onPeerDisconnected (peerID : peer_ID) (h : Host) : Host :=
  match peers h !! peerID with
  | Some l => with_mem h (alter (set_Connected false) l (mem h))
  | None => h
  end.

(** [GetPeers]: the pointers stored in the map, one per entry. *)
Definition GetPeers (order : list (peer_ID * loc)) (h : Host) : list loc :=
  foldl (fun acc e => acc ++ [e.2]) [] order.

(** The first loop of [Broadcast]: the identities of the entries whose
    [Connected] flag is set, collected under the read lock. *)
Definition connected_snapshot (order : list (peer_ID * loc)) (h : Host) : list peer_ID :=
  foldl (fun acc e =>
           match mem h !! e.2 with
           | Some info => if Connected info then acc ++ [e.1] else acc
           | None => acc
           end) [] order.

(** Reading a field through a pointer that [GetPeers] returned. *)
Definition deref (h : Host) (l : loc) : option PeerInfo := mem h !! l.

(** The operations that write the registry. *)
Inductive registry_op : Type :=
| OpRegister (name : string) (peerID : peer_ID)
| OpConnect (peerID : peer_ID)
| OpDisconnect (peerID : peer_ID).

Definition apply_op (h : Host) (op : registry_op) : Host :=
  match op with
  | OpRegister name peerID => (RegisterAgentName name peerID h).1
  | OpConnect peerID => onPeerConnected peerID h
  | OpDisconnect peerID => onPeerDisconnected peerID h
  end.

Definition apply_ops (h : Host) (ops : list registry_op) : Host :=
  foldl apply_op h ops.

End Registry.

(** Every pointer in [peers] refers to an allocated [PeerInfo] that
    carries the identity it is filed under. *)
Definition wf (h : Host) : Prop :=
  forall p l, peers h !! p = Some l ->
    exists info, mem h !! l = Some info /\ ID info = p.

(** ** Streams (package p2p) *)

(** What can go wrong between two peers, as the callers tell it apart. *)
Inductive send_error : Type :=
| ErrOpenStream (cause : error)   (* "failed to open stream: %w" *)
| ErrMarshal                      (* "failed to marshal message: %w" *)
| ErrWrite (cause : error)        (* "failed to write message: %w" *)
| ErrRead (cause : error)         (* "failed to read response: %w" *)
| ErrUnmarshal.                   (* "failed to unmarshal response: %w" *)

(** What the transport does with the one stream of an exchange:
    [NewStream] fails or gives a stream, [Write] fails or takes the bytes,
    [io.ReadAll] fails or gives every byte the peer wrote before it
    closed. *)
Record Stream : Type := mkStream {
  open_result : option error;
  write_result : option error;
  read_result : error + string
}.

(** What the peer at the other end of a stream sees. *)
Inductive stream_op : Type :=
| OpWrite (data : string)
| OpCloseWrite
| OpClose.

Definition SendMessage (net : peer_ID -> Stream) (peerID : peer_ID) (msg : Message)
  : list stream_op * (option Message * option send_error) :=
  let s := net peerID in
  match open_result s with
  | Some err => ([], (None, Some (ErrOpenStream err)))
  | None =>
      match json.Marshal msg with
      | None => ([OpClose], (None, Some ErrMarshal))
      | Some data =>
          match write_result s with
          | Some err => ([OpClose], (None, Some (ErrWrite err)))
          | None =>
              let ops := [OpWrite data; OpCloseWrite; OpClose] in
              match read_result s with
              | inl err => (ops, (None, Some (ErrRead err)))
              | inr respData =>
                  if Nat.eqb (String.length respData) 0 then (ops, (None, None))
                  else
                    match json.Unmarshal respData with
                    | None => (ops, (None, Some ErrUnmarshal))
                    | Some response => (ops, (Some response, None))
                    end
              end
          end
      end
  end.

(** [Broadcast]: the snapshot, then one goroutine per identity in it, each
    with its own copy of the identity and the shared message; the result
    is always [nil]. *)
Definition Broadcast (order : list (peer_ID * loc)) (h : Host) (msg : Message)
  : list (peer_ID * Message) * option send_error :=
  (List.map (fun peerID => (peerID, msg)) (connected_snapshot order h), None).

(** The body of a goroutine of [Broadcast]: the send, its result dropped
    and its error logged at debug level.  It yields what happened on its
    stream and what it logged. *)
Definition broadcast_goroutine (net : peer_ID -> Stream) (g : peer_ID * Message)
  : list stream_op * list (peer_ID * send_error) :=
  match SendMessage net g.1 g.2 with
  | (ops, (_, Some err)) => (ops, [(g.1, err)])
  | (ops, (_, None)) => (ops, [])
  end.

(** The bytes a peer received on a stream. *)
Definition received (ops : list stream_op) : list string :=
  omap (fun op => match op with OpWrite data => Some data | _ => None end) ops.

(** Every goroutine works on a stream of its own, so the streams of a
    broadcast are the same under every interleaving: one per goroutine. *)
Definition broadcast_streams (net : peer_ID -> Stream) (gs : list (peer_ID * Message))
  : list (peer_ID * list stream_op) :=
  List.map (fun g => (g.1, (broadcast_goroutine net g).1)) gs.

(** ** Inbound streams (package p2p) and dispatch (package agent) *)

Section Dispatch.

(** The state of the agent that the handlers read and write, and the four
    handlers [handleP2PMessage] chooses between; what they do is left
    open. *)
Variable Agent : Type.

Definition MessageHandler : Type :=
  Agent -> peer_ID -> Message -> Agent * (option Message * option error).

Variables handleRegister handleChatRequest handlePing handleAnnounce : MessageHandler.

Definition handleP2PMessage : MessageHandler :=
  fun a from msg =>
    if String.eqb (Type_ msg) MessageTypeRegister then handleRegister a from msg
    else if String.eqb (Type_ msg) MessageTypeChat then handleChatRequest a from msg
    else if String.eqb (Type_ msg) MessageTypePing then handlePing a from msg
    else if String.eqb (Type_ msg) MessageTypeAnnounce then handleAnnounce a from msg
    else (a, (None, None)).

(** [handleStream], for what [io.ReadAll] gave and the remote peer of the
    connection: the agent afterwards and what is done on the stream. *)
Definition handleStream (msgHandler : option MessageHandler) (remote : peer_ID)
    (read : error + string) (a : Agent) : Agent * list stream_op :=
  match read with
  | inl _ => (a, [OpClose])
  | inr data =>
      match json.Unmarshal data with
      | None => (a, [OpClose])
      | Some msg =>
          match msgHandler with
          | None => (a, [OpClose])
          | Some handler =>
              match handler a remote msg with
              | (a', (_, Some _)) => (a', [OpClose])
              | (a', (None, None)) => (a', [OpClose])
              | (a', (Some response, None)) =>
                  match json.Marshal response with
                  | None => (a', [OpClose])
                  | Some respData => (a', [OpWrite respData; OpClose])
                  end
              end
          end
      end
  end.

End Dispatch.

(** ** Notions used in the statements *)

(** The contribution of one map entry to [connected_snapshot]. *)
Definition connected_entry (h : Host) (e : peer_ID * loc) : list peer_ID :=
  match mem h !! e.2 with
  | Some info => if Connected info then [e.1] else []
  | None => []
  end.

(** A key that needs no escape. *)
Definition plain_key (key : string) : Prop :=
  utf8.ValidString key = true /\
  json.appendString_loop (String.length key) key = key.

(** The text [Marshal] writes after the opening brace. *)
Definition members (m : Message) (raw : string) : string :=
  json.quoted "type" +:+ ":" +:+ json.appendString (Type_ m)
  +:+ "," +:+ json.quoted "from" +:+ ":" +:+ json.appendString (From m)
  +:+ json.omitempty "to" (To m)
  +:+ json.omitempty "request_id" (RequestID m)
  +:+ "," +:+ json.quoted "payload" +:+ ":" +:+ raw +:+ "}".

(** The payloads that [Marshal] writes unchanged and [Unmarshal] reads
    back: one JSON value, nested less than [maxNestingDepth] deep inside the
    envelope, in the compact and HTML-escaped form that [Compact] (and so
    every [json.Marshal]) yields. *)
Definition compact_payload (p : string) : Prop :=
  json.scan_value 1 p = Some (p, EmptyString).

(** The string fields hold well-formed UTF-8. *)
Definition valid_strings (m : Message) : Prop :=
  utf8.ValidString (Type_ m) = true /\ utf8.ValidString (From m) = true /\
  utf8.ValidString (To m) = true /\ utf8.ValidString (RequestID m) = true.

Definition with_Payload (m : Message) (p : option string) : Message :=
  {| Type_ := Type_ m; From := From m; To := To m; RequestID := RequestID m;
     Payload := p |}.

(** ** Sample data

    Three Ed25519 peer identities in libp2p's format (the identity
    multihash [00 24] of the protobuf-framed 32-byte public key); the first
    two differ in the last key byte only. *)
Module Sample.

Definition bytes (l : list N) : string :=
  fold_right (fun b s => String (ascii_of_N b) s) EmptyString l.

Definition ed25519_id (key : list N) : peer_ID :=
  bytes ([0; 36; 8; 1; 18; 32] ++ key)%N.

Definition key_prefix : list N := repeat 7%N 31.

Definition P1 : peer_ID := ed25519_id (key_prefix ++ [1%N]).
Definition P1' : peer_ID := ed25519_id (key_prefix ++ [2%N]).
Definition P2 : peer_ID := ed25519_id (repeat 9%N 32).
Definition P3 : peer_ID := ed25519_id (repeat 11%N 32).

(** A chat request as [HandleSendToAgent] builds it. *)
Definition chat_payload : string :=
  "{" +:+ json.quoted "model" +:+ ":" +:+ json.quoted "gpt-4" +:+ ","
  +:+ json.quoted "messages" +:+ ":[{" +:+ json.quoted "role" +:+ ":"
  +:+ json.quoted "user" +:+ "," +:+ json.quoted "content" +:+ ":"
  +:+ json.quoted "Hello!" +:+ "}]}".

Definition chat_msg : Message :=
  {| Type_ := MessageTypeChat; From := Base58.Encode P1; To := Base58.Encode P2;
     RequestID := "0b2f6f0e-7c0d-4c53-9a57-3a1d2f4e8b11";
     Payload := Some chat_payload |}.

(** The reply of [handlePing]: no payload is set. *)
Definition pong_msg : Message :=
  {| Type_ := MessageTypePong; From := Base58.Encode P1; To := EmptyString;
     RequestID := EmptyString; Payload := None |}.

(** A message of a type this version does not know. *)
Definition gossip_msg : Message :=
  {| Type_ := "gossip"; From := Base58.Encode P1; To := EmptyString;
     RequestID := "42"; Payload := Some "{}" |}.

(** Three connected peers. *)
Definition three_peers : Host :=
  onPeerConnected P3 (onPeerConnected P2 (onPeerConnected P1 NewHost)).

(** A transport on which no stream to [P2] can be opened and every other
    peer takes the request and closes without a reply. *)
Definition net_P2_down (p : peer_ID) : Stream :=
  if String.eqb p P2
  then {| open_result := Some "dial backoff"; write_result := None;
          read_result := inr EmptyString |}
  else {| open_result := None; write_result := None; read_result := inr EmptyString |}.

End Sample.

(** ** The registry over a run of operations *)

(** Whether the registry holds [P] with its flag set. *)
Definition is_connected (h : Host) (P : peer_ID) : bool :=
  match peers h !! P with
  | Some l =>
      match mem h !! l with
      | Some info => Connected info
      | None => false
      end
  | None => false
  end.

(** The last connect ([true]) or disconnect ([false]) of [P] in a run. *)
Fixpoint last_event (P : peer_ID) (ops : list registry_op) : option bool :=
  match ops with
  | [] => None
  | op :: ops' =>
      match last_event P ops' with
      | Some b => Some b
      | None =>
          match op with
          | OpConnect Q => if String.eqb Q P then Some true else None
          | OpDisconnect Q => if String.eqb Q P then Some false else None
          | OpRegister _ _ => None
          end
      end
  end.

(** ** One exchange between two hosts *)

(** Everything the peer wrote on a stream, as [io.ReadAll] at the other
    end returns it. *)
Definition reply_bytes (ops : list stream_op) : string :=
  fold_right append EmptyString (received ops).

(** A stream that opens, takes the request and then yields what the
    other end did on it. *)
Definition answering (ops : list stream_op) (p : peer_ID) : Stream :=
  {| open_result := None; write_result := None; read_result := inr (reply_bytes ops) |}.

(** [SendMessage] at [from] against [handleStream] at the receiver, over
    a stream that carries the bytes as written: the receiver reads the
    encoded request (nothing when it could not be encoded), and the sender
    reads what the receiver wrote. *)
Definition exchange (Agent : Type) (msgHandler : option (MessageHandler Agent))
    (from to : peer_ID) (msg : Message) (a : Agent)
  : Agent * (list stream_op * (option Message * option send_error)) :=
  let data := match json.Marshal msg with Some d => d | None => EmptyString end in
  let '(a', ops) := handleStream Agent msgHandler from (inr data) a in
  (a', SendMessage (answering ops) to msg).

(** ** The HTTP gateway: [authMiddleware] (package api) *)

(** [strings.TrimPrefix] *)
Definition TrimPrefix (s prefix : string) : string :=
  match strip_prefix prefix s with
  | Some r => r
  | None => s
  end.

Definition HasPrefix (s prefix : string) : bool :=
  match strip_prefix prefix s with
  | Some _ => true
  | None => false
  end.

(** What a middleware does with a request: answers it and aborts the
    chain, or lets it through. *)
Inductive middleware_result : Type :=
| Abort (status : Z) (message type_ : string)
| Next.

(** [auth] is the value of the [Authorization] header, empty when the
    request has none. *)
Definition authMiddleware (apiKey auth : string) : middleware_result :=
  if String.eqb auth EmptyString then
    Abort 401 "Missing Authorization header" "invalid_request_error"
  else
    let token := TrimPrefix auth "Bearer " in
    if negb (String.eqb token apiKey) then
      Abort 401 "Invalid API key" "invalid_request_error"
    else Next.

(** ** Configuration checks (package config) *)
Module config.

Record ValidationError : Type := mkValidationError {
  Field : string;
  Message_ : string
}.

Definition ValidationError_Error (e : ValidationError) : string :=
  Field e +:+ ": " +:+ Message_ e.

(** [strings.Join] *)
Fixpoint Join (elems : list string) (sep : string) : string :=
  match elems with
  | [] => EmptyString
  | [a] => a
  | a :: rest => a +:+ sep +:+ Join rest sep
  end.

Definition ValidationErrors_Error (e : list ValidationError) : string :=
  if Nat.eqb (List.length e) 0 then EmptyString
  else Join (List.map ValidationError_Error e) "; ".

Definition HasErrors (e : list ValidationError) : bool := Nat.ltb 0 (List.length e).

Record Config : Type := mkConfig {
  APIKey : string;
  HTTPPort : Z;
  P2PPort : Z;
  AgentName : string;
  BootstrapPeer : string
}.

Definition validateAPIKey (key : string) : option ValidationError :=
  if String.eqb key EmptyString then
    Some {| Field := "api_key";
            Message_ := "API key is required. Use --api-key flag or set P2P_API_KEY env var" |}
  else if negb (HasPrefix key "sk-") then
    Some {| Field := "api_key";
            Message_ := "Invalid API key format. OpenAI API keys start with 'sk-'" |}
  else if Nat.ltb (String.length key) 40 then
    Some {| Field := "api_key";
            Message_ := "API key appears to be too short. Please check your key" |}
  else None.

Definition between (lo hi : ascii) (c : N) : bool :=
  ((byteN lo <=? c) && (c <=? byteN hi))%N.

Definition isValidNameChar (c : N) : bool :=
  between "a" "z" c || between "A" "Z" c || between "0" "9" c
  || (c =? byteN "-")%N || (c =? byteN "_")%N.

(** [for _, c := range name]: the runes of [name] in turn, a malformed
    byte as [RuneError]; [false] at the first rune that is no name
    character. *)
Fixpoint name_chars_loop (fuel : nat) (name : string) : bool :=
  match fuel with
  | O => true
  | S fuel' =>
      match name with
      | EmptyString => true
      | String _ _ =>
          let '(c, size) := utf8.DecodeRune name in
          if isValidNameChar c then name_chars_loop fuel' (string_drop size name)
          else false
      end
  end.

Definition validateAgentName (name : string) : option ValidationError :=
  if String.eqb name EmptyString then
    Some {| Field := "agent_name";
            Message_ := "Agent name is required. Use --name flag to set it" |}
  else if negb (name_chars_loop (String.length name) name) then
    Some {| Field := "agent_name";
            Message_ := "Agent name can only contain letters, numbers, dashes, and underscores" |}
  else if Nat.ltb (String.length name) 2 then
    Some {| Field := "agent_name"; Message_ := "Agent name must be at least 2 characters" |}
  else if Nat.ltb 32 (String.length name) then
    Some {| Field := "agent_name"; Message_ := "Agent name cannot exceed 32 characters" |}
  else None.

Definition validatePort (port : Z) (field : string) : option ValidationError :=
  if ((port <? 1) || (65535 <? port))%Z then
    Some {| Field := field; Message_ := "Port must be between 1 and 65535" |}
  else if (port <? 1024)%Z then
    Some {| Field := field;
            Message_ := "Port below 1024 requires elevated privileges. Use a port >= 1024" |}
  else None.

Section Validate.

(** Whether [net.Listen("tcp", ":port")] succeeds. *)
Variable listen : Z -> bool.

Definition checkPortAvailable (port : Z) (field : string) : option ValidationError :=
  if listen port then None
  else Some {| Field := field;
               Message_ := "Port " +:+ pretty port +:+ " is already in use" |}.

(** [errors = append(errors, *err)] when [err] is not nil. *)
Definition append_err (errors : list ValidationError) (err : option ValidationError)
  : list ValidationError :=
  match err with
  | Some e => errors ++ [e]
  | None => errors
  end.

Definition Validate (c : Config) : list ValidationError :=
  let errors := [] in
  let errors := append_err errors (validateAPIKey (APIKey c)) in
  let errors := append_err errors (validateAgentName (AgentName c)) in
  let errors := append_err errors (validatePort (HTTPPort c) "http_port") in
  let errors := append_err errors (validatePort (P2PPort c) "p2p_port") in
  let errors :=
    if (HTTPPort c =? P2PPort c)%Z
    then errors ++ [{| Field := "ports";
                       Message_ := "HTTP port and P2P port cannot be the same" |}]
    else errors in
  let errors := append_err errors (checkPortAvailable (HTTPPort c) "http_port") in
  let errors := append_err errors (checkPortAvailable (P2PPort c) "p2p_port") in
  errors.

End Validate.

End config.

(** ** The stored key as [config show] prints it (package cli) *)

(** [s[n:]] for [n <= len(s)] *)
Definition slice_from (s : string) (n : nat) : string := string_drop n s.

(** [apiKey[:7] + "..." + apiKey[len(apiKey)-4:]], for a key that is
    set. *)
Definition masked_key (apiKey : string) : outcome string :=
  match slice_to apiKey 7 with
  | Returned head =>
      Returned (head +:+ "..." +:+ slice_from apiKey (String.length apiKey - 4))
  | Panicked => Panicked
  end.

(** ** The agent: the handlers of inbound messages (package agent) *)

(** [p2p.RegisterPayload] and [p2p.AnnouncePayload] *)
Module RegisterPayload.
Record t : Type := mk { AgentName : string; Endpoint : string; Models : list string }.
End RegisterPayload.

Module AnnouncePayload.
Record t : Type := mk {
  Type_ : string; Name : string; URL : string; Description : string; Tags : list string
}.
End AnnouncePayload.

Module agent.

Record AgentRecord : Type := mkAgentRecord {
  PeerID : peer_ID;
  Name : string;
  Endpoint : string;
  Models : list string
}.

(** The fields of [Agent] that the handlers use: the host with its
    registry, the identity of the host ([p2pHost.ID()]) and the records of
    the agents that registered, keyed by the text of their identity. *)
Record Agent : Type := mkAgent {
  p2pHost : Host;
  hostID : peer_ID;
  agentRegistry : gmap string AgentRecord
}.

(** The agent that [New] builds, with the host that [Start] creates for
    it, before [SetLocalName]. *)
Definition New (id : peer_ID) : Agent :=
  {| p2pHost := NewHost; hostID := id; agentRegistry := ∅ |}.

(** [api.AgentInfo], as [HandleListAgents] fills it. *)
Record AgentInfo : Type := mkAgentInfo {
  info_ID : string;
  info_PeerID : string;
  info_Name : string;
  info_Endpoint : string;
  info_Models : list string;
  info_Connected : bool
}.

(** The errors of [HandleSendToAgent]. *)
Inductive gateway_error : Type :=
| ErrInvalidAgentID (cause : error)    (* "invalid agent ID: %w" *)
| ErrSendToAgent (cause : send_error)  (* "failed to send to agent: %w" *)
| ErrNoResponse                        (* "no response from agent" *)
| ErrParseResponse (cause : error).    (* "failed to parse agent response: %w" *)

Section Handlers.

Variable ID_String : peer_ID -> string.

(** [json.Unmarshal] of a payload into the structure a handler expects,
    and what lies behind the chat handler: the request and response types
    of package api, the call to the completion service and the encoding of
    its answer (the bytes, none when it fails). *)
Variable Unmarshal_RegisterPayload : option string -> error + RegisterPayload.t.
Variable Unmarshal_AnnouncePayload : option string -> error + AnnouncePayload.t.
Variables ChatCompletionRequest ChatCompletionResponse : Type.
Variable Unmarshal_ChatCompletionRequest : option string -> error + ChatCompletionRequest.
Variable forwardToOpenAI : ChatCompletionRequest -> error + ChatCompletionResponse.
Variable Marshal_ChatCompletionResponse : ChatCompletionResponse -> option string.

(** What a handler gives back, unless it panics. *)
Definition handled : Type := outcome (Agent * (option Message * option error)).

Definition pong (a : Agent) : Message :=
  {| Type_ := MessageTypePong; From := ID_String (hostID a); To := EmptyString;
     RequestID := EmptyString; Payload := None |}.

(** [json.Marshal(map[string]string{"error": msg})] *)
Definition error_payload (msg : string) : string :=
  "{" +:+ json.quoted "error" +:+ ":" +:+ json.appendString msg +:+ "}".

Definition handleRegister (a : Agent) (from : peer_ID) (msg : Message) : handled :=
  match Unmarshal_RegisterPayload (Payload msg) with
  | inl err => Returned (a, (None, Some err))
  | inr payload =>
      match RegisterAgentName ID_String (RegisterPayload.AgentName payload) from (p2pHost a) with
      | (_, Panicked) => Panicked
      | (h', Returned (Some err)) =>
          Returned
            ({| p2pHost := h'; hostID := hostID a; agentRegistry := agentRegistry a |},
             (Some {| Type_ := MessageTypeError; From := ID_String (hostID a);
                      To := EmptyString; RequestID := EmptyString;
                      Payload := Some (error_payload err) |}, None))
      | (h', Returned None) =>
          Returned
            ({| p2pHost := h'; hostID := hostID a;
                agentRegistry :=
                  <[ID_String from :=
                      {| PeerID := from; Name := RegisterPayload.AgentName payload;
                         Endpoint := RegisterPayload.Endpoint payload;
                         Models := RegisterPayload.Models payload |}]> (agentRegistry a) |},
             (Some (pong a), None))
      end
  end.

Definition handleChatRequest (a : Agent) (from : peer_ID) (msg : Message) : handled :=
  match Unmarshal_ChatCompletionRequest (Payload msg) with
  | inl err => Returned (a, (None, Some err))
  | inr chatReq =>
      match forwardToOpenAI chatReq with
      | inl err => Returned (a, (None, Some err))
      | inr resp =>
          Returned
            (a, (Some {| Type_ := MessageTypeComplete; From := ID_String (hostID a);
                         To := EmptyString; RequestID := RequestID msg;
                         Payload := Marshal_ChatCompletionResponse resp |}, None))
      end
  end.

Definition handlePing (a : Agent) (from : peer_ID) (msg : Message) : handled :=
  Returned (a, (Some (pong a), None)).

(** The log line takes [from.String()[:12]]. *)
Definition handleAnnounce (a : Agent) (from : peer_ID) (msg : Message) : handled :=
  match Unmarshal_AnnouncePayload (Payload msg) with
  | inl err => Returned (a, (None, Some err))
  | inr payload =>
      match slice_to (ID_String from) 12 with
      | Panicked => Panicked
      | Returned _ => Returned (a, (Some (pong a), None))
      end
  end.

(** A handler as the host calls it: on the process, which a panic of a
    handler ends. *)
Definition lift (f : Agent -> peer_ID -> Message -> handled)
  : MessageHandler (outcome Agent) :=
  fun p from msg =>
    match p with
    | Panicked => (Panicked, (None, None))
    | Returned a =>
        match f a from msg with
        | Panicked => (Panicked, (None, None))
        | Returned (a', r) => (Returned a', r)
        end
    end.

(** [a.handleP2PMessage], the handler that [Start] installs. *)
Definition dispatch : MessageHandler (outcome Agent) :=
  handleP2PMessage (outcome Agent) (lift handleRegister) (lift handleChatRequest)
    (lift handlePing) (lift handleAnnounce).

(** [HandleListAgents]: an entry for every pointer that [GetPeers]
    returns. *)
Definition HandleListAgents (order : list (peer_ID * loc)) (a : Agent) : list AgentInfo :=
  foldl (fun agents l =>
           match deref (p2pHost a) l with
           | Some p =>
               let agentInfo :=
                 {| info_ID := ID_String (ID p); info_PeerID := ID_String (ID p);
                    info_Name := EmptyString; info_Endpoint := EmptyString;
                    info_Models := []; info_Connected := Connected p |} in
               agents ++
               [match agentRegistry a !! ID_String (ID p) with
                | Some record =>
                    {| info_ID := info_ID agentInfo; info_PeerID := info_PeerID agentInfo;
                       info_Name := Name record; info_Endpoint := Endpoint record;
                       info_Models := Models record;
                       info_Connected := info_Connected agentInfo |}
                | None => agentInfo
                end]
           | None => agents
           end) [] (GetPeers order (p2pHost a)).

(** What [HandleSendToAgent] takes from outside: [peer.Decode], the
    encoding of the request (the bytes, none when it fails) and the
    decoding of the payload of the answer. *)
Variable peer_Decode : string -> error + peer_ID.
Variable Marshal_ChatCompletionRequest : ChatCompletionRequest -> option string.
Variable Unmarshal_ChatCompletionResponse : option string -> error + ChatCompletionResponse.

(** The message that [HandleSendToAgent] builds; [requestID] is what
    [uuid.New().String()] gives. *)
Definition chat_request (a : Agent) (agentID requestID : string)
    (req : ChatCompletionRequest) : Message :=
  {| Type_ := MessageTypeChat; From := ID_String (hostID a); To := agentID;
     RequestID := requestID; Payload := Marshal_ChatCompletionRequest req |}.

Definition HandleSendToAgent (net : peer_ID -> Stream) (requestID : string)
    (a : Agent) (agentID : string) (req : ChatCompletionRequest)
  : list stream_op * (gateway_error + ChatCompletionResponse) :=
  match peer_Decode agentID with
  | inl err => ([], inl (ErrInvalidAgentID err))
  | inr peerID =>
      match SendMessage net peerID (chat_request a agentID requestID req) with
      | (ops, (_, Some err)) => (ops, inl (ErrSendToAgent err))
      | (ops, (None, None)) => (ops, inl ErrNoResponse)
      | (ops, (Some resp, None)) =>
          match Unmarshal_ChatCompletionResponse (Payload resp) with
          | inl err => (ops, inl (ErrParseResponse err))
          | inr chatResp => (ops, inr chatResp)
          end
      end
  end.

(** [json.Marshal] of the [RegisterPayload] that [broadcastRegistration]
    fills from the configuration ([a.config], given as [cfg]). *)
Definition registration_payload (cfg : config.Config) : string :=
  "{" +:+ json.quoted "agent_name" +:+ ":" +:+ json.appendString (config.AgentName cfg)
  +:+ "," +:+ json.quoted "endpoint" +:+ ":"
  +:+ json.appendString ("http://localhost:" +:+ pretty (config.HTTPPort cfg))
  +:+ "," +:+ json.quoted "models" +:+ ":[" +:+ json.appendString "gpt-4" +:+ ","
  +:+ json.appendString "gpt-3.5-turbo" +:+ "]}".

Definition registration (cfg : config.Config) (a : Agent) : Message :=
  {| Type_ := MessageTypeRegister; From := ID_String (hostID a); To := EmptyString;
     RequestID := EmptyString; Payload := Some (registration_payload cfg) |}.

Definition broadcastRegistration (order : list (peer_ID * loc)) (cfg : config.Config)
    (a : Agent) : list (peer_ID * Message) * option send_error :=
  Broadcast order (p2pHost a) (registration cfg a).

(** What reaches an agent: a message on an inbound stream, or a
    notification of the network. *)
Inductive event : Type :=
| Inbound (from : peer_ID) (msg : Message)
| Connect (peerID : peer_ID)
| Disconnect (peerID : peer_ID).

Definition with_host (a : Agent) (h : Host) : Agent :=
  {| p2pHost := h; hostID := hostID a; agentRegistry := agentRegistry a |}.

(** The process after an event, the events taken one after another. *)
Definition react (p : outcome Agent) (e : event) : outcome Agent :=
  match p with
  | Panicked => Panicked
  | Returned a =>
      match e with
      | Inbound from msg => (dispatch (Returned a) from msg).1
      | Connect peerID => Returned (with_host a (onPeerConnected peerID (p2pHost a)))
      | Disconnect peerID => Returned (with_host a (onPeerDisconnected peerID (p2pHost a)))
      end
  end.

Definition run (p : outcome Agent) (events : list event) : outcome Agent :=
  foldl react p events.

(** Every record is filed under the text of its peer, and its name is
    claimed by that peer. *)
Definition registry_consistent (a : Agent) : Prop :=
  forall key r, agentRegistry a !! key = Some r ->
    key = ID_String (PeerID r) /\ agentNames (p2pHost a) !! Name r = Some (PeerID r).

End Handlers.

End agent.

(** ** Notions used in the further statements *)

(** A message that [Marshal] and [Unmarshal] carry unchanged. *)
Definition wire_safe (m : Message) : Prop :=
  valid_strings m /\ exists p, Payload m = Some p /\ compact_payload p.

Fixpoint all_bytes (P : ascii -> bool) (s : string) : bool :=
  match s with
  | EmptyString => true
  | String c r => P c && all_bytes P r
  end.

(** An ASCII letter, a digit, a dash or an underscore. *)
Definition name_byte (c : ascii) : bool := config.isValidNameChar (byteN c).

(** The stream on which the receiver with handler [handler], in state
    [b], answers the message [msg] of [from]. *)
Definition answered_by (Agent : Type) (handler : MessageHandler Agent) (b : Agent)
    (from : peer_ID) (msg : Message) : peer_ID -> Stream :=
  answering
    (handleStream Agent (Some handler) from
       (inr (match json.Marshal msg with Some d => d | None => EmptyString end)) b).2.

(** The entry of [P] in a listing of the agents. *)
Definition listed (ID_String : peer_ID -> string) (a : agent.Agent) (P : peer_ID)
  : agent.AgentInfo :=
  let record := agent.agentRegistry a !! ID_String P in
  {| agent.info_ID := ID_String P; agent.info_PeerID := ID_String P;
     agent.info_Name := match record with Some r => agent.Name r | None => EmptyString end;
     agent.info_Endpoint :=
       match record with Some r => agent.Endpoint r | None => EmptyString end;
     agent.info_Models := match record with Some r => agent.Models r | None => [] end;
     agent.info_Connected := is_connected (agent.p2pHost a) P |}.

(** A text that the scanner, inside a string literal, passes through
    unchanged and that leaves it inside the literal. *)
Definition verbatim (p : string) : Prop :=
  forall d stack X,
    json.scan d 0 json.stateInString stack (p +:+ X)
    = json.prepend p (json.scan d 0 json.stateInString stack X).

(** The stream was closed, once, and nothing was done on it
    afterwards. *)
Definition closed_once (ops : list stream_op) : Prop :=
  exists pre, ops = pre ++ [OpClose] /\ OpClose ∉ pre.

(** The text form of every peer that holds a name has at least the 12
    bytes that the conflict message takes from it. *)
Definition owners_long (ID_String : peer_ID -> string) (a : agent.Agent) : Prop :=
  forall n p, agentNames (agent.p2pHost a) !! n = Some p -> 12 <= String.length (ID_String p).

(** Further sample data. *)
Module Sample2.

(** A handler that answers every message with the message itself. *)
Definition echo : MessageHandler unit := fun a _ m => (a, (Some m, None)).

(** A handler that fails on every message. *)
Definition failing : MessageHandler unit := fun a _ _ => (a, (None, Some "no backend")).

(** A message whose payload is no JSON text. *)
Definition broken_msg : Message :=
  {| Type_ := MessageTypeChat; From := Base58.Encode Sample.P1; To := EmptyString;
     RequestID := EmptyString; Payload := Some "{" |}.

Definition api_key : string := "sk-proj-0123456789abcdefghijklmnopqrstuvwxyzABCD".

Definition cfg : config.Config :=
  {| config.APIKey := api_key; config.HTTPPort := 8080; config.P2PPort := 9000;
     config.AgentName := "my-agent_01"; config.BootstrapPeer := EmptyString |}.

(** The registration that the agent of [from] broadcasts under [name]. *)
Definition register_cfg (name : string) : config.Config :=
  {| config.APIKey := api_key; config.HTTPPort := 8080; config.P2PPort := 9000;
     config.AgentName := name; config.BootstrapPeer := EmptyString |}.

Definition register_msg (from : peer_ID) (name : string) : Message :=
  agent.registration Base58.Encode (register_cfg name) (agent.New from).

(** The decoders, on the payloads of the samples: a registration under
    one of two names, no announcement, and a chat request or response
    kept as its text. *)
Definition decode_register (p : option string) : error + RegisterPayload.t :=
  let known name :=
    RegisterPayload.mk name "http://localhost:8080" ["gpt-4"; "gpt-3.5-turbo"] in
  match p with
  | Some s =>
      if String.eqb s (agent.registration_payload (register_cfg "alice"))
      then inr (known "alice")
      else if String.eqb s (agent.registration_payload (register_cfg "bob"))
      then inr (known "bob")
      else inl "json: cannot unmarshal into Go value of type p2p.RegisterPayload"
  | None => inl "unexpected end of JSON input"
  end.

Definition decode_announce (p : option string) : error + AnnouncePayload.t :=
  inl "unexpected end of JSON input".

Definition decode_text (p : option string) : error + string :=
  match p with
  | Some s => inr s
  | None => inl "unexpected end of JSON input"
  end.

Definition decode_peer (s : string) : error + peer_ID :=
  if String.eqb s (Base58.Encode Sample.P2) then inr Sample.P2
  else inl "failed to parse peer ID".

Definition completion : string :=
  "{" +:+ json.quoted "id" +:+ ":" +:+ json.quoted "chatcmpl-1" +:+ ","
  +:+ json.quoted "object" +:+ ":" +:+ json.quoted "chat.completion" +:+ "}".

(** The completion service, answering and failing. *)
Definition service_up (req : string) : error + string := inr completion.
Definition service_down (req : string) : error + string := inl "connection refused".

Definition dispatch (service : string -> error + string)
  : MessageHandler (outcome agent.Agent) :=
  agent.dispatch Base58.Encode decode_register decode_announce string string
    decode_text service Some.

Definition run : outcome agent.Agent -> list agent.event -> outcome agent.Agent :=
  agent.run Base58.Encode decode_register decode_announce string string
    decode_text service_up Some.

Definition HandleSendToAgent :=
  agent.HandleSendToAgent Base58.Encode string string decode_peer Some decode_text.

Definition request_id : string := "0b2f6f0e-7c0d-4c53-9a57-3a1d2f4e8b11".

Definition ping_msg : Message :=
  {| Type_ := MessageTypePing; From := Base58.Encode Sample.P1; To := EmptyString;
     RequestID := EmptyString; Payload := Some "{}" |}.

(** [P1] connects and registers as alice, [P2] connects and asks for the
    same name, [P1] goes away. *)
Definition events : list agent.event :=
  [agent.Connect Sample.P1; agent.Inbound Sample.P1 (register_msg Sample.P1 "alice");
   agent.Connect Sample.P2; agent.Inbound Sample.P2 (register_msg Sample.P2 "alice");
   agent.Disconnect Sample.P1].

(** An agent on which [P1] holds the name alice. *)
Definition alice_claimed : agent.Agent :=
  {| agent.p2pHost := (RegisterAgentName Base58.Encode "alice" Sample.P1 NewHost).1;
     agent.hostID := Sample.P3; agent.agentRegistry := ∅ |}.

End Sample2.

(** ** Properties of the registry *)

Section RegistryFacts.

Variable ID_String : peer_ID -> string.

Lemma wf_NewHost : wf NewHost.
Proof. intros p l H. cbn in H. by rewrite lookup_empty in H. Qed.

Lemma wf_peers_inj h p1 p2 l :
  wf h -> peers h !! p1 = Some l -> peers h !! p2 = Some l -> p1 = p2.
Proof.
  intros Hwf H1 H2.
  destruct (Hwf _ _ H1) as (i1 & E1 & <-).
  destruct (Hwf _ _ H2) as (i2 & E2 & <-).
  congruence.
Qed.

Lemma wf_onPeerConnected h p : wf h -> wf (onPeerConnected p h).
Proof.
  intros Hwf q l. unfold onPeerConnected.
  destruct (peers h !! p) as [lp|] eqn:Ep; cbn.
  - intros Hq. destruct (Hwf _ _ Hq) as (info & E & Hid).
    rewrite lookup_alter. case_decide; subst.
    + rewrite E. cbn. eauto.
    + eauto.
  - rewrite lookup_insert. case_decide; subst.
    + intros [= <-]. rewrite lookup_insert_eq. eauto.
    + intros Hq. destruct (Hwf _ _ Hq) as (info & E & Hid).
      rewrite lookup_insert_ne; [eauto|].
      intros <-. apply (is_fresh (dom (mem h))). apply elem_of_dom. eauto.
Qed.

Lemma wf_onPeerDisconnected h p : wf h -> wf (onPeerDisconnected p h).
Proof.
  intros Hwf q l. unfold onPeerDisconnected.
  destruct (peers h !! p) as [lp|] eqn:Ep; cbn; [|apply Hwf].
  intros Hq. destruct (Hwf _ _ Hq) as (info & E & Hid).
  rewrite lookup_alter. case_decide; subst.
  - rewrite E. cbn. eauto.
  - eauto.
Qed.

Lemma RegisterAgentName_peers name p h :
  peers (RegisterAgentName ID_String name p h).1 = peers h /\
  mem (RegisterAgentName ID_String name p h).1 = mem h.
Proof.
  unfold RegisterAgentName.
  destruct (agentNames h !! name); [|done].
  case_decide; [done|]. by destruct (slice_to _ _).
Qed.

Lemma wf_RegisterAgentName name p h :
  wf h -> wf (RegisterAgentName ID_String name p h).1.
Proof.
  intros Hwf q l. destruct (RegisterAgentName_peers name p h) as [-> ->]. apply Hwf.
Qed.

Lemma wf_apply_ops ops : forall h, wf h -> wf (apply_ops ID_String h ops).
Proof.
  induction ops as [|op ops IH]; intros h Hwf; [done|].
  cbn. apply IH. destruct op; cbn;
    auto using wf_RegisterAgentName, wf_onPeerConnected, wf_onPeerDisconnected.
Qed.

(** *** Name arbitration *)

Lemma RegisterAgentName_unclaimed n p h :
  agentNames h !! n = None ->
  RegisterAgentName ID_String n p h =
    ({| localName := localName h; peers := peers h;
        agentNames := <[n := p]> (agentNames h); mem := mem h |}, Returned None).
Proof. intros E. unfold RegisterAgentName. by rewrite E. Qed.

Lemma RegisterAgentName_same_owner n p h :
  agentNames h !! n = Some p ->
  RegisterAgentName ID_String n p h = (h, Returned None).
Proof.
  intros E. unfold RegisterAgentName. rewrite E.
  rewrite decide_True by done. rewrite insert_id by done. by destruct h.
Qed.

Lemma RegisterAgentName_conflict n p q h :
  agentNames h !! n = Some p -> q <> p ->
  12 <= String.length (ID_String p) ->
  RegisterAgentName ID_String n q h =
    (h, Returned (Some (name_taken_error n (substring 0 12 (ID_String p))))).
Proof.
  intros E Hne Hlen. unfold RegisterAgentName. rewrite E.
  rewrite decide_False by congruence.
  unfold slice_to. by rewrite decide_True.
Qed.

Lemma RegisterAgentName_rejected n p q h :
  agentNames h !! n = Some p -> q <> p ->
  (RegisterAgentName ID_String n q h).1 = h /\
  (RegisterAgentName ID_String n q h).2 <> Returned None.
Proof.
  intros E Hne. unfold RegisterAgentName. rewrite E.
  rewrite decide_False by congruence.
  by destruct (slice_to _ _).
Qed.

Lemma RegisterAgentName_keeps n p h m q :
  agentNames h !! m = Some q ->
  agentNames (RegisterAgentName ID_String n p h).1 !! m = Some q.
Proof.
  intros E. unfold RegisterAgentName.
  destruct (agentNames h !! n) as [e|] eqn:En.
  - case_decide as Hd.
    + cbn. subst e. destruct (decide (n = m)) as [->|];
        [rewrite lookup_insert_eq; congruence | by rewrite lookup_insert_ne].
    + by destruct (slice_to _ _).
  - cbn. rewrite lookup_insert_ne; [done | congruence].
Qed.

Lemma onPeerConnected_agentNames p h :
  agentNames (onPeerConnected p h) = agentNames h.
Proof. unfold onPeerConnected. by destruct (peers h !! p). Qed.

Lemma onPeerDisconnected_agentNames p h :
  agentNames (onPeerDisconnected p h) = agentNames h.
Proof. unfold onPeerDisconnected. by destruct (peers h !! p). Qed.

Lemma apply_op_keeps op h m q :
  agentNames h !! m = Some q -> agentNames (apply_op ID_String h op) !! m = Some q.
Proof.
  destruct op; cbn.
  - apply RegisterAgentName_keeps.
  - by rewrite onPeerConnected_agentNames.
  - by rewrite onPeerDisconnected_agentNames.
Qed.

(** C1. A name nobody holds goes to the first identity that claims it;
    the owner claiming it again succeeds and changes nothing; a claim by
    any other identity does not succeed and leaves the owner in place, and
    what it returns is the name-conflict error (built from the first 12
    characters of the owner's text form, which the text form of every
    key-derived identity has). *)
Theorem RegisterAgentName_first_claim_wins (n : string) (P1 P2 : peer_ID) (h : Host) :
  agentNames h !! n = None ->
  P2 <> P1 ->
  let r1 := RegisterAgentName ID_String n P1 h in
  r1.2 = Returned None /\
  IsNameTaken n r1.1 = (true, P1) /\
  RegisterAgentName ID_String n P1 r1.1 = (r1.1, Returned None) /\
  (RegisterAgentName ID_String n P2 r1.1).2 <> Returned None /\
  (RegisterAgentName ID_String n P2 r1.1).1 = r1.1 /\
  IsNameTaken n (RegisterAgentName ID_String n P2 r1.1).1 = (true, P1) /\
  (12 <= String.length (ID_String P1) ->
   (RegisterAgentName ID_String n P2 r1.1).2 =
     Returned (Some (name_taken_error n (substring 0 12 (ID_String P1))))).
Proof.
  intros Hfree Hne r1. subst r1.
  rewrite (RegisterAgentName_unclaimed _ _ _ Hfree). cbn [fst snd].
  set (h1 := mkHost _ _ _ _).
  assert (Hown : agentNames h1 !! n = Some P1) by apply lookup_insert_eq.
  assert (Htaken : IsNameTaken n h1 = (true, P1))
    by (unfold IsNameTaken; by rewrite Hown).
  destruct (RegisterAgentName_rejected n P1 P2 h1 Hown Hne) as [Hst Hres].
  split; [done|].
  split; [exact Htaken|].
  split; [by apply RegisterAgentName_same_owner|].
  split; [exact Hres|].
  split; [exact Hst|].
  split; [by rewrite Hst|].
  intros Hlen. by rewrite (RegisterAgentName_conflict _ _ _ _ Hown Hne Hlen).
Qed.

(** C7 (as the code has it). The conflict error is a message: the name
    and the first 12 characters of the owner's text form.  The registry is
    left as it was, and the owner's full identity is what [IsNameTaken]
    returns for the name. *)
Theorem RegisterAgentName_conflict_message (n : string) (P1 P2 : peer_ID) (h : Host) :
  agentNames h !! n = Some P1 ->
  P2 <> P1 ->
  12 <= String.length (ID_String P1) ->
  RegisterAgentName ID_String n P2 h =
    (h, Returned (Some ("agent name '" +:+ n +:+ "' is already taken by peer "
                          +:+ substring 0 12 (ID_String P1)))) /\
  IsNameTaken n (RegisterAgentName ID_String n P2 h).1 = (true, P1).
Proof.
  intros Hown Hne Hlen.
  rewrite (RegisterAgentName_conflict _ _ _ _ Hown Hne Hlen).
  split; [done|]. cbn [fst]. unfold IsNameTaken. by rewrite Hown.
Qed.

(** C10. One identity may hold several names, and no registry operation
    takes a name away from its owner or hands it to another. *)
Theorem agentNames_claims_persist (A B : string) (P : peer_ID) (h : Host) :
  agentNames h !! A = Some P ->
  agentNames h !! B = None ->
  let r := RegisterAgentName ID_String B P h in
  r.2 = Returned None /\
  agentNames r.1 !! A = Some P /\
  agentNames r.1 !! B = Some P /\
  forall (ops : list registry_op) (h0 : Host) (m : string) (q : peer_ID),
    agentNames h0 !! m = Some q ->
    agentNames (apply_ops ID_String h0 ops) !! m = Some q.
Proof.
  intros HA HB r. subst r.
  rewrite (RegisterAgentName_unclaimed _ _ _ HB). cbn [fst snd agentNames].
  split; [done|]. split.
  { rewrite lookup_insert_ne; [done|]. intros ->. congruence. }
  split; [apply lookup_insert_eq|].
  induction ops as [|op ops IH]; intros h0 m q Hm; [done|].
  cbn. apply IH. by apply apply_op_keeps.
Qed.

(** *** Connection tracking *)

Lemma set_Connected_idemp b info :
  set_Connected b (set_Connected b info) = set_Connected b info.
Proof. done. Qed.

Lemma alter_set_Connected_idemp b l (m : gmap loc PeerInfo) :
  alter (set_Connected b) l (alter (set_Connected b) l m) = alter (set_Connected b) l m.
Proof.
  apply map_eq. intros i. destruct (decide (l = i)) as [->|Hne].
  - rewrite !lookup_alter_eq. by destruct (m !! i).
  - by rewrite !lookup_alter_ne.
Qed.

Lemma onPeerConnected_idemp p h :
  onPeerConnected p (onPeerConnected p h) = onPeerConnected p h.
Proof.
  unfold onPeerConnected at 2 3.
  destruct (peers h !! p) as [l|] eqn:E.
  - unfold onPeerConnected, with_mem. cbn. rewrite E. unfold with_mem. cbn.
    by rewrite alter_set_Connected_idemp.
  - unfold onPeerConnected. cbn. rewrite lookup_insert_eq. unfold with_mem. cbn.
    by rewrite alter_insert_eq.
Qed.

Lemma onPeerDisconnected_idemp p h :
  onPeerDisconnected p (onPeerDisconnected p h) = onPeerDisconnected p h.
Proof.
  unfold onPeerDisconnected at 2 3.
  destruct (peers h !! p) as [l|] eqn:E.
  - unfold onPeerDisconnected, with_mem. cbn. rewrite E. unfold with_mem. cbn.
    by rewrite alter_set_Connected_idemp.
  - unfold onPeerDisconnected. by rewrite E.
Qed.

(** C8. Connecting a peer that is already in the registry only sets its
    [Connected] flag: the maps, the other fields of its entry and every
    other entry stay as they were, and a second connect changes nothing
    more.  Disconnecting a peer the registry does not know changes
    nothing and creates no entry. *)
Theorem onPeerConnected_onPeerDisconnected_idempotent (P : peer_ID) (h : Host) :
  onPeerConnected P (onPeerConnected P h) = onPeerConnected P h /\
  onPeerDisconnected P (onPeerDisconnected P h) = onPeerDisconnected P h /\
  (forall l info, wf h -> peers h !! P = Some l -> mem h !! l = Some info ->
     let h' := onPeerConnected P h in
     peers h' = peers h /\ agentNames h' = agentNames h /\
     localName h' = localName h /\
     mem h' !! l = Some {| ID := ID info; Name := Name info;
                           Addrs := Addrs info; Connected := true |} /\
     (forall l', l' <> l -> mem h' !! l' = mem h !! l') /\
     (forall Q lq, Q <> P -> peers h !! Q = Some lq ->
        peers h' !! Q = Some lq /\ mem h' !! lq = mem h !! lq)) /\
  (peers h !! P = None -> onPeerDisconnected P h = h).
Proof.
  split; [apply onPeerConnected_idemp|].
  split; [apply onPeerDisconnected_idemp|].
  split.
  - intros l info Hwf Hp Hl h'. subst h'. unfold onPeerConnected. rewrite Hp.
    cbn. split; [done|]. split; [done|]. split; [done|].
    split; [by rewrite lookup_alter_eq, Hl|].
    split; [intros l' Hne; by rewrite lookup_alter_ne|].
    intros Q lq HQ Hq. split; [done|].
    rewrite lookup_alter_ne; [done|].
    intros <-. apply HQ. by apply (wf_peers_inj h Q P l).
  - intros E. unfold onPeerDisconnected. by rewrite E.
Qed.

(** C5. A disconnect keeps the peer's entry, with the flag cleared, and
    keeps every name claim: a name the peer holds is still reported taken
    by it, and another identity still cannot claim it. *)
Theorem onPeerDisconnected_keeps_entry_and_claim
    (n : string) (P1 P2 : peer_ID) (h : Host) :
  wf h ->
  agentNames h !! n = Some P1 ->
  P2 <> P1 ->
  let h' := onPeerDisconnected P1 h in
  peers h' = peers h /\
  dom (mem h') = dom (mem h) /\
  (forall l, peers h !! P1 = Some l ->
     exists info, mem h !! l = Some info /\
                  mem h' !! l = Some (set_Connected false info)) /\
  agentNames h' = agentNames h /\
  IsNameTaken n h' = (true, P1) /\
  (RegisterAgentName ID_String n P2 h').1 = h' /\
  (RegisterAgentName ID_String n P2 h').2 <> Returned None /\
  (12 <= String.length (ID_String P1) ->
   RegisterAgentName ID_String n P2 h' =
     (h', Returned (Some (name_taken_error n (substring 0 12 (ID_String P1)))))).
Proof.
  intros Hwf Hown Hne h'.
  assert (Hnames : agentNames h' = agentNames h)
    by apply onPeerDisconnected_agentNames.
  assert (Hown' : agentNames h' !! n = Some P1) by (by rewrite Hnames).
  split; [subst h'; unfold onPeerDisconnected; by destruct (peers h !! P1)|].
  split.
  { subst h'. unfold onPeerDisconnected. destruct (peers h !! P1); [|done].
    cbn. apply dom_alter_L. }
  split.
  { intros l Hl. destruct (Hwf _ _ Hl) as (info & E & _). exists info.
    split; [done|]. subst h'. unfold onPeerDisconnected. rewrite Hl. cbn.
    by rewrite lookup_alter_eq, E. }
  split; [done|].
  split; [unfold IsNameTaken; by rewrite Hown'|].
  destruct (RegisterAgentName_rejected n P1 P2 h' Hown' Hne) as [H1 H2].
  split; [done|]. split; [done|].
  intros Hlen. by apply RegisterAgentName_conflict.
Qed.

(** *** Snapshots of the peer map *)

Lemma connected_snapshot_bind h order :
  connected_snapshot order h = order ≫= connected_entry h.
Proof.
  unfold connected_snapshot.
  enough (forall acc,
    foldl (fun acc e =>
             match mem h !! e.2 with
             | Some info => if Connected info then acc ++ [e.1] else acc
             | None => acc
             end) acc order = acc ++ (order ≫= connected_entry h)) as Hgen
    by apply (Hgen []).
  induction order as [|e order IH]; intros acc; cbn.
  - by rewrite app_nil_r.
  - rewrite IH. unfold connected_entry at 2.
    destruct (mem h !! e.2) as [info|]; [destruct (Connected info)|]; cbn;
      by rewrite <- ?app_assoc.
Qed.

Lemma GetPeers_fmap order h : GetPeers order h = order.*2.
Proof.
  unfold GetPeers.
  enough (forall acc : list loc,
    foldl (fun acc (e : peer_ID * loc) => acc ++ [e.2]) acc order = acc ++ order.*2)
    as Hgen by apply (Hgen []).
  induction order as [|e order IH]; intros acc; cbn.
  - by rewrite app_nil_r.
  - rewrite IH. by rewrite <- app_assoc.
Qed.

Lemma connected_snapshot_sublist h order :
  connected_snapshot order h `sublist_of` order.*1.
Proof.
  rewrite connected_snapshot_bind.
  induction order as [|e order IH]; cbn; [constructor|].
  unfold connected_entry at 1.
  destruct (mem h !! e.2) as [info|]; [destruct (Connected info)|]; cbn;
    by constructor.
Qed.

Lemma elem_of_connected_snapshot h order P :
  range_order (peers h) order ->
  P ∈ connected_snapshot order h <->
  exists l info, peers h !! P = Some l /\ deref h l = Some info /\ Connected info = true.
Proof.
  intros Hord. rewrite connected_snapshot_bind, list_elem_of_bind. split.
  - intros ([Q l] & Hin & Hmem). unfold connected_entry in Hin. cbn in Hin.
    destruct (mem h !! l) as [info|] eqn:E; [|by apply elem_of_nil in Hin].
    destruct (Connected info) eqn:Ec; [|by apply elem_of_nil in Hin].
    apply list_elem_of_singleton in Hin. subst Q.
    exists l, info. repeat split; [|done..].
    apply elem_of_map_to_list. by rewrite <- Hord.
  - intros (l & info & Hp & Hl & Hc). exists (P, l). split.
    + unfold connected_entry. cbn. unfold deref in Hl. rewrite Hl, Hc.
      by apply list_elem_of_singleton.
    + unfold range_order in Hord. rewrite Hord. by apply elem_of_map_to_list.
Qed.

(** C4 (as the code has it). The list of identities that [Broadcast]
    collects holds exactly the peers whose [Connected] flag is set, each
    once; it holds a peer after its connect and not after its
    disconnect.  [GetPeers] returns the pointer of every entry of the map,
    whatever its flag, and a connect or disconnect that follows is seen
    through these pointers. *)
Theorem connected_snapshot_exact (h : Host) (order : list (peer_ID * loc)) :
  wf h ->
  range_order (peers h) order ->
  (forall P, P ∈ connected_snapshot order h <->
     exists l info, peers h !! P = Some l /\ deref h l = Some info /\
                    Connected info = true) /\
  NoDup (connected_snapshot order h) /\
  (forall P1 order', range_order (peers (onPeerConnected P1 h)) order' ->
     P1 ∈ connected_snapshot order' (onPeerConnected P1 h)) /\
  (forall P1 order', range_order (peers (onPeerDisconnected P1 h)) order' ->
     P1 ∉ connected_snapshot order' (onPeerDisconnected P1 h)) /\
  (forall l, l ∈ GetPeers order h <-> exists P, peers h !! P = Some l) /\
  (forall P l, peers h !! P = Some l ->
     deref (onPeerConnected P h) l = set_Connected true <$> deref h l /\
     deref (onPeerDisconnected P h) l = set_Connected false <$> deref h l).
Proof.
  intros Hwf Hord.
  split; [intros P; by apply elem_of_connected_snapshot|].
  split.
  { eapply sublist_NoDup; [|apply connected_snapshot_sublist].
    unfold range_order in Hord. rewrite Hord. apply NoDup_fst_map_to_list. }
  split.
  { intros P1 order' Hord'. apply (elem_of_connected_snapshot _ _ _ Hord').
    unfold onPeerConnected, deref.
    destruct (peers h !! P1) as [l|] eqn:E; cbn.
    - destruct (Hwf _ _ E) as (info & El & _).
      exists l, (set_Connected true info). by rewrite E, lookup_alter_eq, El.
    - eexists _, _. by rewrite !lookup_insert_eq. }
  split.
  { intros P1 order' Hord' Hin.
    apply (elem_of_connected_snapshot _ _ _ Hord') in Hin.
    destruct Hin as (l & info & Hp & Hl & Hc). revert Hp Hl.
    unfold onPeerDisconnected, deref.
    destruct (peers h !! P1) as [l1|] eqn:E; cbn; [|congruence].
    rewrite E. intros [= <-]. rewrite lookup_alter_eq.
    destruct (mem h !! l1) as [i1|]; cbn; [|done].
    intros [= <-]. done. }
  split.
  { intros l. rewrite GetPeers_fmap, list_elem_of_fmap. split.
    - intros ([P l'] & -> & Hin). exists P. cbn.
      apply elem_of_map_to_list. by rewrite <- Hord.
    - intros (P & Hp). exists (P, l). split; [done|].
      unfold range_order in Hord. rewrite Hord. by apply elem_of_map_to_list. }
  intros P l Hp. unfold onPeerConnected, onPeerDisconnected, deref.
  rewrite Hp. cbn. by rewrite !lookup_alter_eq.
Qed.

End RegistryFacts.

(** *** Concrete runs *)

Lemma Sample_ids_distinct :
  Sample.P2 <> Sample.P1 /\ Sample.P1 <> Sample.P1' /\ Sample.P3 <> Sample.P1 /\
  Sample.P3 <> Sample.P2.
Proof. repeat split; vm_compute; discriminate. Qed.

Lemma Sample_P1_text :
  Base58.Encode Sample.P1 = "12D3KooWAHoEkEqnKzM5PXFygh2movVBCSX3k8tDsT2cneU68Gyn".
Proof. vm_compute. reflexivity. Qed.

Lemma RegisterAgentName_first_claim_wins_witness :
  let r1 := RegisterAgentName Base58.Encode "alice" Sample.P1 NewHost in
  r1.2 = Returned None /\
  IsNameTaken "alice" r1.1 = (true, Sample.P1) /\
  RegisterAgentName Base58.Encode "alice" Sample.P1 r1.1 = (r1.1, Returned None) /\
  (RegisterAgentName Base58.Encode "alice" Sample.P2 r1.1).1 = r1.1 /\
  (RegisterAgentName Base58.Encode "alice" Sample.P2 r1.1).2 =
    Returned (Some (name_taken_error "alice"
                      (substring 0 12 (Base58.Encode Sample.P1)))).
Proof.
  destruct (RegisterAgentName_first_claim_wins Base58.Encode "alice"
              Sample.P1 Sample.P2 NewHost)
    as (H1 & H2 & H3 & _ & H5 & _ & H7).
  - reflexivity.
  - vm_compute; discriminate.
  - split; [exact H1|]. split; [exact H2|]. split; [exact H3|].
    split; [exact H5|]. apply H7. vm_compute; lia.
Defined.

(** C7, refuted as stated: two registries in which different identities
    hold "alice" answer the same rejected claim with the same error
    value, so the error does not give the caller the owner's identity. *)
Lemma conflict_error_does_not_determine_owner :
  let hA := (RegisterAgentName Base58.Encode "alice" Sample.P1 NewHost).1 in
  let hB := (RegisterAgentName Base58.Encode "alice" Sample.P1' NewHost).1 in
  let eA := (RegisterAgentName Base58.Encode "alice" Sample.P2 hA).2 in
  let eB := (RegisterAgentName Base58.Encode "alice" Sample.P2 hB).2 in
  IsNameTaken "alice" hA = (true, Sample.P1) /\
  IsNameTaken "alice" hB = (true, Sample.P1') /\
  Sample.P1 <> Sample.P1' /\
  eA = Returned (Some "agent name 'alice' is already taken by peer 12D3KooWAHoE") /\
  eB = eA /\
  ~ exists owner_of : outcome (option error) -> peer_ID,
      owner_of eA = Sample.P1 /\ owner_of eB = Sample.P1'.
Proof.
  intros hA hB eA eB.
  assert (HA : IsNameTaken "alice" hA = (true, Sample.P1)) by (vm_compute; reflexivity).
  assert (HB : IsNameTaken "alice" hB = (true, Sample.P1')) by (vm_compute; reflexivity).
  assert (Hne : Sample.P1 <> Sample.P1') by (vm_compute; discriminate).
  assert (HeA : eA = Returned (Some "agent name 'alice' is already taken by peer 12D3KooWAHoE"))
    by (vm_compute; reflexivity).
  assert (HeB : eB = eA) by (vm_compute; reflexivity).
  split; [exact HA|]. split; [exact HB|]. split; [exact Hne|].
  split; [exact HeA|]. split; [exact HeB|].
  intros (f & HfA & HfB). rewrite HeB in HfB. apply Hne.
  rewrite <- HfA. exact HfB.
Qed.

Lemma RegisterAgentName_conflict_message_witness :
  let h := (RegisterAgentName Base58.Encode "alice" Sample.P1 NewHost).1 in
  RegisterAgentName Base58.Encode "alice" Sample.P2 h =
    (h, Returned (Some ("agent name '" +:+ "alice" +:+ "' is already taken by peer "
                          +:+ substring 0 12 (Base58.Encode Sample.P1)))) /\
  IsNameTaken "alice" (RegisterAgentName Base58.Encode "alice" Sample.P2 h).1
    = (true, Sample.P1).
Proof.
  apply (RegisterAgentName_conflict_message Base58.Encode "alice" Sample.P1 Sample.P2).
  - vm_compute; reflexivity.
  - vm_compute; discriminate.
  - vm_compute; lia.
Defined.

Lemma agentNames_claims_persist_witness :
  let h := (RegisterAgentName Base58.Encode "alice" Sample.P1 NewHost).1 in
  let r := RegisterAgentName Base58.Encode "bob" Sample.P1 h in
  r.2 = Returned None /\
  agentNames r.1 !! "alice" = Some Sample.P1 /\
  agentNames r.1 !! "bob" = Some Sample.P1 /\
  forall (ops : list registry_op) (h0 : Host) (m : string) (q : peer_ID),
    agentNames h0 !! m = Some q ->
    agentNames (apply_ops Base58.Encode h0 ops) !! m = Some q.
Proof.
  apply (agentNames_claims_persist Base58.Encode "alice" "bob" Sample.P1).
  - vm_compute; reflexivity.
  - vm_compute; reflexivity.
Defined.

Lemma onPeerConnected_onPeerDisconnected_idempotent_witness :
  let h := onPeerDisconnected Sample.P1 (onPeerConnected Sample.P1 NewHost) in
  let h' := onPeerConnected Sample.P1 h in
  peers h' = peers h /\ agentNames h' = agentNames h /\
  localName h' = localName h /\
  mem h' !! 1%positive =
    Some {| ID := Sample.P1; Name := EmptyString; Addrs := []; Connected := true |} /\
  (forall l', l' <> 1%positive -> mem h' !! l' = mem h !! l') /\
  (forall Q lq, Q <> Sample.P1 -> peers h !! Q = Some lq ->
     peers h' !! Q = Some lq /\ mem h' !! lq = mem h !! lq).
Proof.
  pose (h := onPeerDisconnected Sample.P1 (onPeerConnected Sample.P1 NewHost)).
  apply (proj1 (proj2 (proj2
           (onPeerConnected_onPeerDisconnected_idempotent Sample.P1 h)))
           1%positive {| ID := Sample.P1; Name := EmptyString; Addrs := []; Connected := false |}).
  - apply wf_onPeerDisconnected, wf_onPeerConnected, wf_NewHost.
  - vm_compute; reflexivity.
  - vm_compute; reflexivity.
Defined.

Lemma onPeerDisconnected_keeps_entry_and_claim_witness :
  let h := (RegisterAgentName Base58.Encode "alice" Sample.P1
              (onPeerConnected Sample.P1 NewHost)).1 in
  let h' := onPeerDisconnected Sample.P1 h in
  IsNameTaken "alice" h' = (true, Sample.P1) /\
  RegisterAgentName Base58.Encode "alice" Sample.P2 h' =
    (h', Returned (Some (name_taken_error "alice"
                           (substring 0 12 (Base58.Encode Sample.P1))))).
Proof.
  pose (h := (RegisterAgentName Base58.Encode "alice" Sample.P1
                (onPeerConnected Sample.P1 NewHost)).1).
  assert (Hwf : wf h)
    by apply wf_RegisterAgentName, wf_onPeerConnected, wf_NewHost.
  assert (Hown : agentNames h !! "alice" = Some Sample.P1) by (vm_compute; reflexivity).
  assert (Hne : Sample.P2 <> Sample.P1) by (vm_compute; discriminate).
  destruct (onPeerDisconnected_keeps_entry_and_claim Base58.Encode
              "alice" Sample.P1 Sample.P2 h Hwf Hown Hne)
    as (_ & _ & _ & _ & Htaken & _ & _ & Herr).
  split; [exact Htaken|]. apply Herr. vm_compute; lia.
Defined.

(** C4, refuted as stated for [GetPeers]: after a connect and a disconnect
    of the peer its entry is still returned, with the flag cleared, and the
    pointer obtained while it was connected shows the cleared flag. *)
Lemma GetPeers_returns_disconnected_peer :
  let h1 := onPeerConnected Sample.P1 NewHost in
  let h2 := onPeerDisconnected Sample.P1 h1 in
  let before := GetPeers (map_to_list (peers h1)) h1 in
  let after := GetPeers (map_to_list (peers h2)) h2 in
  before = [1%positive] /\
  Connected <$> deref h1 1%positive = Some true /\
  Connected <$> deref h2 1%positive = Some false /\
  after = [1%positive] /\
  ID <$> deref h2 1%positive = Some Sample.P1 /\
  ~ (forall l info, l ∈ after -> deref h2 l = Some info -> Connected info = true).
Proof.
  repeat split; try (vm_compute; reflexivity).
  intros H.
  specialize (H 1%positive
    {| ID := Sample.P1; Name := EmptyString; Addrs := []; Connected := false |}).
  cbn in H. discriminate H.
  - vm_compute. apply list_elem_of_singleton. reflexivity.
  - vm_compute. reflexivity.
Qed.

Lemma connected_snapshot_exact_witness :
  let h := onPeerConnected Sample.P2 (onPeerConnected Sample.P1 NewHost) in
  NoDup (connected_snapshot (map_to_list (peers h)) h) /\
  (forall P, P ∈ connected_snapshot (map_to_list (peers h)) h <->
     exists l info, peers h !! P = Some l /\ deref h l = Some info /\
                    Connected info = true).
Proof.
  pose (h := onPeerConnected Sample.P2 (onPeerConnected Sample.P1 NewHost)).
  assert (Hwf : wf h) by apply wf_onPeerConnected, wf_onPeerConnected, wf_NewHost.
  assert (Hord : range_order (peers h) (map_to_list (peers h)))
    by (unfold range_order; reflexivity).
  destruct (connected_snapshot_exact h _ Hwf Hord) as (H1 & H2 & _).
  split; [exact H2 | exact H1].
Defined.

(** ** Properties of the codec *)

#[local] Arguments append : simpl nomatch.

Ltac nlia := zify; Z.to_euclidean_division_equations; lia.

(** *** Byte strings *)

Lemma append_assoc (a b c : string) : (a +:+ b) +:+ c = a +:+ (b +:+ c).
Proof. induction a as [|x a IH]; cbn; [done|]. by rewrite IH. Qed.

Lemma append_nil_r (a : string) : a +:+ EmptyString = a.
Proof. induction a as [|x a IH]; cbn; [done|]. by rewrite IH. Qed.

Lemma length_append (a b : string) :
  String.length (a +:+ b) = String.length a + String.length b.
Proof. induction a as [|x a IH]; cbn; [done|]. by rewrite IH. Qed.

Lemma string_drop_append (a b : string) : string_drop (String.length a) (a +:+ b) = b.
Proof. induction a as [|x a IH]; cbn; [by destruct b|done]. Qed.

Lemma string_take_append (a b : string) : string_take (String.length a) (a +:+ b) = a.
Proof.
  induction a as [|x a IH]; cbn; [done|]. by rewrite IH.
Qed.

Lemma string_take_drop (n : nat) (s : string) :
  n <= String.length s -> string_take n s +:+ string_drop n s = s.
Proof.
  revert s. induction n as [|n IH]; intros s Hn.
  - by destruct s.
  - destruct s as [|x s]; cbn in *; [lia|]. rewrite IH; [done|lia].
Qed.

Lemma length_string_take (n : nat) (s : string) :
  n <= String.length s -> String.length (string_take n s) = n.
Proof.
  revert s. induction n as [|n IH]; intros s Hn.
  - by destruct s.
  - destruct s as [|x s]; cbn in *; [lia|]. rewrite IH; [done|lia].
Qed.

Lemma byteN_lt (c : ascii) : (byteN c < 256)%N.
Proof. apply N_ascii_bounded. Qed.

Lemma ascii_of_byteN (c : ascii) (n : N) : n = byteN c -> ascii_of_N n = c.
Proof. intros ->. apply ascii_N_embedding. Qed.

(** *** UTF-8 *)

Lemma in_range_spec lo hi c :
  utf8.in_range lo hi c = true <-> (lo <= byteN c /\ byteN c <= hi)%N.
Proof. unfold utf8.in_range. rewrite andb_true_iff, !N.leb_le. done. Qed.

(** A well-formed sequence: its length, its independence of what follows
    it, and [EncodeRune] giving it back. *)
Lemma DecodeRune_wellformed (s : string) (c : N) (size : nat) :
  utf8.DecodeRune s = (c, size) ->
  s <> EmptyString ->
  utf8.malformed s = false ->
  1 <= size <= String.length s /\
  (forall t, utf8.DecodeRune (string_take size s +:+ t) = (c, size)) /\
  utf8.EncodeRune c = string_take size s.
Proof.
  intros Hdec Hne Hmal. unfold utf8.malformed in Hmal. rewrite Hdec in Hmal.
  destruct s as [|b0 r]; [done|]. clear Hne.
  unfold utf8.DecodeRune in Hdec. cbn zeta in Hdec.
  pose proof (byteN_lt b0) as Hb0.
  destruct (N.ltb_spec (byteN b0) 0x80) as [H80|H80].
  { injection Hdec as <- <-. split; [cbn; lia|]. split.
    - intros t. cbn. destruct (N.ltb_spec (byteN b0) 128); [done|lia].
    - unfold utf8.EncodeRune. destruct (N.leb_spec (byteN b0) 127); [|lia].
      cbn. by rewrite ascii_N_embedding. }
  destruct (N.ltb_spec (byteN b0) 0xC2) as [HC2|HC2].
  { injection Hdec as <- <-. vm_compute in Hmal. discriminate. }
  destruct (N.ltb_spec (byteN b0) 0xE0) as [HE0|HE0].
  { destruct r as [|b1 r]; [injection Hdec as <- <-; vm_compute in Hmal; discriminate|].
    destruct (utf8.cont b1) eqn:Hc1; [|injection Hdec as <- <-; vm_compute in Hmal; discriminate].
    injection Hdec as <- <-.
    apply in_range_spec in Hc1. pose proof (byteN_lt b1).
    split; [cbn; lia|]. split.
    - intros t. cbn.
      destruct (N.ltb_spec (byteN b0) 128); [lia|].
      destruct (N.ltb_spec (byteN b0) 194); [lia|].
      destruct (N.ltb_spec (byteN b0) 224); [|lia].
      unfold utf8.cont. by rewrite (proj2 (in_range_spec _ _ _) Hc1).
    - unfold utf8.EncodeRune.
      destruct (N.leb_spec (byteN b0 `mod` 32 * 64 + byteN b1 `mod` 64) 127); [nlia|].
      destruct (N.leb_spec (byteN b0 `mod` 32 * 64 + byteN b1 `mod` 64) 2047); [|nlia].
      cbn [string_take]. f_equal; [|f_equal]; apply ascii_of_byteN; nlia. }
  destruct (N.ltb_spec (byteN b0) 0xF0) as [HF0|HF0].
  { destruct r as [|b1 [|b2 r]]; try (injection Hdec as <- <-; vm_compute in Hmal; discriminate).
    match type of Hdec with (if ?b then _ else _) = _ => destruct b eqn:Hc end;
      [|injection Hdec as <- <-; vm_compute in Hmal; discriminate].
    injection Hdec as <- <-.
    apply andb_true_iff in Hc as [Hc1 Hc2].
    apply in_range_spec in Hc1, Hc2.
    pose proof (byteN_lt b1). pose proof (byteN_lt b2).
    split; [cbn; lia|]. split.
    - intros t. cbn.
      destruct (N.ltb_spec (byteN b0) 128); [lia|].
      destruct (N.ltb_spec (byteN b0) 194); [lia|].
      destruct (N.ltb_spec (byteN b0) 224); [lia|].
      destruct (N.ltb_spec (byteN b0) 240); [|lia].
      rewrite (proj2 (in_range_spec _ _ _) Hc1).
      unfold utf8.cont. by rewrite (proj2 (in_range_spec _ _ _) Hc2).
    - unfold utf8.EncodeRune, utf8.MaxRune.
      set (v := (byteN b0 `mod` 16 * 4096 + byteN b1 `mod` 64 * 64 + byteN b2 `mod` 64)%N).
      assert (Hv : (0x800 <= v <= 0xFFFF /\ ~ (0xD800 <= v <= 0xDFFF))%N).
      { subst v. destruct (N.eqb_spec (byteN b0) 224), (N.eqb_spec (byteN b0) 237); nlia. }
      assert (Hb1 : (128 <= byteN b1 <= 191)%N)
        by (destruct (N.eqb_spec (byteN b0) 224), (N.eqb_spec (byteN b0) 237); lia).
      clear Hc1 Hmal.
      destruct (N.leb_spec v 127); [lia|].
      destruct (N.leb_spec v 2047); [lia|].
      destruct (N.ltb_spec 1114111 v); [lia|].
      destruct (N.leb_spec 55296 v), (N.leb_spec v 57343); try lia; cbn [orb andb];
      (destruct (N.leb_spec v 65535); [|lia]);
      unfold utf8.bytes3; cbn [string_take]; (f_equal; [|f_equal; [|f_equal]]);
        apply ascii_of_byteN; subst v; nlia. }
  destruct (N.ltb_spec (byteN b0) 0xF5) as [HF5|HF5].
  { destruct r as [|b1 [|b2 [|b3 r]]]; try (injection Hdec as <- <-; vm_compute in Hmal; discriminate).
    match type of Hdec with (if ?b then _ else _) = _ => destruct b eqn:Hc end;
      [|injection Hdec as <- <-; vm_compute in Hmal; discriminate].
    injection Hdec as <- <-.
    apply andb_true_iff in Hc as [Hc Hc3]. apply andb_true_iff in Hc as [Hc1 Hc2].
    apply in_range_spec in Hc1, Hc2, Hc3.
    pose proof (byteN_lt b1). pose proof (byteN_lt b2). pose proof (byteN_lt b3).
    split; [cbn; lia|]. split.
    - intros t. cbn.
      destruct (N.ltb_spec (byteN b0) 128); [lia|].
      destruct (N.ltb_spec (byteN b0) 194); [lia|].
      destruct (N.ltb_spec (byteN b0) 224); [lia|].
      destruct (N.ltb_spec (byteN b0) 240); [lia|].
      destruct (N.ltb_spec (byteN b0) 245); [|lia].
      rewrite (proj2 (in_range_spec _ _ _) Hc1).
      unfold utf8.cont.
      by rewrite (proj2 (in_range_spec _ _ _) Hc2), (proj2 (in_range_spec _ _ _) Hc3).
    - unfold utf8.EncodeRune, utf8.MaxRune.
      set (v := (byteN b0 `mod` 8 * 262144 + byteN b1 `mod` 64 * 4096
                 + byteN b2 `mod` 64 * 64 + byteN b3 `mod` 64)%N).
      assert (Hv : (0x10000 <= v <= 0x10FFFF)%N).
      { subst v. destruct (N.eqb_spec (byteN b0) 240), (N.eqb_spec (byteN b0) 244); nlia. }
      assert (Hb1 : (128 <= byteN b1 <= 191)%N)
        by (destruct (N.eqb_spec (byteN b0) 240), (N.eqb_spec (byteN b0) 244); lia).
      clear Hc1 Hmal.
      destruct (N.leb_spec v 127); [lia|].
      destruct (N.leb_spec v 2047); [lia|].
      destruct (N.ltb_spec 1114111 v); [lia|].
      destruct (N.leb_spec 55296 v), (N.leb_spec v 57343); try lia; cbn [orb andb];
      (destruct (N.leb_spec v 65535); [lia|]);
      unfold utf8.bytes3; cbn [string_take]; (f_equal; [|f_equal; [|f_equal; [|f_equal]]]);
        apply ascii_of_byteN; subst v; nlia. }
  injection Hdec as <- <-. vm_compute in Hmal. discriminate.
Qed.

(** *** String literals *)

Lemma eqb_byteN (a b : ascii) : byteN a <> byteN b -> Ascii.eqb a b = false.
Proof. intros H. apply Ascii.eqb_neq. congruence. Qed.

Lemma byteN_inj (a : ascii) (n : N) : byteN a = n -> a = ascii_of_N n.
Proof. intros <-. symmetry. apply ascii_N_embedding. Qed.

Lemma hex_value_hex_digit (n : N) :
  (n < 16)%N -> json.hex_value (json.hex_digit n) = Some n.
Proof.
  intros H.
  assert (Hn : In n (List.map N.of_nat (seq 0 16))).
  { apply in_map_iff. exists (N.to_nat n). split; [lia|]. apply in_seq. lia. }
  cbn in Hn. repeat (destruct Hn as [<-|Hn]; [reflexivity|]). destruct Hn.
Qed.

Lemma hex4_u00 (b : ascii) (X : string) :
  json.hex4 ("00" +:+ String (json.hex_digit (byteN b / 16))
               (String (json.hex_digit (byteN b mod 16)) X)) = Some (byteN b, X).
Proof.
  pose proof (byteN_lt b). unfold json.hex4.
  change ("00" +:+ ?x) with (String "0" (String "0" x)). cbv iota.
  change (json.hex_value "0") with (Some 0%N).
  rewrite !hex_value_hex_digit by nlia. f_equal. f_equal. nlia.
Qed.

Lemma prepend_Some p out rest :
  json.prepend p (Some (out, rest)) = Some (p +:+ out, rest).
Proof. done. Qed.

(** One escaped ASCII byte is read back as that byte. *)
Lemma unquote_escape_byte (b : ascii) (f : nat) (X : string) :
  (byteN b < 0x80)%N ->
  json.htmlSafeSet b = false ->
  json.unquote_loop (S f) (json.escape_byte b +:+ X)
  = json.prepend (String b EmptyString) (json.unquote_loop f X).
Proof.
  intros Hb Hsafe. unfold json.escape_byte.
  destruct (Ascii.eqb b backslash) eqn:E1.
  { apply Ascii.eqb_eq in E1. subst b. reflexivity. }
  destruct (Ascii.eqb b dquote) eqn:E2.
  { apply Ascii.eqb_eq in E2. subst b. reflexivity. }
  cbn [orb].
  destruct (N.eqb_spec (byteN b) 8) as [E|_];
    [apply byteN_inj in E; subst b; reflexivity|].
  destruct (N.eqb_spec (byteN b) 12) as [E|_];
    [apply byteN_inj in E; subst b; reflexivity|].
  destruct (N.eqb_spec (byteN b) 10) as [E|_];
    [apply byteN_inj in E; subst b; reflexivity|].
  destruct (N.eqb_spec (byteN b) 13) as [E|_];
    [apply byteN_inj in E; subst b; reflexivity|].
  destruct (N.eqb_spec (byteN b) 9) as [E|_];
    [apply byteN_inj in E; subst b; reflexivity|].
  unfold json.u00. cbn [append json.unquote_loop].
  change (Ascii.eqb backslash dquote) with false.
  change (Ascii.eqb backslash backslash) with true.
  cbn [append].
  change (json.simple_escape "u") with (@None ascii).
  change (Ascii.eqb "u" "u") with true. cbv iota.
  change (String "0" (String "0" ?x)) with ("00" +:+ x).
  rewrite hex4_u00.
  unfold utf16.IsSurrogate.
  destruct (N.leb_spec 55296 (byteN b)); [lia|]. cbn [andb].
  unfold utf8.EncodeRune. destruct (N.leb_spec (byteN b) 127); [|lia].
  by rewrite ascii_N_embedding.
Qed.

Lemma length_escape_byte b : 1 <= String.length (json.escape_byte b).
Proof.
  unfold json.escape_byte, json.u00.
  repeat match goal with |- context [if ?c then _ else _] => destruct c end; cbn; lia.
Qed.

Lemma unquote_u202 (c : N) (f : nat) (X : string) :
  c = 0x2028%N \/ c = 0x2029%N ->
  json.unquote_loop (S f) (json.u202 c +:+ X)
  = json.prepend (utf8.EncodeRune c) (json.unquote_loop f X).
Proof. intros [-> | ->]; reflexivity. Qed.

Lemma unquote_appendString_loop (f1 : nat) :
  forall (s : string), utf8.ValidString_loop f1 s = true ->
  forall (f2 : nat) (rest : string),
    String.length (json.appendString_loop f1 s) < f2 ->
    json.unquote_loop f2 (json.appendString_loop f1 s +:+ String dquote rest)
    = Some (s, rest).
Proof.
  induction f1 as [|f1 IH]; intros s Hvalid f2 rest Hlen.
  { destruct s; [|done]. destruct f2; [cbn in Hlen; lia|]. reflexivity. }
  destruct s as [|b r].
  { destruct f2; [cbn in Hlen; lia|]. reflexivity. }
  cbn [utf8.ValidString_loop] in Hvalid.
  destruct (utf8.malformed (String b r)) eqn:Hmal; [done|].
  destruct (utf8.DecodeRune (String b r)) as [c size] eqn:Hdec.
  cbn [snd] in Hvalid.
  destruct (DecodeRune_wellformed _ _ _ Hdec ltac:(done) Hmal)
    as (Hsize & Hstable & Henc).
  revert Hlen. cbn [json.appendString_loop].
  destruct (N.ltb_spec (byteN b) utf8.RuneSelf) as [Hb|Hb].
  - (* ASCII *)
    assert (size = 1) as ->.
    { unfold utf8.DecodeRune in Hdec. unfold utf8.RuneSelf in Hb.
      destruct (N.ltb_spec (byteN b) 128); [congruence|lia]. }
    cbn [string_drop] in Hvalid.
    destruct (json.htmlSafeSet b) eqn:Hsafe.
    + intros Hlen. cbn [append String.length] in *.
      destruct f2 as [|f2]; [lia|]. cbn [json.unquote_loop].
      unfold json.htmlSafeSet in Hsafe.
      apply andb_true_iff in Hsafe as [Hsafe _].
      apply andb_true_iff in Hsafe as [Hsafe Hbs].
      apply andb_true_iff in Hsafe as [H20 Hdq].
      apply negb_true_iff in Hbs, Hdq. rewrite Hbs, Hdq.
      apply N.leb_le in H20.
      destruct (N.ltb_spec (byteN b) 32); [lia|].
      destruct (N.ltb_spec (byteN b) utf8.RuneSelf); [|lia].
      rewrite IH; [done|done|lia].
    + intros Hlen. rewrite length_append in Hlen.
      pose proof (length_escape_byte b).
      destruct f2 as [|f2]; [lia|].
      rewrite append_assoc, unquote_escape_byte by done.
      rewrite IH; [done|done|lia].
  - (* a multi-byte sequence *)
    unfold utf8.malformed in Hmal. rewrite Hdec in Hmal. rewrite Hdec, Hmal.
    assert (Hbq : Ascii.eqb b dquote = false)
      by (apply eqb_byteN; unfold utf8.RuneSelf in Hb; change (byteN dquote) with 34%N; lia).
    assert (Hbb : Ascii.eqb b backslash = false)
      by (apply eqb_byteN; unfold utf8.RuneSelf in Hb; change (byteN backslash) with 92%N; lia).
    destruct ((c =? 8232)%N || (c =? 8233)%N) eqn:Hsep.
    + intros Hlen. rewrite length_append in Hlen.
      assert (Hc : c = 0x2028%N \/ c = 0x2029%N).
      { apply orb_true_iff in Hsep as [H|H]; apply N.eqb_eq in H; auto. }
      destruct f2 as [|f2]; [lia|].
      rewrite append_assoc, unquote_u202 by done.
      rewrite IH; [|done|].
      * rewrite prepend_Some, Henc, string_take_drop by lia. done.
      * destruct Hc as [-> | ->]; cbn in Hlen; lia.
    + intros Hlen. rewrite length_append, length_string_take in Hlen by lia.
      destruct f2 as [|f2]; [lia|].
      rewrite append_assoc.
      assert (Hhead : exists t, string_take size (String b r) = String b t).
      { destruct size as [|k]; [lia|]. cbn. eauto. }
      destruct Hhead as [t Ht].
      pose proof (Hstable (json.appendString_loop f1 (string_drop size (String b r))
                           +:+ String dquote rest)) as Hst.
      pose proof (string_drop_append (string_take size (String b r))
                    (json.appendString_loop f1 (string_drop size (String b r))
                           +:+ String dquote rest)) as Hdrop.
      rewrite length_string_take in Hdrop by lia.
      revert Hst Hdrop. rewrite Ht. cbn [append]. intros Hst Hdrop.
      cbn [json.unquote_loop]. rewrite Hbq, Hbb.
      unfold utf8.RuneSelf in *.
      destruct (N.ltb_spec (byteN b) 32); [lia|].
      destruct (N.ltb_spec (byteN b) 128); [lia|].
      rewrite Hst, Hdrop, IH; [|done|lia].
      rewrite prepend_Some, Henc, string_take_drop by lia. done.
Qed.

(** *** The scanner *)

Lemma line_separator_app (s T0 : string) :
  json.line_separator (s +:+ String "}" T0) = json.line_separator s.
Proof.
  destruct s as [|c0 [|c1 [|c2 s]]]; cbn [append json.line_separator].
  - destruct T0 as [|? [|? ?]]; reflexivity.
  - destruct T0; [done|]. change (byteN "}") with 125%N.
    destruct (byteN c0 =? 226)%N; done.
  - change (byteN "}") with 125%N.
    destruct (byteN c0 =? 226)%N, (byteN c1 =? 128)%N; done.
  - done.
Qed.

Lemma prepend_inv p r out rest :
  json.prepend p r = Some (out, rest) ->
  exists out', r = Some (out', rest) /\ out = p +:+ out'.
Proof.
  destruct r as [[o r']|]; cbn; [|done]. intros [= <- <-]. eauto.
Qed.

(** Reading a value is not disturbed by a closing brace put after the
    input. *)
Lemma scan_app (T0 : string) (d : N) (s : string) :
  forall (k : nat) (st : json.scan_state) (stack : list json.parse_state)
         (out rest : string),
    json.scan d k st stack s = Some (out, rest) ->
    json.scan d k st stack (s +:+ String "}" T0) = Some (out, rest +:+ String "}" T0).
Proof.
  induction s as [|c r IH]; intros k st stack out rest H.
  - cbn in H. destruct (json.number_complete st) eqn:Hn; [|done].
    destruct stack; [|done]. injection H as <- <-.
    destruct st; try done; destruct k; try reflexivity;
      destruct T0 as [|? [|? ?]]; reflexivity.
  - cbn [append]. revert H. cbn [json.scan].
    rewrite <- (line_separator_app (String c r) T0). cbn [append].
    destruct (match k with
              | 0 => if json.is_html c then (json.u00 c, 0)
                     else match json.line_separator (String c (r +:+ String "}" T0)) with
                          | Some x => (json.u202 x, 2)
                          | None => (String c EmptyString, 0)
                          end
              | S k' => (EmptyString, k')
              end) as [text k'].
    destruct (json.step d st stack c) as [st' stack' keep| | |]; try done.
    + intros H. apply prepend_inv in H as (out' & H & ->).
      by rewrite (IH _ _ _ _ _ H).
    + by intros [= <- <-].
    + by intros [= <- <-].
Qed.

Lemma pushParseState_depth (d d' : N) stack ps st :
  (d <= d')%N ->
  json.pushParseState d' stack ps st <> json.stepError ->
  json.pushParseState d stack ps st = json.pushParseState d' stack ps st.
Proof.
  unfold json.pushParseState. intros Hd.
  destruct (N.leb_spec (d' + N.of_nat (length stack) + 1) json.maxNestingDepth); [|done].
  intros _. destruct (N.leb_spec (d + N.of_nat (length stack) + 1) json.maxNestingDepth);
    [done|lia].
Qed.

Lemma step_depth (d d' : N) st stack c :
  (d <= d')%N ->
  json.step d' st stack c <> json.stepError ->
  json.step d st stack c = json.step d' st stack c.
Proof.
  intros Hd.
  assert (Hbv : json.step_stateBeginValue d' stack c <> json.stepError ->
                json.step_stateBeginValue d stack c = json.step_stateBeginValue d' stack c).
  { unfold json.step_stateBeginValue.
    repeat match goal with
           | |- context [if ?b then _ else _] => destruct b; try done
           end; by apply pushParseState_depth. }
  destruct st; cbn [json.step]; try done.
  destruct (json.isSpace c); [done|]. destruct (Ascii.eqb c "]"); done.
Qed.

(** A value that fits with more containers open around it fits with
    fewer. *)
Lemma scan_depth (d d' : N) (s : string) :
  (d <= d')%N ->
  forall k st stack x,
    json.scan d' k st stack s = Some x -> json.scan d k st stack s = Some x.
Proof.
  intros Hd. induction s as [|c r IH]; intros k st stack x; [done|].
  cbn [json.scan].
  destruct (match k with
            | 0 => if json.is_html c then (json.u00 c, 0)
                   else match json.line_separator (String c r) with
                        | Some x => (json.u202 x, 2)
                        | None => (String c EmptyString, 0)
                        end
            | S k' => (EmptyString, k')
            end) as [text k'].
  destruct (json.step d' st stack c) as [st' stack' keep| | |] eqn:Hstep; try done;
    rewrite (step_depth d d') by (done || congruence); rewrite Hstep; try done.
  intros H. destruct x as [out rest].
  apply prepend_inv in H as (out' & H & ->).
  by rewrite (IH _ _ _ _ H).
Qed.

Lemma is_html_not_space c : json.is_html c = true -> json.isSpace c = false.
Proof.
  unfold json.is_html. intros H.
  repeat (apply orb_true_iff in H as [H|H]); apply Ascii.eqb_eq in H; by subst c.
Qed.

(** The compacted text of a value does not start with white space. *)
Lemma scan_value_head (d : N) (s : string) :
  forall out rest, json.scan d 0 json.stateBeginValue [] s = Some (out, rest) ->
  match out with
  | String c _ => json.isSpace c = false
  | EmptyString => True
  end.
Proof.
  induction s as [|c r IH]; intros out rest; [done|].
  cbn [json.scan json.step]. unfold json.step_stateBeginValue.
  destruct (json.isSpace c) eqn:Hsp.
  - destruct (if json.is_html c then _ else _) as [text k'] eqn:Ht.
    assert (k' = 0) as ->.
    { destruct (json.is_html c) eqn:Hh; [by rewrite (is_html_not_space _ Hh) in Hsp|].
      destruct (json.line_separator (String c r)) eqn:Hl; [|by injection Ht as <- <-].
      exfalso. unfold json.line_separator in Hl. destruct r as [|c1 [|c2 r]]; try done.
      destruct (N.eqb_spec (byteN c) 226) as [E|_]; [|done].
      apply byteN_inj in E. by subst c. }
    intros H. apply prepend_inv in H as (out' & H & ->). cbn [append].
    by apply (IH _ _ H).
  - destruct (json.is_html c) eqn:Hh.
    { unfold json.is_html in Hh.
      repeat (apply orb_true_iff in Hh as [Hh|Hh]); apply Ascii.eqb_eq in Hh; by subst c. }
    destruct (json.line_separator (String c r)) eqn:Hl.
    { unfold json.line_separator in Hl. destruct r as [|c1 [|c2 r]]; try done.
      destruct (N.eqb_spec (byteN c) 226) as [E|_]; [|done].
      apply byteN_inj in E. by subst c. }
    repeat match goal with
           | |- context [if ?b then _ else _] => destruct b eqn:?; try done
           end;
      unfold json.pushParseState;
      repeat match goal with
           | |- context [if ?b then _ else _] => destruct b eqn:?; try done
           end;
      intros H; apply prepend_inv in H as (out' & H & ->); done.
Qed.

(** *** The envelope *)

Lemma skip_ws_nonspace (c : ascii) (r : string) :
  json.isSpace c = false -> json.skip_ws (String c r) = String c r.
Proof. intros H. cbn. by rewrite H. Qed.

Lemma unquote_appendString (s rest : string) (fuel : nat) :
  utf8.ValidString s = true ->
  String.length (json.appendString_loop (String.length s) s) < fuel ->
  json.unquote_loop fuel (json.appendString_loop (String.length s) s +:+ String dquote rest)
  = Some (s, rest).
Proof. intros Hv Hl. by apply unquote_appendString_loop. Qed.

Lemma unquote_key (key rest : string) (fuel : nat) :
  plain_key key ->
  String.length key < fuel ->
  json.unquote_loop fuel (key +:+ String dquote rest) = Some (key, rest).
Proof.
  intros [Hv Hk] Hl. rewrite <- Hk at 1.
  apply unquote_appendString; [done|]. by rewrite Hk.
Qed.

Lemma span_append (p X : string) : json.span (p +:+ X) X = p.
Proof.
  unfold json.span. rewrite length_append.
  replace (String.length p + String.length X - String.length X) with (String.length p) by lia.
  apply string_take_append.
Qed.

(** One member with a string value, followed by a comma. *)
Lemma object_loop_string (key : string) (f : json.field) (v Y : string)
    (fuel : nat) (m : Message) :
  plain_key key ->
  json.find_field key = Some f ->
  f <> json.fPayload ->
  utf8.ValidString v = true ->
  json.skip_ws Y = Y ->
  String.length (json.quoted key +:+ ":" +:+ json.appendString v +:+ "," +:+ Y) <= S fuel ->
  json.object_loop (S fuel) (json.quoted key +:+ ":" +:+ json.appendString v +:+ "," +:+ Y) m
  = json.object_loop fuel Y (json.set_string f v m).
Proof.
  intros Hkey Hf Hnp Hv HY Hlen.
  unfold json.quoted, json.appendString in *.
  cbn [append] in *. rewrite !append_assoc in *. cbn [append] in *.
  cbn [String.length] in Hlen.
  rewrite !length_append in Hlen. cbn [String.length] in Hlen.
  rewrite ?length_append in Hlen. cbn [String.length] in Hlen.
  cbn [json.object_loop].
  change (Ascii.eqb dquote dquote) with true. cbv iota.
  rewrite unquote_key by (done || lia).
  rewrite skip_ws_nonspace by done.
  change (Ascii.eqb ":" ":") with true. cbv iota.
  rewrite skip_ws_nonspace by done.
  rewrite Hf.
  assert (Hstore :
    json.store_member (S fuel) (Some f)
      (String dquote
         (json.appendString_loop (String.length v) v +:+ String dquote (String "," Y))) m
    = Some (json.set_string f v m, String "," Y)).
  { destruct f; try done; cbn [json.store_member];
      change (Ascii.eqb dquote dquote) with true; cbv iota;
      rewrite unquote_appendString by (done || lia); done. }
  rewrite Hstore.
  rewrite skip_ws_nonspace by done.
  change (Ascii.eqb "," ",") with true. cbv iota.
  by rewrite HY.
Qed.

(** The last member, [payload], followed by the closing brace. *)
Lemma object_loop_payload (p rest : string) (fuel : nat) (m : Message) :
  json.scan_value 1 p = Some (p, EmptyString) ->
  String.length (json.quoted "payload" +:+ ":" +:+ p +:+ String "}" rest) <= S fuel ->
  json.object_loop (S fuel) (json.quoted "payload" +:+ ":" +:+ p +:+ String "}" rest) m
  = Some (json.set_string json.fPayload p m, rest).
Proof.
  intros Hp Hlen.
  unfold json.quoted in *. cbn [append] in *.
  cbn [String.length] in Hlen.
  cbn [json.object_loop].
  change (Ascii.eqb dquote dquote) with true. cbv iota.
  change (String "p" (String "a" (String "y" (String "l" (String "o" (String "a"
            (String "d" (String dquote ?X))))))))
    with ("payload" +:+ String dquote X).
  rewrite unquote_key; [| by split | cbn; lia].
  rewrite skip_ws_nonspace by done.
  change (Ascii.eqb ":" ":") with true. cbv iota.
  change (json.find_field "payload") with (Some json.fPayload).
  pose proof (scan_value_head _ _ _ _ Hp) as Hhead.
  destruct p as [|c p']; [done|].
  cbn [append]. rewrite skip_ws_nonspace by done.
  cbn [json.store_member].
  change (String c (p' +:+ String "}" rest)) with (String c p' +:+ String "}" rest).
  unfold json.scan_value in *. rewrite (scan_app _ _ _ _ _ _ _ _ Hp).
  rewrite span_append. cbn [append].
  rewrite skip_ws_nonspace by done.
  change (Ascii.eqb "}" ",") with false.
  change (Ascii.eqb "}" "}") with true. done.
Qed.

Lemma plain_key_fields :
  plain_key "type" /\ plain_key "from" /\ plain_key "to" /\ plain_key "request_id".
Proof. repeat split; reflexivity. Qed.

Lemma object_loop_members (m : Message) (p : string) (fuel : nat) (m0 : Message) :
  utf8.ValidString (Type_ m) = true ->
  utf8.ValidString (From m) = true ->
  utf8.ValidString (To m) = true ->
  utf8.ValidString (RequestID m) = true ->
  To m0 = EmptyString -> RequestID m0 = EmptyString ->
  json.scan_value 1 p = Some (p, EmptyString) ->
  String.length (members m p) <= fuel ->
  json.object_loop fuel (members m p) m0
  = Some ({| Type_ := Type_ m; From := From m; To := To m;
             RequestID := RequestID m; Payload := Some p |}, EmptyString).
Proof.
  intros HvT HvF HvTo HvR HTo0 HR0 Hp Hlen.
  destruct plain_key_fields as (Kt & Kf & Kto & Kr).
  unfold members in *.
  assert (Hq : forall k Z, json.skip_ws (json.quoted k +:+ Z) = json.quoted k +:+ Z)
    by (intros; reflexivity).
  assert (Hq' : forall k Z, 1 <= String.length (json.quoted k +:+ Z))
    by (intros; cbn; lia).
  (* type *)
  destruct fuel as [|fuel]; [specialize (Hq' "type"); cbn in Hlen; lia|].
  rewrite (object_loop_string "type" json.fType) by done.
  assert (Hlen1 : String.length
            (json.quoted "from" +:+ ":" +:+ json.appendString (From m)
             +:+ json.omitempty "to" (To m) +:+ json.omitempty "request_id" (RequestID m)
             +:+ "," +:+ json.quoted "payload" +:+ ":" +:+ p +:+ "}") <= fuel).
  { revert Hlen. rewrite !length_append. cbn [String.length]. lia. }
  clear Hlen.
  (* from *)
  destruct fuel as [|fuel]; [cbn in Hlen1; lia|].
  assert (Hto : exists Z, json.omitempty "to" (To m)
             +:+ json.omitempty "request_id" (RequestID m)
             +:+ "," +:+ json.quoted "payload" +:+ ":" +:+ p +:+ "}" = "," +:+ Z
             /\ json.skip_ws Z = Z /\
             forall fuel' m1, String.length Z <= fuel' ->
               Type_ m1 = Type_ m -> From m1 = From m ->
               To m1 = EmptyString -> RequestID m1 = EmptyString ->
               json.object_loop fuel' Z m1
               = Some ({| Type_ := Type_ m; From := From m; To := To m;
                          RequestID := RequestID m; Payload := Some p |}, EmptyString)).
  { assert (Hrid : exists Z, json.omitempty "request_id" (RequestID m)
               +:+ "," +:+ json.quoted "payload" +:+ ":" +:+ p +:+ "}" = "," +:+ Z
               /\ json.skip_ws Z = Z /\
               forall fuel' m1, String.length Z <= fuel' ->
                 Type_ m1 = Type_ m -> From m1 = From m ->
                 To m1 = To m -> RequestID m1 = EmptyString ->
                 json.object_loop fuel' Z m1
                 = Some ({| Type_ := Type_ m; From := From m; To := To m;
                            RequestID := RequestID m; Payload := Some p |}, EmptyString)).
    { assert (Hpay : forall fuel' m1,
                String.length (json.quoted "payload" +:+ ":" +:+ p +:+ "}") <= fuel' ->
                Type_ m1 = Type_ m -> From m1 = From m ->
                To m1 = To m -> RequestID m1 = RequestID m ->
                json.object_loop fuel' (json.quoted "payload" +:+ ":" +:+ p +:+ "}") m1
                = Some ({| Type_ := Type_ m; From := From m; To := To m;
                           RequestID := RequestID m; Payload := Some p |}, EmptyString)).
      { intros fuel' m1 Hl E1 E2 E3 E4.
        destruct fuel' as [|fuel']; [cbn in Hl; lia|].
        change "}" with (String "}" EmptyString).
        rewrite object_loop_payload by done.
        destruct m1; cbn in *; by subst. }
      destruct (RequestID m) as [|r0 rid] eqn:Er.
      - eexists. split; [reflexivity|]. split; [reflexivity|].
        intros fuel' m1 Hl E1 E2 E3 E4. by apply Hpay.
      - eexists. split; [unfold json.omitempty; rewrite !append_assoc; reflexivity|].
        split; [reflexivity|].
        intros fuel' m1 Hl E1 E2 E3 E4.
        destruct fuel' as [|fuel']; [cbn in Hl; lia|].
        rewrite (object_loop_string "request_id" json.fRequestID) by done.
        apply Hpay.
        + revert Hl. rewrite !length_append. cbn [String.length]. lia.
        + by destruct m1.
        + by destruct m1.
        + by destruct m1.
        + by destruct m1. }
    destruct Hrid as (Z & HZ & HZws & HZloop).
    destruct (To m) as [|t0 to] eqn:Et.
    - exists Z. split; [exact HZ|]. split; [done|].
      intros fuel' m1 Hl E1 E2 E3 E4. by apply HZloop.
    - eexists. split; [unfold json.omitempty at 1; rewrite !append_assoc; reflexivity|].
      split; [reflexivity|].
      intros fuel' m1 Hl E1 E2 E3 E4.
      destruct fuel' as [|fuel']; [cbn in Hl; lia|].
      rewrite HZ.
      assert (Hskip : json.skip_ws Z = Z) by done.
      rewrite (object_loop_string "to" json.fTo (String t0 to) Z) by (done || by rewrite <- HZ).
      apply HZloop.
      + revert Hl. rewrite HZ, !length_append. cbn [String.length]. lia.
      + by destruct m1.
      + by destruct m1.
      + by destruct m1.
      + by destruct m1. }
  destruct Hto as (Z & HZ & HZws & HZloop).
  rewrite HZ in Hlen1 |- *.
  rewrite (object_loop_string "from" json.fFrom) by done.
  apply HZloop.
  - revert Hlen1. rewrite !length_append. cbn [String.length]. lia.
  - by destruct m0.
  - by destruct m0.
  - by destruct m0.
  - by destruct m0.
Qed.

Lemma Marshal_compact_payload (m : Message) (p : string) :
  Payload m = Some p -> compact_payload p ->
  json.Marshal m = Some ("{" +:+ members m p).
Proof.
  intros HP Hp. unfold json.Marshal, json.marshal_RawMessage, json.compact. rewrite HP.
  unfold json.scan_value, compact_payload in *.
  by rewrite (scan_depth 0 1 _ ltac:(lia) _ _ _ _ Hp).
Qed.

Lemma Unmarshal_members (m : Message) (p : string) :
  valid_strings m -> Payload m = Some p -> compact_payload p ->
  json.Unmarshal ("{" +:+ members m p) = Some m.
Proof.
  intros (HvT & HvF & HvTo & HvR) HP Hp.
  unfold json.Unmarshal.
  change ("{" +:+ members m p) with (String "{" (members m p)).
  rewrite skip_ws_nonspace by done.
  change (Ascii.eqb "{" "{") with true. cbv iota.
  assert (Hm : exists X, members m p = String dquote X) by (eexists; reflexivity).
  destruct Hm as [X HX].
  rewrite HX, skip_ws_nonspace by done.
  change (Ascii.eqb dquote "}") with false. cbv iota.
  rewrite <- HX.
  rewrite (object_loop_members m p) by (done || cbn [String.length]; lia).
  cbn. destruct m; cbn in *; by subst.
Qed.

(** ** Properties of the exchange *)

Lemma defined_types_valid (t : string) :
  In t defined_types -> utf8.ValidString t = true.
Proof.
  intros H. cbn in H.
  repeat (destruct H as [<-|H]; [reflexivity|]). destruct H.
Qed.

Lemma compact_payload_null : compact_payload "null".
Proof. reflexivity. Qed.

Lemma Marshal_nil_payload (m : Message) :
  Payload m = None ->
  json.Marshal m = json.Marshal (with_Payload m (Some "null")).
Proof. intros H. unfold json.Marshal. rewrite H. reflexivity. Qed.

Lemma Unmarshal_Marshal (m : Message) (p : string) :
  valid_strings m -> Payload m = Some p -> compact_payload p ->
  exists data, json.Marshal m = Some data /\ json.Unmarshal data = Some m.
Proof.
  intros Hv HP Hp. exists ("{" +:+ members m p). split.
  - by apply Marshal_compact_payload.
  - by apply Unmarshal_members.
Qed.

(** C2 (as the code has it). A message of one of the seven types whose
    string fields are well-formed UTF-8 and whose payload is a compact JSON
    value is read back from its encoding unchanged.  A message with a nil
    payload is written with [null] in the payload member and read back with
    the four bytes [null] as payload. *)
Theorem Unmarshal_Marshal_defined_types (m : Message) :
  In (Type_ m) defined_types ->
  utf8.ValidString (From m) = true ->
  utf8.ValidString (To m) = true ->
  utf8.ValidString (RequestID m) = true ->
  (forall p, Payload m = Some p -> compact_payload p ->
     exists data, json.Marshal m = Some data /\ json.Unmarshal data = Some m) /\
  (Payload m = None ->
     exists data, json.Marshal m = Some data /\
                  json.Unmarshal data = Some (with_Payload m (Some "null"))).
Proof.
  intros Ht Hf Hto Hr.
  assert (Hv : valid_strings m) by (repeat split; auto using defined_types_valid).
  split.
  - intros p HP Hp. by apply (Unmarshal_Marshal m p).
  - intros HP. rewrite (Marshal_nil_payload m HP).
    apply (Unmarshal_Marshal _ "null"); [done|done|apply compact_payload_null].
Qed.

Lemma handleP2PMessage_default (Agent : Type)
    (hR hC hP hA : MessageHandler Agent) (a : Agent) (from : peer_ID) (m : Message) :
  ~ In (Type_ m) defined_types ->
  handleP2PMessage Agent hR hC hP hA a from m = (a, (None, None)).
Proof.
  intros Hn. unfold handleP2PMessage.
  assert (Hne : forall t, In t defined_types -> String.eqb (Type_ m) t = false).
  { intros t Ht. apply String.eqb_neq. intros E. apply Hn. by rewrite E. }
  rewrite !Hne; [done|cbn; tauto..].
Qed.

(** C9. An envelope whose type is none of the seven is decoded like any
    other, every field as written, and its dispatch changes nothing,
    answers nothing and reports no error: the stream is closed without a
    reply. *)
Theorem unknown_type_is_decoded_and_ignored (Agent : Type)
    (hR hC hP hA : MessageHandler Agent) (a : Agent) (remote : peer_ID)
    (m : Message) (p : string) :
  ~ In (Type_ m) defined_types ->
  valid_strings m ->
  Payload m = Some p ->
  compact_payload p ->
  (exists data, json.Marshal m = Some data /\ json.Unmarshal data = Some m) /\
  handleP2PMessage Agent hR hC hP hA a remote m = (a, (None, None)) /\
  (forall data m', json.Unmarshal data = Some m' ->
     ~ In (Type_ m') defined_types ->
     handleStream Agent (Some (handleP2PMessage Agent hR hC hP hA)) remote (inr data) a
     = (a, [OpClose])).
Proof.
  intros Hn Hv HP Hp.
  split; [by apply (Unmarshal_Marshal m p)|].
  split; [by apply handleP2PMessage_default|].
  intros data m' Hdec Hn'. unfold handleStream. rewrite Hdec.
  by rewrite handleP2PMessage_default.
Qed.

(** C6. When everything up to the read succeeds and the read gives no
    byte, [SendMessage] returns no message and no error. *)
Theorem SendMessage_empty_response (net : peer_ID -> Stream) (peerID : peer_ID)
    (msg : Message) (data respData : string) :
  open_result (net peerID) = None ->
  json.Marshal msg = Some data ->
  write_result (net peerID) = None ->
  read_result (net peerID) = inr respData ->
  String.length respData = 0 ->
  SendMessage net peerID msg = ([OpWrite data; OpCloseWrite; OpClose], (None, None)).
Proof.
  intros Ho Hm Hw Hr Hl. unfold SendMessage. by rewrite Ho, Hm, Hw, Hr, Hl.
Qed.

Lemma SendMessage_local (net net' : peer_ID -> Stream) (peerID : peer_ID) (msg : Message) :
  net peerID = net' peerID -> SendMessage net peerID msg = SendMessage net' peerID msg.
Proof. intros H. unfold SendMessage. by rewrite H. Qed.

Lemma SendMessage_delivers (net : peer_ID -> Stream) (peerID : peer_ID)
    (msg : Message) (data : string) :
  open_result (net peerID) = None ->
  json.Marshal msg = Some data ->
  write_result (net peerID) = None ->
  (SendMessage net peerID msg).1 = [OpWrite data; OpCloseWrite; OpClose].
Proof.
  intros Ho Hm Hw. unfold SendMessage. rewrite Ho, Hm, Hw.
  destruct (read_result (net peerID)) as [e|r]; [done|].
  destruct (Nat.eqb (String.length r) 0); [done|].
  by destruct (json.Unmarshal r).
Qed.

Lemma broadcast_goroutine_ops net g :
  (broadcast_goroutine net g).1 = (SendMessage net g.1 g.2).1.
Proof.
  unfold broadcast_goroutine.
  by destruct (SendMessage net g.1 g.2) as [ops [r [e|]]].
Qed.

Lemma elem_of_broadcast_streams net msg (snap : list peer_ID) P ops :
  (P, ops) ∈ broadcast_streams net (List.map (fun Q => (Q, msg)) snap) <->
  P ∈ snap /\ ops = (SendMessage net P msg).1.
Proof.
  unfold broadcast_streams. rewrite List.map_map.
  change (List.map ?f snap) with (f <$> snap).
  rewrite list_elem_of_fmap. cbn. split.
  - intros (Q & [= -> ->] & Hin). split; [done|]. apply broadcast_goroutine_ops.
  - intros (Hin & ->). exists P. split; [|done]. f_equal.
    symmetry. apply broadcast_goroutine_ops.
Qed.

Lemma broadcast_streams_targets net msg (snap : list peer_ID) :
  (broadcast_streams net (List.map (fun Q => (Q, msg)) snap)).*1 = snap.
Proof.
  unfold broadcast_streams. rewrite List.map_map. cbn.
  induction snap as [|Q snap IH]; cbn; [done|]. by rewrite IH.
Qed.

(** C3. [Broadcast] returns [nil] whatever happens to the sends.  It
    starts one send of the message for each peer of the snapshot, that is
    for every peer whose flag is set and for no peer twice.  Each send has
    a stream of its own, and what happens on it depends on the transport to
    its own peer only: where the stream opens and takes the bytes, the peer
    receives the encoded message once, whichever other sends fail. *)
Theorem Broadcast_sends_independently
    (order : list (peer_ID * loc)) (h : Host) (msg : Message) :
  range_order (peers h) order ->
  let gs := (Broadcast order h msg).1 in
  (Broadcast order h msg).2 = None /\
  gs = List.map (fun P => (P, msg)) (connected_snapshot order h) /\
  NoDup gs.*1 /\
  (forall P, P ∈ gs.*1 <->
     exists l info, peers h !! P = Some l /\ deref h l = Some info /\
                    Connected info = true) /\
  (forall net, NoDup (broadcast_streams net gs).*1) /\
  (forall net P ops, (P, ops) ∈ broadcast_streams net gs <->
     P ∈ gs.*1 /\ ops = (SendMessage net P msg).1) /\
  (forall net net' P, net P = net' P ->
     SendMessage net P msg = SendMessage net' P msg) /\
  (forall net P data,
     json.Marshal msg = Some data ->
     open_result (net P) = None -> write_result (net P) = None ->
     received (SendMessage net P msg).1 = [data]).
Proof.
  intros Hord gs. subst gs. unfold Broadcast. cbn [fst snd].
  assert (Htargets : (List.map (fun P => (P, msg)) (connected_snapshot order h)).*1
                     = connected_snapshot order h).
  { induction (connected_snapshot order h) as [|Q l IH]; cbn; [done|]. by rewrite IH. }
  assert (Hnd : NoDup (connected_snapshot order h)).
  { eapply sublist_NoDup; [|apply connected_snapshot_sublist].
    unfold range_order in Hord. rewrite Hord. apply NoDup_fst_map_to_list. }
  split; [done|]. split; [done|].
  rewrite Htargets.
  split; [done|].
  split; [intros P; by apply elem_of_connected_snapshot|].
  split; [intros net; by rewrite broadcast_streams_targets|].
  split; [intros net P ops; apply elem_of_broadcast_streams|].
  split; [intros net net' P; apply SendMessage_local|].
  intros net P data Hm Ho Hw. by rewrite (SendMessage_delivers net P msg data).
Qed.

(** *** Concrete exchanges *)

Lemma Unmarshal_Marshal_defined_types_witness :
  exists data, json.Marshal Sample.chat_msg = Some data /\
               json.Unmarshal data = Some Sample.chat_msg.
Proof.
  apply (proj1 (Unmarshal_Marshal_defined_types Sample.chat_msg
                  ltac:(cbn; tauto) ltac:(vm_compute; reflexivity)
                  ltac:(vm_compute; reflexivity) ltac:(vm_compute; reflexivity))
           Sample.chat_payload).
  - reflexivity.
  - vm_compute. reflexivity.
Defined.

(** C2, refuted as stated: the pong that [handlePing] returns has no
    payload; it is written with [null] as payload and read back with the
    bytes [null], not with the nil payload it had. *)
Lemma Unmarshal_Marshal_pong_differs :
  Sample.pong_msg.(Type_) = MessageTypePong /\
  json.Marshal Sample.pong_msg
  = Some ("{" +:+ json.quoted "type" +:+ ":" +:+ json.quoted "pong" +:+ ","
          +:+ json.quoted "from" +:+ ":"
          +:+ json.quoted "12D3KooWAHoEkEqnKzM5PXFygh2movVBCSX3k8tDsT2cneU68Gyn"
          +:+ "," +:+ json.quoted "payload" +:+ ":null}") /\
  (json.Marshal Sample.pong_msg ≫= json.Unmarshal)
  = Some (with_Payload Sample.pong_msg (Some "null")) /\
  (json.Marshal Sample.pong_msg ≫= json.Unmarshal) <> Some Sample.pong_msg.
Proof.
  split; [reflexivity|].
  split; [vm_compute; reflexivity|].
  assert (H : (json.Marshal Sample.pong_msg ≫= json.Unmarshal)
              = Some (with_Payload Sample.pong_msg (Some "null")))
    by (vm_compute; reflexivity).
  split; [exact H|]. rewrite H. intros E.
  apply (f_equal (fun o => Payload <$> o)) in E. cbn in E. discriminate E.
Qed.

Lemma unknown_type_is_decoded_and_ignored_witness :
  (exists data, json.Marshal Sample.gossip_msg = Some data /\
                json.Unmarshal data = Some Sample.gossip_msg) /\
  handleP2PMessage unit (fun a _ _ => (a, (None, Some "register")))
    (fun a _ _ => (a, (None, Some "chat"))) (fun a _ m => (a, (Some m, None)))
    (fun a _ _ => (a, (None, Some "announce"))) tt Sample.P2 Sample.gossip_msg
  = (tt, (None, None)).
Proof.
  destruct (unknown_type_is_decoded_and_ignored unit
              (fun a _ _ => (a, (None, Some "register")))
              (fun a _ _ => (a, (None, Some "chat"))) (fun a _ m => (a, (Some m, None)))
              (fun a _ _ => (a, (None, Some "announce"))) tt Sample.P2
              Sample.gossip_msg "{}") as (H1 & H2 & _).
  - cbn. intros H. repeat (destruct H as [H|H]; [discriminate H|]). destruct H.
  - repeat split; vm_compute; reflexivity.
  - reflexivity.
  - vm_compute. reflexivity.
  - split; [exact H1 | exact H2].
Defined.

Lemma chat_msg_encoded : exists data, json.Marshal Sample.chat_msg = Some data.
Proof. vm_compute. eexists. reflexivity. Qed.

Lemma SendMessage_empty_response_witness :
  exists data,
    json.Marshal Sample.chat_msg = Some data /\
    SendMessage Sample.net_P2_down Sample.P1 Sample.chat_msg
    = ([OpWrite data; OpCloseWrite; OpClose], (None, None)).
Proof.
  destruct chat_msg_encoded as (data & Hm).
  exists data. split; [exact Hm|].
  apply (SendMessage_empty_response Sample.net_P2_down Sample.P1 Sample.chat_msg
           data EmptyString); [reflexivity | exact Hm | reflexivity..].
Defined.

(** The scenario of the design document: three connected peers, no stream
    to [P2]; [P1] and [P3] receive the message once each, [P2] nothing, and
    [Broadcast] returns [nil]. *)
Lemma Broadcast_sends_independently_witness :
  let order := map_to_list (peers Sample.three_peers) in
  let b := Broadcast order Sample.three_peers Sample.chat_msg in
  let streams := broadcast_streams Sample.net_P2_down b.1 in
  exists data,
    json.Marshal Sample.chat_msg = Some data /\
    b.2 = None /\
    NoDup streams.*1 /\
    (forall P ops, (P, ops) ∈ streams ->
       (P = Sample.P1 /\ received ops = [data]) \/
       (P = Sample.P2 /\ received ops = []) \/
       (P = Sample.P3 /\ received ops = [data])) /\
    (exists ops1 ops2 ops3,
       (Sample.P1, ops1) ∈ streams /\ (Sample.P2, ops2) ∈ streams /\
       (Sample.P3, ops3) ∈ streams).
Proof.
  intros order b streams.
  destruct chat_msg_encoded as (data & Hm).
  exists data. split; [exact Hm|].
  assert (Hord : range_order (peers Sample.three_peers) order)
    by (unfold range_order; reflexivity).
  destruct (Broadcast_sends_independently order Sample.three_peers Sample.chat_msg Hord)
    as (Hret & Hgs & Hnd & Hconn & Hnds & Hstreams & Hlocal & Hrecv).
  fold b in Hret, Hgs, Hnd, Hconn, Hnds, Hstreams.
  assert (Htargets : forall P, P ∈ b.1.*1 <-> P ∈ [Sample.P1; Sample.P2; Sample.P3]).
  { intros P. assert (Hc : b.1.*1 ≡ₚ [Sample.P1; Sample.P2; Sample.P3]).
    { apply Permutation_sym. vm_compute.
      repeat first [apply perm_skip | apply Permutation_refl
                   | (etransitivity; [apply perm_swap|]) ]. }
    by rewrite Hc. }
  split; [exact Hret|]. split; [apply Hnds|]. split.
  - intros P ops Hin. apply Hstreams in Hin as [HP ->].
    apply Htargets in HP.
    apply elem_of_cons in HP as [->|HP]; [left|].
    { split; [reflexivity|]. apply Hrecv; [exact Hm|reflexivity..]. }
    apply elem_of_cons in HP as [->|HP]; [right; left|].
    { split; reflexivity. }
    apply elem_of_cons in HP as [->|HP]; [right; right|].
    { split; [reflexivity|]. apply Hrecv; [exact Hm|reflexivity..]. }
    exfalso. apply elem_of_nil in HP. exact HP.
  - exists (SendMessage Sample.net_P2_down Sample.P1 Sample.chat_msg).1,
           (SendMessage Sample.net_P2_down Sample.P2 Sample.chat_msg).1,
           (SendMessage Sample.net_P2_down Sample.P3 Sample.chat_msg).1.
    split; [|split]; apply Hstreams; (split; [|reflexivity]); apply Htargets.
    + apply list_elem_of_here.
    + apply list_elem_of_further, list_elem_of_here.
    + apply list_elem_of_further, list_elem_of_further, list_elem_of_here.
Defined.

(** ** Further properties *)

(** *** The registry over a run *)

Section RegistryRuns.

Variable ID_String : peer_ID -> string.

Lemma apply_op_entry (op : registry_op) (h : Host) (P : peer_ID) (l : loc) (info : PeerInfo) :
  peers h !! P = Some l -> mem h !! l = Some info ->
  peers (apply_op ID_String h op) !! P = Some l /\
  exists b, mem (apply_op ID_String h op) !! l = Some (set_Connected b info).
Proof.
  intros Hp Hl.
  assert (Hid : set_Connected (Connected info) info = info) by (by destruct info).
  destruct op as [n Q|Q|Q]; cbn [apply_op].
  - destruct (RegisterAgentName_peers ID_String n Q h) as [-> ->].
    split; [done|]. exists (Connected info). by rewrite Hid.
  - unfold onPeerConnected. destruct (peers h !! Q) as [lq|] eqn:Eq; cbn.
    + split; [done|]. destruct (decide (lq = l)) as [->|Hne].
      * exists true. by rewrite lookup_alter_eq, Hl.
      * exists (Connected info). by rewrite lookup_alter_ne, Hid.
    + assert (Q <> P) by congruence.
      assert (fresh (dom (mem h)) <> l).
      { intros E. apply (is_fresh (dom (mem h))). rewrite E. apply elem_of_dom. eauto. }
      rewrite !lookup_insert_ne by done. split; [done|].
      exists (Connected info). by rewrite Hid.
  - unfold onPeerDisconnected. destruct (peers h !! Q) as [lq|] eqn:Eq; cbn.
    + split; [done|]. destruct (decide (lq = l)) as [->|Hne].
      * exists false. by rewrite lookup_alter_eq, Hl.
      * exists (Connected info). by rewrite lookup_alter_ne, Hid.
    + split; [done|]. exists (Connected info). by rewrite Hid.
Qed.

(** X1. An entry of the peer map stays for good: whatever is registered,
    connected or disconnected afterwards, the peer keeps its entry, at the
    same place and with the same identity, name and addresses; only the
    flag may differ. *)
Theorem peers_entry_persists (ops : list registry_op) :
  forall (h : Host) (P : peer_ID) (l : loc) (info : PeerInfo),
    peers h !! P = Some l -> mem h !! l = Some info ->
    peers (apply_ops ID_String h ops) !! P = Some l /\
    exists b, mem (apply_ops ID_String h ops) !! l = Some (set_Connected b info).
Proof.
  induction ops as [|op ops IH]; intros h P l info Hp Hl.
  - split; [done|]. exists (Connected info). by destruct info.
  - cbn. destruct (apply_op_entry op h P l info Hp Hl) as (Hp' & b & Hl').
    destruct (IH _ _ _ _ Hp' Hl') as (Hp'' & b' & Hl'').
    split; [done|]. by exists b'.
Qed.

Lemma is_connected_apply_op (op : registry_op) (h : Host) (P : peer_ID) :
  wf h ->
  is_connected (apply_op ID_String h op) P =
  match last_event P [op] with
  | Some b => b
  | None => is_connected h P
  end.
Proof.
  intros Hwf. destruct op as [n Q|Q|Q]; cbn [apply_op last_event].
  - unfold is_connected. by destruct (RegisterAgentName_peers ID_String n Q h) as [-> ->].
  - destruct (String.eqb_spec Q P) as [->|Hne].
    + unfold is_connected, onPeerConnected.
      destruct (peers h !! P) as [l|] eqn:Ep; cbn.
      * rewrite Ep. destruct (Hwf _ _ Ep) as (info & El & _).
        by rewrite lookup_alter_eq, El.
      * by rewrite !lookup_insert_eq.
    + unfold is_connected, onPeerConnected.
      destruct (peers h !! Q) as [lq|] eqn:Eq; cbn.
      * destruct (peers h !! P) as [l|] eqn:Ep; [|done].
        rewrite lookup_alter_ne; [done|].
        intros ->. apply Hne. by apply (wf_peers_inj h Q P l).
      * rewrite lookup_insert_ne by done.
        destruct (peers h !! P) as [l|] eqn:Ep; [|done].
        destruct (Hwf _ _ Ep) as (info & El & _).
        rewrite lookup_insert_ne; [done|].
        intros E. apply (is_fresh (dom (mem h))). rewrite E. apply elem_of_dom. eauto.
  - destruct (String.eqb_spec Q P) as [->|Hne].
    + unfold is_connected, onPeerDisconnected.
      destruct (peers h !! P) as [l|] eqn:Ep; cbn; [|by rewrite Ep].
      rewrite Ep, lookup_alter_eq. by destruct (mem h !! l).
    + unfold is_connected, onPeerDisconnected.
      destruct (peers h !! Q) as [lq|] eqn:Eq; cbn; [|done].
      destruct (peers h !! P) as [l|] eqn:Ep; [|done].
      rewrite lookup_alter_ne; [done|].
      intros ->. apply Hne. by apply (wf_peers_inj h Q P l).
Qed.

(** X2. The flag follows the notifications: after any run of registry
    operations a peer is held as connected exactly when the last connect
    or disconnect that named it was a connect; a peer the run did not name
    is as it was. *)
Theorem is_connected_last_event (ops : list registry_op) :
  forall (h : Host) (P : peer_ID),
    wf h ->
    is_connected (apply_ops ID_String h ops) P =
    match last_event P ops with
    | Some b => b
    | None => is_connected h P
    end.
Proof.
  induction ops as [|op ops IH]; intros h P Hwf; [done|].
  cbn [apply_ops foldl]. fold (apply_ops ID_String (apply_op ID_String h op) ops).
  rewrite IH.
  2:{ destruct op; cbn;
        auto using wf_RegisterAgentName, wf_onPeerConnected, wf_onPeerDisconnected. }
  cbn [last_event]. destruct (last_event P ops); [done|].
  by rewrite is_connected_apply_op.
Qed.

(** X3. A disconnect followed by a connect of the same peer is a connect;
    for a peer held as connected the two together change nothing. *)
Theorem reconnect_restores (P : peer_ID) (h : Host) :
  onPeerConnected P (onPeerDisconnected P h) = onPeerConnected P h /\
  (is_connected h P = true -> onPeerConnected P (onPeerDisconnected P h) = h).
Proof.
  assert (Hcomp : forall l (m : gmap loc PeerInfo),
            alter (set_Connected true) l (alter (set_Connected false) l m)
            = alter (set_Connected true) l m).
  { intros l m. apply map_eq. intros i. destruct (decide (l = i)) as [->|Hne].
    - rewrite !lookup_alter_eq. by destruct (m !! i).
    - by rewrite !lookup_alter_ne. }
  assert (H1 : onPeerConnected P (onPeerDisconnected P h) = onPeerConnected P h).
  { unfold onPeerDisconnected. destruct (peers h !! P) as [l|] eqn:Ep; [|done].
    unfold onPeerConnected, with_mem. cbn. rewrite Ep. by rewrite Hcomp. }
  split; [exact H1|]. rewrite H1.
  unfold is_connected, onPeerConnected.
  destruct (peers h !! P) as [l|] eqn:Ep; [|done].
  destruct (mem h !! l) as [info|] eqn:El; [|done].
  intros Hc. destruct h as [ln ps an m]. unfold with_mem. cbn in *. f_equal.
  apply map_eq. intros i. destruct (decide (l = i)) as [->|Hne].
  - rewrite lookup_alter_eq, El. cbn. f_equal. destruct info. cbn in *. by subst.
  - by rewrite lookup_alter_ne.
Qed.

End RegistryRuns.

(** *** The exchange *)

Lemma wire_safe_roundtrip (m : Message) :
  wire_safe m ->
  exists data, json.Marshal m = Some data /\ json.Unmarshal data = Some m /\
               String.length data <> 0.
Proof.
  intros (Hv & p & HP & Hp). exists ("{" +:+ members m p).
  split; [by apply Marshal_compact_payload|].
  split; [by apply Unmarshal_members|]. done.
Qed.

Lemma reply_bytes_one (data : string) (ops : list stream_op) :
  received ops = [data] -> reply_bytes ops = data.
Proof. unfold reply_bytes. intros ->. cbn. apply append_nil_r. Qed.

(** X4. A request and its reply cross the stream unchanged: when both
    are messages that the codec carries, the receiver's handler is run on
    the very request, with the sender as remote peer, and the sender gets
    the very reply, without error. *)
Theorem exchange_delivers_reply (Agent : Type) (handler : MessageHandler Agent)
    (from to : peer_ID) (msg reply : Message) (a a' : Agent) :
  wire_safe msg ->
  wire_safe reply ->
  handler a from msg = (a', (Some reply, None)) ->
  exists data,
    json.Marshal msg = Some data /\
    exchange Agent (Some handler) from to msg a
    = (a', ([OpWrite data; OpCloseWrite; OpClose], (Some reply, None))).
Proof.
  intros Hmsg Hreply Hh.
  destruct (wire_safe_roundtrip msg Hmsg) as (data & Hm & Hu & _).
  destruct (wire_safe_roundtrip reply Hreply) as (rdata & Hrm & Hru & Hrl).
  exists data. split; [done|].
  unfold exchange. rewrite Hm. unfold handleStream. rewrite Hu, Hh, Hrm.
  unfold SendMessage. cbn [answering open_result write_result read_result].
  rewrite Hm, (reply_bytes_one rdata) by done.
  destruct (Nat.eqb_spec (String.length rdata) 0); [done|].
  by rewrite Hru.
Qed.

(** X5. What the sender cannot tell apart: a receiver whose handler
    answers nothing, one whose handler fails, and one that has no handler
    all leave the sender with no message and no error. *)
Theorem exchange_silent (Agent : Type) (msgHandler : option (MessageHandler Agent))
    (from to : peer_ID) (msg : Message) (a : Agent) :
  wire_safe msg ->
  match msgHandler with
  | None => True
  | Some handler =>
      (handler a from msg).2 = (None, None) \/ (handler a from msg).2.2 <> None
  end ->
  exists data,
    json.Marshal msg = Some data /\
    exchange Agent msgHandler from to msg a
    = (match msgHandler with Some handler => (handler a from msg).1 | None => a end,
       ([OpWrite data; OpCloseWrite; OpClose], (None, None))).
Proof.
  intros Hmsg Hh.
  destruct (wire_safe_roundtrip msg Hmsg) as (data & Hm & Hu & _).
  exists data. split; [done|].
  unfold exchange. rewrite Hm. unfold handleStream. rewrite Hu.
  assert (Hsend : SendMessage (answering [OpClose]) to msg
                  = ([OpWrite data; OpCloseWrite; OpClose], (None, None))).
  { unfold SendMessage. cbn. by rewrite Hm. }
  destruct msgHandler as [handler|]; [|cbv beta iota; by rewrite Hsend].
  destruct (handler a from msg) as [a1 [resp err]] eqn:E. cbn [fst snd] in *.
  destruct err as [e|]; [destruct resp; cbv beta iota; by rewrite Hsend|].
  destruct Hh as [[= ->]|Hh]; [cbv beta iota; by rewrite Hsend|done].
Qed.

(** X6. A request that cannot be encoded reaches no handler: the receiver
    reads an empty stream and its agent is as before, and the sender gets
    the encoding error. *)
Theorem exchange_unencodable (Agent : Type) (msgHandler : option (MessageHandler Agent))
    (from to : peer_ID) (msg : Message) (a : Agent) :
  json.Marshal msg = None ->
  exchange Agent msgHandler from to msg a = (a, ([OpClose], (None, Some ErrMarshal))).
Proof.
  intros Hm. unfold exchange. rewrite Hm. unfold handleStream.
  change (json.Unmarshal EmptyString) with (@None Message). cbv iota.
  unfold SendMessage. cbn. by rewrite Hm.
Qed.

(** *** The gateway and the configuration *)

Lemma strip_prefix_Some (p s r : string) :
  strip_prefix p s = Some r <-> s = p +:+ r.
Proof.
  revert s. induction p as [|a p IH]; intros s; cbn.
  - split; [by intros [= ->] | by intros ->].
  - destruct s as [|b s]; [done|].
    destruct (Ascii.eqb_spec a b) as [->|Hne].
    + rewrite IH. split; [by intros -> | by intros [= ->]].
    + split; [done | intros [= E _]; done].
Qed.

Lemma HasPrefix_false (s p : string) :
  HasPrefix s p = false <-> forall r, s <> p +:+ r.
Proof.
  unfold HasPrefix. destruct (strip_prefix p s) as [r|] eqn:E.
  - apply strip_prefix_Some in E. split; [done|]. intros H. by destruct (H r).
  - split; [|done]. intros _ r Hr. apply strip_prefix_Some in Hr. congruence.
Qed.

(** X7. Which requests the gateway lets through: those whose
    [Authorization] header, with one leading [Bearer ] taken off if it is
    there, is the configured key.  So the bare key is let through as well
    as [Bearer ] followed by the key, and for a key that [validateAPIKey]
    accepts these two headers are the only ones. *)
Theorem authMiddleware_admits (apiKey auth : string) :
  (authMiddleware apiKey auth = Next <->
   auth <> EmptyString /\
   (auth = "Bearer " +:+ apiKey \/ (auth = apiKey /\ HasPrefix apiKey "Bearer " = false))) /\
  (config.validateAPIKey apiKey = None ->
   (authMiddleware apiKey auth = Next <-> auth = "Bearer " +:+ apiKey \/ auth = apiKey)).
Proof.
  assert (Hgen : authMiddleware apiKey auth = Next <->
   auth <> EmptyString /\
   (auth = "Bearer " +:+ apiKey \/ (auth = apiKey /\ HasPrefix apiKey "Bearer " = false))).
  { unfold authMiddleware, TrimPrefix.
    destruct (String.eqb_spec auth EmptyString) as [->|Hne].
    { split; [done|]. by intros [? _]. }
    destruct (strip_prefix "Bearer " auth) as [r|] eqn:E.
    - apply strip_prefix_Some in E. subst auth.
      destruct (String.eqb_spec r apiKey) as [->|Hr]; cbn [negb].
      + split; [auto|done].
      + split; [done|]. intros [_ [H|[H Hp]]].
        * apply String.app_inj in H. done.
        * exfalso. apply HasPrefix_false with (r := r) in Hp. by rewrite H in Hp.
    - destruct (String.eqb_spec auth apiKey) as [->|Hr]; cbn [negb].
      + split; [|done]. intros _. split; [done|]. right. split; [done|].
        unfold HasPrefix. by rewrite E.
      + split; [done|]. intros [_ [H|[H _]]]; [|done].
        apply strip_prefix_Some in H. congruence. }
  split; [exact Hgen|].
  intros Hkey. rewrite Hgen.
  assert (Hsk : HasPrefix apiKey "sk-" = true /\ apiKey <> EmptyString).
  { unfold config.validateAPIKey in Hkey.
    destruct (String.eqb_spec apiKey EmptyString); [done|].
    destruct (HasPrefix apiKey "sk-"); [done|done]. }
  destruct Hsk as [Hsk Hne].
  assert (Hnb : HasPrefix apiKey "Bearer " = false).
  { unfold HasPrefix in *. destruct apiKey as [|c k]; [done|].
    cbn [strip_prefix] in *. destruct (Ascii.eqb_spec "s" c) as [<-|];
      [reflexivity|discriminate Hsk]. }
  split.
  - intros [_ [H|[H _]]]; auto.
  - intros [H|H]; subst auth; (split; [|auto]).
    + done.
    + done.
Qed.

Lemma DecodeRune_ascii (b : ascii) (r : string) :
  (byteN b < 0x80)%N -> utf8.DecodeRune (String b r) = (byteN b, 1).
Proof.
  intros H. unfold utf8.DecodeRune. by destruct (N.ltb_spec (byteN b) 128); [|lia].
Qed.

Lemma DecodeRune_small (b : ascii) (r : string) (c : N) (size : nat) :
  utf8.DecodeRune (String b r) = (c, size) -> (c < 0x80)%N ->
  (byteN b < 0x80)%N /\ c = byteN b /\ size = 1.
Proof.
  intros Hdec Hc.
  destruct (N.ltb_spec (byteN b) 0x80) as [Hb|Hb].
  { rewrite DecodeRune_ascii in Hdec by done. by injection Hdec as <- <-. }
  exfalso.
  destruct (utf8.malformed (String b r)) eqn:Hmal.
  - unfold utf8.malformed in Hmal. rewrite Hdec in Hmal.
    apply andb_true_iff in Hmal as [Hmal _]. apply N.eqb_eq in Hmal.
    unfold utf8.RuneError in Hmal. lia.
  - destruct (DecodeRune_wellformed _ _ _ Hdec ltac:(done) Hmal) as (Hsize & _ & Henc).
    unfold utf8.EncodeRune in Henc.
    destruct (N.leb_spec c 127); [|lia].
    destruct size as [|size]; [lia|]. cbn [string_take] in Henc.
    injection Henc as Hb' _. subst b.
    unfold byteN in Hb. rewrite N_ascii_embedding in Hb by lia. lia.
Qed.

Lemma isValidNameChar_small (c : N) : config.isValidNameChar c = true -> (c < 0x80)%N.
Proof.
  unfold config.isValidNameChar, config.between.
  change (byteN "a") with 97%N. change (byteN "z") with 122%N.
  change (byteN "A") with 65%N. change (byteN "Z") with 90%N.
  change (byteN "0") with 48%N. change (byteN "9") with 57%N.
  change (byteN "-") with 45%N. change (byteN "_") with 95%N.
  intros H. repeat (apply orb_true_iff in H as [H|H]);
    try (apply andb_true_iff in H as [_ H]; apply N.leb_le in H; lia);
    apply N.eqb_eq in H; lia.
Qed.

Lemma name_chars_loop_bytes (fuel : nat) (name : string) :
  String.length name <= fuel ->
  config.name_chars_loop fuel name = all_bytes name_byte name.
Proof.
  revert name. induction fuel as [|fuel IH]; intros name Hl.
  { destruct name; [done|cbn in Hl; lia]. }
  destruct name as [|b r]; [done|].
  cbn [config.name_chars_loop all_bytes]. cbn in Hl.
  destruct (utf8.DecodeRune (String b r)) as [c size] eqn:Hdec.
  unfold name_byte at 1.
  destruct (config.isValidNameChar c) eqn:Hc.
  - destruct (DecodeRune_small _ _ _ _ Hdec (isValidNameChar_small _ Hc)) as (Hb & -> & ->).
    rewrite Hc. cbn [string_drop andb]. apply IH. lia.
  - destruct (N.ltb_spec (byteN b) 0x80) as [Hb|Hb].
    + rewrite DecodeRune_ascii in Hdec by done. injection Hdec as <- <-. by rewrite Hc.
    + destruct (config.isValidNameChar (byteN b)) eqn:Hb'; [|done].
      apply isValidNameChar_small in Hb'. lia.
Qed.

(** X8. An agent name passes [validateAgentName] exactly when it has 2 to
    32 bytes, each of them an ASCII letter, a digit, a dash or an
    underscore: a name with any byte outside ASCII is refused, whatever
    runes its bytes spell. *)
Theorem validateAgentName_accepts (name : string) :
  config.validateAgentName name = None <->
  2 <= String.length name <= 32 /\ all_bytes name_byte name = true.
Proof.
  unfold config.validateAgentName.
  rewrite name_chars_loop_bytes by lia.
  destruct (String.eqb_spec name EmptyString) as [->|Hne].
  { split; [done|]. cbn. lia. }
  destruct (all_bytes name_byte name); cbn [negb].
  2:{ split; [done|]. by intros [_ ?]. }
  destruct (Nat.ltb_spec (String.length name) 2).
  { split; [done|]. lia. }
  destruct (Nat.ltb_spec 32 (String.length name)).
  { split; [done|]. lia. }
  split; [|done]. intros _. split; [lia|done].
Qed.

Lemma name_byte_safe (c : ascii) :
  name_byte c = true -> (byteN c < 0x80)%N /\ json.htmlSafeSet c = true.
Proof.
  intros H. split; [by apply isValidNameChar_small|].
  revert H. destruct c as [[] [] [] [] [] [] [] []]; vm_compute; congruence.
Qed.

Lemma all_bytes_name_plain (name : string) :
  all_bytes name_byte name = true ->
  forall fuel, String.length name <= fuel ->
    json.appendString_loop fuel name = name /\ utf8.ValidString_loop fuel name = true.
Proof.
  induction name as [|b r IH]; intros Hall fuel Hl.
  { by destruct fuel. }
  cbn in Hall, Hl. apply andb_true_iff in Hall as [Hb Hall].
  destruct (name_byte_safe b Hb) as [Hlt Hsafe].
  destruct fuel as [|fuel]; [lia|].
  destruct (IH Hall fuel ltac:(lia)) as [IH1 IH2].
  cbn [json.appendString_loop utf8.ValidString_loop].
  unfold utf8.RuneSelf, utf8.malformed.
  rewrite DecodeRune_ascii by done.
  destruct (N.ltb_spec (byteN b) 128); [|lia].
  rewrite Hsafe. cbn [append snd string_drop]. rewrite IH1. split; [done|].
  destruct (N.eqb_spec (byteN b) utf8.RuneError) as [E|_];
    [unfold utf8.RuneError in E; lia|]. done.
Qed.

(** X9. A name that [validateAgentName] accepts needs no escaping: in a
    JSON string it is written byte for byte between the quotes, and it
    is well-formed UTF-8. *)
Theorem validated_name_is_plain (name : string) :
  config.validateAgentName name = None ->
  json.appendString name = json.quoted name /\ utf8.ValidString name = true.
Proof.
  intros H. apply validateAgentName_accepts in H as [_ Hall].
  destruct (all_bytes_name_plain name Hall (String.length name) ltac:(lia)) as [H1 H2].
  split; [|exact H2]. unfold json.appendString, json.quoted. by rewrite H1.
Qed.

Lemma validateAPIKey_accepts (key : string) :
  config.validateAPIKey key = None <->
  HasPrefix key "sk-" = true /\ 40 <= String.length key.
Proof.
  unfold config.validateAPIKey.
  destruct (String.eqb_spec key EmptyString) as [->|Hne].
  { split; [done|]. by intros [? _]. }
  destruct (HasPrefix key "sk-"); cbn [negb].
  2:{ split; [done|]. by intros [? _]. }
  destruct (Nat.ltb_spec (String.length key) 40); split; try done; try lia.
Qed.

Lemma validatePort_accepts (port : Z) (field : string) :
  config.validatePort port field = None <-> (1024 <= port <= 65535)%Z.
Proof.
  unfold config.validatePort.
  destruct (Z.ltb_spec port 1), (Z.ltb_spec 65535 port), (Z.ltb_spec port 1024);
    cbn [orb]; split; try done; lia.
Qed.

Lemma append_err_nil (errors : list config.ValidationError) err :
  config.append_err errors err = [] <-> errors = [] /\ err = None.
Proof.
  destruct err as [e|]; cbn.
  - split; [|by intros [_ ?]]. intros H. by apply app_nil in H as [_ ?].
  - split; [done|]. by intros [? _].
Qed.

(** X10. [Validate] reports nothing exactly when the key starts with
    [sk-] and has at least 40 bytes, the name is a valid agent name, both
    ports lie between 1024 and 65535 and differ, and both can be
    listened on. *)
Theorem Validate_accepts (listen : Z -> bool) (c : config.Config) :
  config.Validate listen c = [] <->
  HasPrefix (config.APIKey c) "sk-" = true /\
  40 <= String.length (config.APIKey c) /\
  config.validateAgentName (config.AgentName c) = None /\
  (1024 <= config.HTTPPort c <= 65535)%Z /\
  (1024 <= config.P2PPort c <= 65535)%Z /\
  config.HTTPPort c <> config.P2PPort c /\
  listen (config.HTTPPort c) = true /\ listen (config.P2PPort c) = true.
Proof.
  unfold config.Validate.
  rewrite !append_err_nil.
  assert (Hports : forall l : list config.ValidationError,
    (if (config.HTTPPort c =? config.P2PPort c)%Z
     then l ++ [{| config.Field := "ports";
                   config.Message_ := "HTTP port and P2P port cannot be the same" |}]
     else l) = [] <-> l = [] /\ config.HTTPPort c <> config.P2PPort c).
  { intros l. destruct (Z.eqb_spec (config.HTTPPort c) (config.P2PPort c)).
    - split; [|by intros [_ ?]]. intros H. by apply app_nil in H as [_ ?].
    - split; [done|]. by intros [? _]. }
  rewrite Hports, !append_err_nil.
  rewrite validateAPIKey_accepts, !validatePort_accepts.
  unfold config.checkPortAvailable.
  destruct (listen (config.HTTPPort c)), (listen (config.P2PPort c));
    split; try tauto; intros; try tauto.
  all: repeat match goal with H : _ /\ _ |- _ => destruct H end; try done.
Qed.

(** X11. [HasErrors] and [Error] agree: a list of validation errors has
    errors exactly when its text is not empty. *)
Theorem ValidationErrors_Error_empty (e : list config.ValidationError) :
  config.HasErrors e = false <-> config.ValidationErrors_Error e = EmptyString.
Proof.
  unfold config.HasErrors, config.ValidationErrors_Error.
  destruct e as [|a e]; [done|]. cbn [List.length Nat.eqb List.map].
  split; [done|]. intros H. exfalso.
  assert (Ha : exists x y, config.ValidationError_Error a = String x y).
  { unfold config.ValidationError_Error. destruct (config.Field a); cbn; eauto. }
  destruct Ha as (x & y & Ha). revert H. cbn [config.Join]. rewrite Ha.
  by destruct (List.map config.ValidationError_Error e).
Qed.

Lemma length_string_drop (n : nat) (s : string) :
  String.length (string_drop n s) = String.length s - n.
Proof.
  revert s. induction n as [|n IH]; intros s; [cbn; lia|].
  destruct s as [|c s]; [done|]. cbn. apply IH.
Qed.

Lemma substring_take (n : nat) (s : string) : substring 0 n s = string_take n s.
Proof.
  revert s. induction n as [|n IH]; intros s; destruct s as [|c s]; cbn; try done.
  by rewrite IH.
Qed.

Lemma string_drop_drop (a b : nat) (s : string) :
  string_drop a (string_drop b s) = string_drop (b + a) s.
Proof.
  revert s. induction b as [|b IH]; intros s; [done|].
  destruct s as [|c s]; [by destruct a|]. cbn. apply IH.
Qed.

(** X12. What [config show] prints for a stored key: it panics on a key
    of fewer than 7 bytes; otherwise it prints 14 bytes, the first 7 and
    the last 4 of the key around three dots, so that a key of at most 11
    bytes can be read off what is printed in full. *)
Theorem masked_key_shows (apiKey : string) :
  (String.length apiKey < 7 -> masked_key apiKey = Panicked) /\
  (7 <= String.length apiKey ->
   exists shown,
     masked_key apiKey = Returned shown /\
     String.length shown = 14 /\
     string_take 7 shown = string_take 7 apiKey /\
     string_drop 10 shown = string_drop (String.length apiKey - 4) apiKey /\
     (String.length apiKey <= 11 ->
      apiKey = string_take 7 shown +:+ string_drop (21 - String.length apiKey) shown)).
Proof.
  unfold masked_key, slice_to, slice_from. split.
  - intros H. by rewrite decide_False by lia.
  - intros H. rewrite decide_True by lia. eexists. split; [reflexivity|].
    rewrite substring_take.
    assert (Hl7 : String.length (string_take 7 apiKey) = 7)
      by (apply length_string_take; lia).
    assert (Htake : string_take 7 (string_take 7 apiKey +:+
                "..." +:+ string_drop (String.length apiKey - 4) apiKey)
              = string_take 7 apiKey).
    { rewrite <- Hl7 at 1. apply string_take_append. }
    assert (Hdrop7 : forall X, string_drop 7 (string_take 7 apiKey +:+ X) = X).
    { intros X. rewrite <- Hl7 at 1. apply string_drop_append. }
    assert (Hdrop10 : string_drop 10 (string_take 7 apiKey +:+
                "..." +:+ string_drop (String.length apiKey - 4) apiKey)
              = string_drop (String.length apiKey - 4) apiKey).
    { change 10 with (7 + 3). rewrite <- string_drop_drop, Hdrop7. reflexivity. }
    split.
    { rewrite !length_append, Hl7, length_string_drop. cbn. lia. }
    split; [exact Htake|]. split; [exact Hdrop10|].
    intros H11. rewrite Htake.
    replace (21 - String.length apiKey) with (10 + (11 - String.length apiKey)) by lia.
    rewrite <- string_drop_drop, Hdrop10, string_drop_drop.
    replace (String.length apiKey - 4 + (11 - String.length apiKey)) with 7 by lia.
    symmetry. apply string_take_drop. lia.
Qed.

(** *** Name lookup and the discipline of streams *)

Section NameLookup.

Variable ID_String : peer_ID -> string.

(** X13. [IsNameTaken] tells how [RegisterAgentName] will answer: the
    claim of [P] succeeds exactly when the name is reported free or as
    taken by [P] itself; after a success the name is reported as taken by
    [P], and a claim that does not succeed leaves the report as it was. *)
Theorem IsNameTaken_predicts_RegisterAgentName (name : string) (P : peer_ID) (h : Host) :
  ((RegisterAgentName ID_String name P h).2 = Returned None <->
   (IsNameTaken name h).1 = false \/ IsNameTaken name h = (true, P)) /\
  ((RegisterAgentName ID_String name P h).2 = Returned None ->
   IsNameTaken name (RegisterAgentName ID_String name P h).1 = (true, P)) /\
  ((RegisterAgentName ID_String name P h).2 <> Returned None ->
   IsNameTaken name (RegisterAgentName ID_String name P h).1 = IsNameTaken name h).
Proof.
  unfold RegisterAgentName, IsNameTaken.
  destruct (agentNames h !! name) as [owner|] eqn:E.
  - case_decide as Hd.
    + subst owner. cbn. rewrite lookup_insert_eq. split; [|done].
      split; [by right|done].
    + assert (Hno : forall o : outcome string,
                (match o with
                 | Returned prefix => (h, Returned (Some (name_taken_error name prefix)))
                 | Panicked => (h, Panicked)
                 end).2 <> Returned None) by (by intros []).
      split; [|split].
      * split; [by intros H%Hno|]. intros [H|H]; [done|congruence].
      * by intros H%Hno.
      * intros _. destruct (slice_to _ _); cbn; by rewrite E.
  - cbn. rewrite lookup_insert_eq. split; [|done]. split; [by left|done].
Qed.

End NameLookup.

(** X14. No stream is left open and none is used after it was closed:
    [SendMessage] does nothing on a stream it could not open and otherwise
    closes the stream as its last action, whichever step fails;
    [handleStream] closes the stream as its last action on every path.
    Either writes at most once. *)
Theorem every_stream_is_closed_once :
  (forall (net : peer_ID -> Stream) (peerID : peer_ID) (msg : Message),
      match open_result (net peerID) with
      | Some _ => (SendMessage net peerID msg).1 = []
      | None =>
          closed_once (SendMessage net peerID msg).1 /\
          List.length (received (SendMessage net peerID msg).1) <= 1
      end) /\
  (forall (Agent : Type) (msgHandler : option (MessageHandler Agent)) (remote : peer_ID)
          (read : error + string) (a : Agent),
      closed_once (handleStream Agent msgHandler remote read a).2 /\
      List.length (received (handleStream Agent msgHandler remote read a).2) <= 1).
Proof.
  assert (H0 : closed_once [OpClose] /\ List.length (received [OpClose]) <= 1).
  { split; [|cbn; lia]. exists []. split; [done|]. apply not_elem_of_nil. }
  assert (H2 : forall d, closed_once [OpWrite d; OpCloseWrite; OpClose] /\
                         List.length (received [OpWrite d; OpCloseWrite; OpClose]) <= 1).
  { intros d. split; [|cbn; lia]. exists [OpWrite d; OpCloseWrite]. split; [done|].
    intros H. apply elem_of_cons in H as [H|H]; [done|].
    apply elem_of_cons in H as [H|H]; [done|]. by apply elem_of_nil in H. }
  assert (H1 : forall d, closed_once [OpWrite d; OpClose] /\
                         List.length (received [OpWrite d; OpClose]) <= 1).
  { intros d. split; [|cbn; lia]. exists [OpWrite d]. split; [done|].
    intros H. apply elem_of_cons in H as [H|H]; [done|]. by apply elem_of_nil in H. }
  split.
  - intros net peerID msg. unfold SendMessage.
    destruct (open_result (net peerID)); [done|].
    destruct (json.Marshal msg); [|exact H0].
    destruct (write_result (net peerID)); [exact H0|].
    destruct (read_result (net peerID)) as [e|respData]; [apply H2|].
    destruct (String.length respData =? 0); [apply H2|].
    destruct (json.Unmarshal respData); apply H2.
  - intros Agent msgHandler remote read a. unfold handleStream.
    destruct read as [e|data]; [exact H0|].
    destruct (json.Unmarshal data) as [msg|]; [|exact H0].
    destruct msgHandler as [handler|]; [|exact H0].
    destruct (handler a remote msg) as [a' [[response|] [err|]]]; try exact H0.
    destruct (json.Marshal response); [apply H1|exact H0].
Qed.

(** *** Strings under the scanner *)

Lemma line_separator_other (c : ascii) (t : string) :
  byteN c <> 0xE2%N -> json.line_separator (String c t) = None.
Proof.
  intros H. cbn. destruct t as [|c1 [|c2 t]]; try done.
  by destruct (N.eqb_spec (byteN c) 226).
Qed.

Lemma scan_keep (d : N) st stack c t st' stack' :
  json.is_html c = false ->
  json.line_separator (String c t) = None ->
  json.step d st stack c = json.stepContinue st' stack' true ->
  json.scan d 0 st stack (String c t)
  = json.prepend (String c EmptyString) (json.scan d 0 st' stack' t).
Proof. intros Hh Hl Hs. cbn [json.scan]. by rewrite Hh, Hl, Hs. Qed.

Lemma prepend_prepend p q r :
  json.prepend p (json.prepend q r) = json.prepend (p +:+ q) r.
Proof. destruct r as [[o t]|]; cbn; [|done]. by rewrite append_assoc. Qed.

Lemma verbatim_nil : verbatim EmptyString.
Proof. intros d stack X. cbn. by destruct (json.scan _ _ _ _ _) as [[? ?]|]. Qed.

Lemma verbatim_app p q : verbatim p -> verbatim q -> verbatim (p +:+ q).
Proof.
  intros Hp Hq d stack X. by rewrite append_assoc, Hp, Hq, prepend_prepend.
Qed.

Ltac scan_byte :=
  erewrite scan_keep;
  [|reflexivity|apply line_separator_other; by vm_compute|reflexivity].

Lemma verbatim_safe_byte b :
  (byteN b < 0x80)%N -> json.htmlSafeSet b = true -> verbatim (String b EmptyString).
Proof.
  intros Hb Hsafe d stack X. unfold json.htmlSafeSet in Hsafe.
  apply andb_true_iff in Hsafe as [Hsafe Hh].
  apply andb_true_iff in Hsafe as [Hsafe Hbs].
  apply andb_true_iff in Hsafe as [H20 Hdq].
  apply negb_true_iff in Hbs, Hdq, Hh. apply N.leb_le in H20.
  cbn [append].
  apply scan_keep; [done|apply line_separator_other; lia|].
  cbn [json.step]. rewrite Hdq, Hbs.
  by destruct (N.ltb_spec (byteN b) 32); [lia|].
Qed.

Lemma hex_digit_plain (n : N) :
  (n < 16)%N ->
  json.is_html (json.hex_digit n) = false /\ byteN (json.hex_digit n) <> 0xE2%N.
Proof.
  intros H.
  assert (Hn : In n (List.map N.of_nat (seq 0 16))).
  { apply in_map_iff. exists (N.to_nat n). split; [lia|]. apply in_seq. lia. }
  cbn in Hn. repeat (destruct Hn as [<-|Hn]; [by vm_compute|]). destruct Hn.
Qed.

Lemma verbatim_u00 b : (byteN b < 0x80)%N -> verbatim (json.u00 b).
Proof.
  intros Hb d stack X. unfold json.u00.
  change ("u00" +:+ ?x) with (String "u" (String "0" (String "0" x))).
  cbn [append].
  assert (H1 : (byteN b / 16 < 16)%N) by (zify; Z.to_euclidean_division_equations; lia).
  assert (H2 : (byteN b mod 16 < 16)%N) by (zify; Z.to_euclidean_division_equations; lia).
  destruct (hex_digit_plain _ H1) as [Hh1 He1].
  destruct (hex_digit_plain _ H2) as [Hh2 He2].
  do 4 scan_byte.
  erewrite scan_keep; [|done|by apply line_separator_other|];
    [|cbn [json.step]; rewrite hex_value_hex_digit by done; reflexivity].
  erewrite scan_keep; [|done|by apply line_separator_other|];
    [|cbn [json.step]; rewrite hex_value_hex_digit by done; reflexivity].
  cbn [Nat.ltb Nat.leb].
  by destruct (json.scan _ _ _ _ _) as [[? ?]|].
Qed.

Lemma verbatim_escape_byte b :
  (byteN b < 0x80)%N -> verbatim (json.escape_byte b).
Proof.
  intros Hb. unfold json.escape_byte.
  destruct (Ascii.eqb b backslash) eqn:E1.
  { apply Ascii.eqb_eq in E1. subst b. intros d stack X. cbn [orb append].
    do 2 scan_byte. by destruct (json.scan _ _ _ _ _) as [[? ?]|]. }
  destruct (Ascii.eqb b dquote) eqn:E2.
  { apply Ascii.eqb_eq in E2. subst b. intros d stack X. cbn [orb append].
    do 2 scan_byte. by destruct (json.scan _ _ _ _ _) as [[? ?]|]. }
  cbn [orb].
  repeat match goal with
         | |- context [if ?c then _ else _] =>
             destruct c;
             [intros d stack X; cbn [append]; do 2 scan_byte;
              by destruct (json.scan _ _ _ _ _) as [[? ?]|] |]
         end.
  by apply verbatim_u00.
Qed.

Lemma verbatim_ufffd : verbatim (String backslash "ufffd").
Proof.
  intros d stack X. cbn [append]. do 6 scan_byte.
  by destruct (json.scan _ _ _ _ _) as [[? ?]|].
Qed.

Lemma verbatim_u202 c : c = 0x2028%N \/ c = 0x2029%N -> verbatim (json.u202 c).
Proof.
  intros [-> | ->] d stack X; vm_compute json.u202; cbn [append]; do 6 scan_byte;
    by destruct (json.scan _ _ _ _ _) as [[? ?]|].
Qed.

Lemma scan_high_byte (d : N) stack (n : N) (t : string) :
  (0x80 <= n < 256)%N ->
  json.line_separator (String (ascii_of_N n) t) = None ->
  json.scan d 0 json.stateInString stack (String (ascii_of_N n) t)
  = json.prepend (String (ascii_of_N n) EmptyString)
      (json.scan d 0 json.stateInString stack t).
Proof.
  intros Hn Hl.
  assert (Hb : byteN (ascii_of_N n) = n) by (apply N_ascii_embedding; lia).
  apply scan_keep; [|done|].
  - unfold json.is_html. rewrite !eqb_byteN; [done|rewrite Hb..];
      [change (byteN "&") with 38%N|change (byteN ">") with 62%N
      |change (byteN "<") with 60%N]; lia.
  - cbn [json.step]. rewrite !eqb_byteN; [|rewrite Hb..];
      [|change (byteN backslash) with 92%N; lia|change (byteN dquote) with 34%N; lia].
    rewrite Hb. by destruct (N.ltb_spec n 32); [lia|].
Qed.

Lemma line_separator_high (n : N) (t : string) :
  (n < 256)%N -> n <> 0xE2%N -> json.line_separator (String (ascii_of_N n) t) = None.
Proof.
  intros Hn He. apply line_separator_other.
  unfold byteN. rewrite N_ascii_embedding by lia. done.
Qed.

Lemma verbatim_EncodeRune (c : N) :
  (0x7F < c)%N -> c <> 0x2028%N -> c <> 0x2029%N -> verbatim (utf8.EncodeRune c).
Proof.
  intros Hc H28 H29 d stack X. unfold utf8.EncodeRune, utf8.MaxRune, utf8.bytes3.
  destruct (N.leb_spec c 127); [lia|].
  destruct (N.leb_spec c 2047).
  { cbn [append].
    rewrite !scan_high_byte;
      [by destruct (json.scan _ _ _ _ _) as [[? ?]|] | try nlia; apply line_separator_high; nlia ..]. }
  destruct (N.ltb_spec 1114111 c); cbn [orb].
  { cbn [append]. do 3 scan_byte. by destruct (json.scan _ _ _ _ _) as [[? ?]|]. }
  destruct ((55296 <=? c)%N && (c <=? 57343)%N).
  { cbn [append]. do 3 scan_byte. by destruct (json.scan _ _ _ _ _) as [[? ?]|]. }
  destruct (N.leb_spec c 65535).
  { cbn [append].
    rewrite (scan_high_byte _ _ (224 + c / 4096)); [|nlia|].
    - rewrite !scan_high_byte;
        [by destruct (json.scan _ _ _ _ _) as [[? ?]|] | try nlia; apply line_separator_high; nlia ..].
    - cbn [json.line_separator]. unfold byteN. rewrite !N_ascii_embedding by nlia.
      destruct (N.eqb_spec (224 + c / 4096) 226); [|done].
      destruct (N.eqb_spec (128 + (c / 64) mod 64) 128); [|done].
      destruct (N.eqb_spec (128 + c mod 64) 168); [exfalso; nlia|].
      destruct (N.eqb_spec (128 + c mod 64) 169); [exfalso; nlia|]. done. }
  cbn [append].
  rewrite !scan_high_byte;
    [by destruct (json.scan _ _ _ _ _) as [[? ?]|] | try nlia; apply line_separator_high; nlia ..].
Qed.

Lemma verbatim_appendString_loop (f : nat) :
  forall s, verbatim (json.appendString_loop f s).
Proof.
  induction f as [|f IH]; intros s; [apply verbatim_nil|].
  destruct s as [|b r]; [apply verbatim_nil|].
  cbn [json.appendString_loop].
  destruct (N.ltb_spec (byteN b) utf8.RuneSelf) as [Hb|Hb].
  { apply verbatim_app; [|apply IH].
    destruct (json.htmlSafeSet b) eqn:Hsafe;
      [by apply verbatim_safe_byte|by apply verbatim_escape_byte]. }
  destruct (utf8.DecodeRune (String b r)) as [c size] eqn:Hdec.
  destruct ((c =? utf8.RuneError)%N && (size =? 1)) eqn:Hmal.
  { apply verbatim_app; [apply verbatim_ufffd|apply IH]. }
  destruct (DecodeRune_wellformed _ _ _ Hdec ltac:(done)) as (Hsize & _ & Henc).
  { unfold utf8.malformed. by rewrite Hdec. }
  destruct ((c =? 8232)%N || (c =? 8233)%N) eqn:Hsep.
  { apply verbatim_app; [|apply IH]. apply verbatim_u202.
    apply orb_true_iff in Hsep as [H|H]; apply N.eqb_eq in H; auto. }
  apply verbatim_app; [|apply IH]. rewrite <- Henc.
  apply orb_false_iff in Hsep as [H28 H29]. apply N.eqb_neq in H28, H29.
  apply verbatim_EncodeRune; [|done..].
  destruct (N.leb_spec c 127) as [Hc|Hc]; [exfalso|lia].
  unfold utf8.EncodeRune in Henc. destruct (N.leb_spec c 127); [|lia].
  destruct size as [|k]; [lia|]. cbn [string_take] in Henc. injection Henc as Hbc _.
  unfold utf8.RuneSelf in Hb. subst b. unfold byteN in Hb.
  rewrite N_ascii_embedding in Hb by lia. lia.
Qed.

(** What [json.Marshal] writes for a string is one JSON value in the
    form that [Compact] leaves as it is. *)
Lemma scan_appendString (d : N) (s X : string) :
  json.scan d 0 json.stateBeginValue [] (json.appendString s +:+ X)
  = Some (json.appendString s, X).
Proof.
  unfold json.appendString. cbn [append]. scan_byte.
  rewrite append_assoc, verbatim_appendString_loop. cbn [append json.scan].
  change (json.is_html dquote) with false.
  rewrite line_separator_other by (by vm_compute).
  cbn [json.step]. change (Ascii.eqb dquote dquote) with true. cbn. done.
Qed.

Lemma compact_payload_appendString (s : string) : compact_payload (json.appendString s).
Proof.
  unfold compact_payload, json.scan_value.
  rewrite <- (append_nil_r (json.appendString s)) at 1. apply scan_appendString.
Qed.

Lemma scan_appendString_in (d : N) (ps : json.parse_state) (stack : list json.parse_state)
    (s X : string) :
  json.scan d 0 json.stateBeginValue (ps :: stack) (json.appendString s +:+ X)
  = json.prepend (json.appendString s) (json.scan d 0 json.stateEndValue (ps :: stack) X).
Proof.
  unfold json.appendString. cbn [append]. scan_byte.
  rewrite append_assoc, verbatim_appendString_loop. cbn [append].
  scan_byte. rewrite !prepend_prepend. reflexivity.
Qed.

Lemma compact_payload_error_payload (msg : string) :
  compact_payload (agent.error_payload msg).
Proof.
  unfold compact_payload, json.scan_value, agent.error_payload, json.quoted.
  cbn [append]. do 9 scan_byte.
  rewrite scan_appendString_in. cbn [json.scan append].
  change (json.is_html "}") with false. cbn [json.line_separator].
  cbn [json.step json.step_stateEndValue json.isSpace].
  change (json.isSpace "}") with false. cbv iota.
  unfold json.appendString. cbn [json.prepend append]. reflexivity.
Qed.

Lemma compact_payload_registration (cfg : config.Config) :
  compact_payload (agent.registration_payload cfg).
Proof.
  unfold compact_payload, json.scan_value, agent.registration_payload, json.quoted.
  repeat (cbn [append]; first [rewrite scan_appendString_in | scan_byte]).
  cbn [json.scan append].
  change (json.is_html "}") with false. cbn [json.line_separator].
  cbn [json.step json.step_stateEndValue json.isSpace].
  change (json.isSpace "}") with false. cbv iota.
  cbn [json.prepend append]. reflexivity.
Qed.

(** *** Replies *)

Lemma exchange_reply_data (Agent : Type) (handler : MessageHandler Agent)
    (from to : peer_ID) (msg reply reply' : Message) (a a' : Agent) (rdata : string) :
  wire_safe msg ->
  handler a from msg = (a', (Some reply, None)) ->
  json.Marshal reply = Some rdata ->
  String.length rdata <> 0 ->
  json.Unmarshal rdata = Some reply' ->
  exists data,
    json.Marshal msg = Some data /\
    exchange Agent (Some handler) from to msg a
    = (a', ([OpWrite data; OpCloseWrite; OpClose], (Some reply', None))).
Proof.
  intros Hmsg Hh Hrm Hrl Hru.
  destruct (wire_safe_roundtrip msg Hmsg) as (data & Hm & Hu & _).
  exists data. split; [done|].
  unfold exchange. rewrite Hm. unfold handleStream. rewrite Hu, Hh, Hrm.
  unfold SendMessage. cbn [answering open_result write_result read_result].
  rewrite Hm, (reply_bytes_one rdata) by done.
  destruct (Nat.eqb_spec (String.length rdata) 0); [done|].
  by rewrite Hru.
Qed.

(** X15. A reply that a handler builds without payload (as [handlePing]
    and the other handlers do for a pong) reaches the sender with the four
    bytes [null] as payload, not with the nil payload it was built with. *)
Theorem reply_without_payload_arrives_null (Agent : Type) (handler : MessageHandler Agent)
    (from to : peer_ID) (msg reply : Message) (a a' : Agent) :
  wire_safe msg ->
  handler a from msg = (a', (Some reply, None)) ->
  valid_strings reply ->
  Payload reply = None ->
  exists data,
    json.Marshal msg = Some data /\
    exchange Agent (Some handler) from to msg a
    = (a', ([OpWrite data; OpCloseWrite; OpClose],
            (Some (with_Payload reply (Some "null")), None))).
Proof.
  intros Hmsg Hh Hv HP.
  assert (Hsafe : wire_safe (with_Payload reply (Some "null"))).
  { split; [exact Hv|]. exists "null". split; [done|apply compact_payload_null]. }
  destruct (wire_safe_roundtrip _ Hsafe) as (rdata & Hrm & Hru & Hrl).
  rewrite <- (Marshal_nil_payload reply HP) in Hrm.
  by apply (exchange_reply_data Agent handler from to msg reply _ a a' rdata).
Qed.

(** *** The agent

    The agent's handlers run on the state of one agent; the events that
    reach it are taken one after another. *)

Section AgentFacts.

Variable ID_String : peer_ID -> string.
Variable Unmarshal_RegisterPayload : option string -> error + RegisterPayload.t.
Variable Unmarshal_AnnouncePayload : option string -> error + AnnouncePayload.t.
Variables ChatCompletionRequest ChatCompletionResponse : Type.
Variable Unmarshal_ChatCompletionRequest : option string -> error + ChatCompletionRequest.
Variable forwardToOpenAI : ChatCompletionRequest -> error + ChatCompletionResponse.
Variable Marshal_ChatCompletionResponse : ChatCompletionResponse -> option string.
Variable peer_Decode : string -> error + peer_ID.
Variable Marshal_ChatCompletionRequest : ChatCompletionRequest -> option string.
Variable Unmarshal_ChatCompletionResponse : option string -> error + ChatCompletionResponse.

Abbreviation HandleSendToAgent :=
  (agent.HandleSendToAgent ID_String ChatCompletionRequest ChatCompletionResponse
     peer_Decode Marshal_ChatCompletionRequest Unmarshal_ChatCompletionResponse).
Abbreviation chat_request :=
  (agent.chat_request ID_String ChatCompletionRequest Marshal_ChatCompletionRequest).
Abbreviation handleRegister := (agent.handleRegister ID_String Unmarshal_RegisterPayload).
Abbreviation handleChatRequest :=
  (agent.handleChatRequest ID_String ChatCompletionRequest ChatCompletionResponse
     Unmarshal_ChatCompletionRequest forwardToOpenAI Marshal_ChatCompletionResponse).
Abbreviation handlePing := (agent.handlePing ID_String).
Abbreviation handleAnnounce := (agent.handleAnnounce ID_String Unmarshal_AnnouncePayload).
Abbreviation dispatch :=
  (agent.dispatch ID_String Unmarshal_RegisterPayload Unmarshal_AnnouncePayload
     ChatCompletionRequest ChatCompletionResponse
     Unmarshal_ChatCompletionRequest forwardToOpenAI Marshal_ChatCompletionResponse).
Abbreviation react :=
  (agent.react ID_String Unmarshal_RegisterPayload Unmarshal_AnnouncePayload
     ChatCompletionRequest ChatCompletionResponse
     Unmarshal_ChatCompletionRequest forwardToOpenAI Marshal_ChatCompletionResponse).
Abbreviation run :=
  (agent.run ID_String Unmarshal_RegisterPayload Unmarshal_AnnouncePayload
     ChatCompletionRequest ChatCompletionResponse
     Unmarshal_ChatCompletionRequest forwardToOpenAI Marshal_ChatCompletionResponse).
Abbreviation registry_consistent := (agent.registry_consistent ID_String).

(** What a message does: one of the four handlers, or nothing. *)
Lemma dispatch_cases (a : agent.Agent) (from : peer_ID) (msg : Message) :
  let f := fun h : agent.Agent -> peer_ID -> Message -> agent.handled =>
             dispatch (Returned a) from msg = agent.lift h (Returned a) from msg in
  (Type_ msg = MessageTypeRegister /\ f handleRegister) \/
  (Type_ msg <> MessageTypeRegister /\
   (f handleChatRequest \/ f handlePing \/ f handleAnnounce \/
    dispatch (Returned a) from msg = (Returned a, (None, None)))).
Proof.
  cbv zeta. unfold agent.dispatch, handleP2PMessage.
  destruct (String.eqb_spec (Type_ msg) MessageTypeRegister) as [E|E]; [by left|right].
  split; [done|].
  destruct (String.eqb (Type_ msg) MessageTypeChat); [by left|].
  destruct (String.eqb (Type_ msg) MessageTypePing); [by right; left|].
  destruct (String.eqb (Type_ msg) MessageTypeAnnounce); [by right; right; left|].
  by right; right; right.
Qed.

(** Only [handleRegister] writes, and it writes nothing but the claims
    and the records. *)
Lemma handleChatRequest_state a from msg a' r :
  handleChatRequest a from msg = Returned (a', r) -> a' = a.
Proof.
  unfold agent.handleChatRequest.
  destruct (Unmarshal_ChatCompletionRequest _); [congruence|].
  destruct (forwardToOpenAI _); congruence.
Qed.

Lemma handleAnnounce_state a from msg a' r :
  handleAnnounce a from msg = Returned (a', r) -> a' = a.
Proof.
  unfold agent.handleAnnounce.
  destruct (Unmarshal_AnnouncePayload _); [congruence|].
  destruct (slice_to _ _); congruence.
Qed.

Lemma RegisterAgentName_claimed n p h h' :
  RegisterAgentName ID_String n p h = (h', Returned None) ->
  agentNames h' !! n = Some p.
Proof.
  unfold RegisterAgentName.
  destruct (agentNames h !! n) as [e|] eqn:En.
  - case_decide as Hd.
    + intros [= <-]. cbn. by rewrite lookup_insert_eq.
    + destruct (slice_to _ _); intros [=].
  - intros [= <-]. cbn. by rewrite lookup_insert_eq.
Qed.

Lemma RegisterAgentName_frame n p h :
  peers (RegisterAgentName ID_String n p h).1 = peers h /\
  mem (RegisterAgentName ID_String n p h).1 = mem h /\
  localName (RegisterAgentName ID_String n p h).1 = localName h.
Proof.
  unfold RegisterAgentName.
  destruct (agentNames h !! n) as [e|]; [|done].
  case_decide; [done|]. by destruct (slice_to _ _).
Qed.

Lemma handleRegister_consistent a from msg a' r :
  registry_consistent a ->
  handleRegister a from msg = Returned (a', r) ->
  registry_consistent a'.
Proof.
  intros Hc. unfold agent.handleRegister.
  destruct (Unmarshal_RegisterPayload _) as [err|payload]; [by intros [= <- _]|].
  destruct (RegisterAgentName _ _ _ _) as [h' [[err|]|]] eqn:ER; [| |done].
  - intros [= <- _]. intros key rec Hk. cbn in *.
    destruct (Hc key rec Hk) as [-> Hn]. split; [done|].
    pose proof (RegisterAgentName_keeps ID_String (RegisterPayload.AgentName payload)
                  from (agent.p2pHost a) _ _ Hn) as Hk'.
    by rewrite ER in Hk'.
  - intros [= <- _]. intros key rec. cbn.
    destruct (decide (ID_String from = key)) as [<-|Hne].
    + rewrite lookup_insert_eq. intros [= <-]. cbn. split; [done|].
      by apply (RegisterAgentName_claimed _ _ _ _ ER).
    + rewrite lookup_insert_ne by done. intros Hk.
      destruct (Hc key rec Hk) as [-> Hn]. split; [done|].
      pose proof (RegisterAgentName_keeps ID_String (RegisterPayload.AgentName payload)
                    from (agent.p2pHost a) _ _ Hn) as Hk'.
      by rewrite ER in Hk'.
Qed.

Lemma lift_Returned f a from msg a' :
  (agent.lift f (Returned a) from msg).1 = Returned a' ->
  exists r, f a from msg = Returned (a', r).
Proof.
  unfold agent.lift. destruct (f a from msg) as [[a1 r]|]; cbn; [|done].
  intros [= ->]. eauto.
Qed.

Lemma react_consistent a e a' :
  registry_consistent a ->
  react (Returned a) e = Returned a' ->
  registry_consistent a'.
Proof.
  intros Hc. destruct e as [from msg|P|P]; cbn [agent.react].
  - destruct (dispatch_cases a from msg) as [[_ E]|[_ [E|[E|[E|E]]]]]; rewrite E; clear E.
    + intros H. apply lift_Returned in H as [r H].
      by apply (handleRegister_consistent _ _ _ _ _ Hc H).
    + intros H. apply lift_Returned in H as [r H].
      by rewrite (handleChatRequest_state _ _ _ _ _ H).
    + cbn. by intros [= <-].
    + intros H. apply lift_Returned in H as [r H].
      by rewrite (handleAnnounce_state _ _ _ _ _ H).
    + cbn. by intros [= <-].
  - intros [= <-]. intros key rec Hk. cbn in *.
    rewrite onPeerConnected_agentNames. by apply Hc.
  - intros [= <-]. intros key rec Hk. cbn in *.
    rewrite onPeerDisconnected_agentNames. by apply Hc.
Qed.

Lemma run_Panicked events : run Panicked events = Panicked.
Proof. induction events as [|e events IH]; [done|]. exact IH. Qed.

(** X16. Whatever messages and notifications reach an agent, handled one
    after another, every record of its registry stays filed under the text
    form of the peer it names, and the name in the record stays claimed by
    that peer. *)
Theorem registry_consistent_run (events : list agent.event) (a0 a : agent.Agent) :
  registry_consistent a0 ->
  run (Returned a0) events = Returned a ->
  registry_consistent a.
Proof.
  revert a0. induction events as [|e events IH]; intros a0 Hc.
  - cbn. by intros [= <-].
  - cbn [agent.run foldl].
    destruct (react (Returned a0) e) as [a1|] eqn:E.
    + apply IH. by apply (react_consistent _ _ _ Hc E).
    + fold (run Panicked events). by rewrite run_Panicked.
Qed.


(** *** No panic *)

Lemma RegisterAgentName_owner n p h m q :
  agentNames (RegisterAgentName ID_String n p h).1 !! m = Some q ->
  agentNames h !! m = Some q \/ q = p.
Proof.
  unfold RegisterAgentName.
  destruct (agentNames h !! n) as [e|] eqn:En.
  - case_decide as Hd.
    + cbn. destruct (decide (n = m)) as [->|];
        [rewrite lookup_insert_eq; intros [= <-]; by right
        |rewrite lookup_insert_ne by done; by left].
    + destruct (slice_to _ _); by left.
  - cbn. destruct (decide (n = m)) as [->|];
      [rewrite lookup_insert_eq; intros [= <-]; by right
      |rewrite lookup_insert_ne by done; by left].
Qed.

Lemma RegisterAgentName_returns n p h :
  (forall m q, agentNames h !! m = Some q -> 12 <= String.length (ID_String q)) ->
  exists r, (RegisterAgentName ID_String n p h).2 = Returned r.
Proof.
  intros Hl. unfold RegisterAgentName.
  destruct (agentNames h !! n) as [e|] eqn:En; [|by eexists].
  case_decide; [by eexists|].
  unfold slice_to. rewrite decide_True by (by apply (Hl n)). by eexists.
Qed.

Lemma handleRegister_returns a from msg :
  owners_long ID_String a -> 12 <= String.length (ID_String from) ->
  exists a' r, handleRegister a from msg = Returned (a', r) /\ owners_long ID_String a'.
Proof.
  intros Hl Hfrom. unfold agent.handleRegister.
  destruct (Unmarshal_RegisterPayload _) as [err|payload]; [by eauto|].
  destruct (RegisterAgentName_returns (RegisterPayload.AgentName payload) from
              (agent.p2pHost a) Hl) as [r Hr].
  assert (Ho : forall m q,
             agentNames (RegisterAgentName ID_String (RegisterPayload.AgentName payload)
                           from (agent.p2pHost a)).1 !! m = Some q ->
             12 <= String.length (ID_String q)).
  { intros m q Hm. apply RegisterAgentName_owner in Hm as [Hm| ->]; [by apply (Hl m)|done]. }
  destruct (RegisterAgentName _ _ _ _) as [h' o]. cbn [fst snd] in *. subst o.
  destruct r as [err|]; eexists _, _; (split; [reflexivity|exact Ho]).
Qed.

Lemma react_returns a e :
  owners_long ID_String a ->
  match e with
  | agent.Inbound from _ => 12 <= String.length (ID_String from)
  | _ => True
  end ->
  exists a', react (Returned a) e = Returned a' /\ owners_long ID_String a'.
Proof.
  intros Hl He. destruct e as [from msg|P|P]; cbn [agent.react].
  - destruct (dispatch_cases a from msg) as [[_ E]|[_ [E|[E|[E|E]]]]]; rewrite E; clear E.
    + destruct (handleRegister_returns a from msg Hl He) as (a' & r & H & Hl').
      exists a'. unfold agent.lift. by rewrite H.
    + exists a. split; [|done]. unfold agent.lift, agent.handleChatRequest.
      destruct (Unmarshal_ChatCompletionRequest _); [done|].
      by destruct (forwardToOpenAI _).
    + by exists a.
    + exists a. split; [|done]. unfold agent.lift, agent.handleAnnounce.
      destruct (Unmarshal_AnnouncePayload _); [done|].
      unfold slice_to. by rewrite decide_True.
    + by exists a.
  - eexists. split; [done|]. intros n p. cbn. rewrite onPeerConnected_agentNames. apply Hl.
  - eexists. split; [done|]. intros n p. cbn. rewrite onPeerDisconnected_agentNames. apply Hl.
Qed.

Lemma run_returns (events : list agent.event) : forall a0,
  owners_long ID_String a0 ->
  (forall from msg, In (agent.Inbound from msg) events ->
     12 <= String.length (ID_String from)) ->
  exists a, run (Returned a0) events = Returned a.
Proof.
  induction events as [|e events IH]; intros a0 Hl He; [by eexists|].
  cbn [agent.run foldl].
  destruct (react_returns a0 e Hl) as (a1 & -> & Hl1).
  { destruct e as [from msg| |]; [|done..]. apply (He from msg). by left. }
  apply IH; [done|]. intros from msg Hin. apply (He from msg). by right.
Qed.

(** X17. An agent started from [New] never panics in a handler as long
    as the text form of every peer that sends it a message has at least 12
    bytes (as the text form of every key-derived identity has): the
    12-byte slices in [RegisterAgentName] and [handleAnnounce] are then
    always in range. *)
Theorem run_never_panics (id : peer_ID) (events : list agent.event) :
  (forall from msg, In (agent.Inbound from msg) events ->
     12 <= String.length (ID_String from)) ->
  exists a, run (Returned (agent.New id)) events = Returned a.
Proof.
  apply run_returns. intros n p H. cbn in H. by rewrite lookup_empty in H.
Qed.

Lemma react_inbound_frame (a a' : agent.Agent) (from : peer_ID) (msg : Message) :
  react (Returned a) (agent.Inbound from msg) = Returned a' ->
  agent.hostID a' = agent.hostID a /\
  peers (agent.p2pHost a') = peers (agent.p2pHost a) /\
  mem (agent.p2pHost a') = mem (agent.p2pHost a) /\
  localName (agent.p2pHost a') = localName (agent.p2pHost a) /\
  (Type_ msg <> MessageTypeRegister -> a' = a).
Proof.
  cbn [agent.react].
  destruct (dispatch_cases a from msg) as [[Ht E]|[Ht [E|[E|[E|E]]]]]; rewrite E; clear E.
  - intros H. apply lift_Returned in H as [r H].
    split_and!; [| | | |done]; revert H; unfold agent.handleRegister;
      destruct (Unmarshal_RegisterPayload _) as [err|payload]; try (by intros [= <- _]);
      pose proof (RegisterAgentName_frame (RegisterPayload.AgentName payload) from
                    (agent.p2pHost a)) as (Hp & Hm & Hn);
      destruct (RegisterAgentName _ _ _ _) as [h' [[err|]|]]; try done;
      by intros [= <- _].
  - intros H. apply lift_Returned in H as [r H].
    by rewrite (handleChatRequest_state _ _ _ _ _ H).
  - cbn. by intros [= <-].
  - intros H. apply lift_Returned in H as [r H].
    by rewrite (handleAnnounce_state _ _ _ _ _ H).
  - cbn. by intros [= <-].
Qed.


(** X18. Messages do not touch the connection table: after any run of
    inbound messages the peers, their [PeerInfo] objects and so their
    connection flags are as before, and the identity of the host too; if
    none of the messages is a registration, the agent is unchanged
    altogether. *)
Theorem messages_leave_connections (events : list agent.event) (a a' : agent.Agent) :
  (forall e, In e events -> exists from msg, e = agent.Inbound from msg) ->
  run (Returned a) events = Returned a' ->
  agent.hostID a' = agent.hostID a /\
  peers (agent.p2pHost a') = peers (agent.p2pHost a) /\
  mem (agent.p2pHost a') = mem (agent.p2pHost a) /\
  (forall P, is_connected (agent.p2pHost a') P = is_connected (agent.p2pHost a) P) /\
  ((forall from msg, In (agent.Inbound from msg) events ->
      Type_ msg <> MessageTypeRegister) -> a' = a).
Proof.
  revert a. induction events as [|e events IH]; intros a Hin.
  - cbn. by intros [= <-].
  - cbn [agent.run foldl].
    destruct (react (Returned a) e) as [a1|] eqn:E;
      [|fold (run Panicked events); by rewrite run_Panicked].
    intros Hrun.
    destruct (Hin e ltac:(by left)) as (from & msg & ->).
    apply react_inbound_frame in E as (Hid & Hp & Hm & _ & Hsame).
    destruct (IH a1 ltac:(intros e' He'; apply Hin; by right) Hrun)
      as (Hid' & Hp' & Hm' & Hc' & Hsame').
    split; [congruence|]. split; [congruence|]. split; [congruence|]. split.
    + intros P. rewrite Hc'. unfold is_connected. by rewrite Hp, Hm.
    + intros Ht. rewrite Hsame'.
      * apply Hsame. apply (Ht from). by left.
      * intros from' msg' He'. apply (Ht from'). by right.
Qed.

(** *** The listing *)

Lemma react_wf a e a' :
  wf (agent.p2pHost a) -> react (Returned a) e = Returned a' -> wf (agent.p2pHost a').
Proof.
  intros Hwf. destruct e as [from msg|P|P].
  - intros H. apply react_inbound_frame in H as (_ & Hp & Hm & _).
    intros p l. rewrite Hp, Hm. apply Hwf.
  - cbn. intros [= <-]. cbn. by apply wf_onPeerConnected.
  - cbn. intros [= <-]. cbn. by apply wf_onPeerDisconnected.
Qed.

Lemma run_wf (events : list agent.event) : forall a0 a,
  wf (agent.p2pHost a0) -> run (Returned a0) events = Returned a -> wf (agent.p2pHost a).
Proof.
  induction events as [|e events IH]; intros a0 a Hwf.
  - cbn. by intros [= <-].
  - cbn [agent.run foldl].
    destruct (react (Returned a0) e) as [a1|] eqn:E.
    + apply IH. by apply (react_wf _ _ _ Hwf E).
    + fold (run Panicked events). by rewrite run_Panicked.
Qed.

Lemma HandleListAgents_wf (a : agent.Agent) (order : list (peer_ID * loc)) :
  wf (agent.p2pHost a) ->
  (forall e, e ∈ order -> peers (agent.p2pHost a) !! e.1 = Some e.2) ->
  agent.HandleListAgents ID_String order a = List.map (listed ID_String a) order.*1.
Proof.
  intros Hwf Hin. unfold agent.HandleListAgents. rewrite GetPeers_fmap.
  match goal with |- foldl ?F0 _ _ = _ => set (F := F0) end.
  enough (H : forall acc, foldl F acc order.*2
                          = acc ++ List.map (listed ID_String a) order.*1) by apply H.
  induction order as [|[P l] order IH]; intros acc; cbn [fmap list_fmap foldl List.map].
  { by rewrite app_nil_r. }
  pose proof (Hin (P, l) ltac:(left)) as HP. cbn in HP.
  destruct (Hwf P l HP) as (info & Hinfo & HID).
  rewrite IH by (intros e He; apply Hin; by right).
  unfold F at 1, deref. cbn [snd fst]. rewrite Hinfo.
  rewrite <- app_assoc. f_equal. cbn [app]. f_equal.
  unfold listed, is_connected. rewrite HP, Hinfo, HID.
  by destruct (agent.agentRegistry a !! ID_String P).
Qed.

(** X19. [HandleListAgents] lists every peer the host has ever seen
    connect, once, in the order [GetPeers] ranges over them and whether
    connected now or not: the entry shows the peer's text form, its
    current connection flag, and the name, endpoint and models of its
    registration if it has one. *)
Theorem HandleListAgents_lists_known_peers
    (id : peer_ID) (events : list agent.event) (a : agent.Agent)
    (order : list (peer_ID * loc)) :
  run (Returned (agent.New id)) events = Returned a ->
  range_order (peers (agent.p2pHost a)) order ->
  agent.HandleListAgents ID_String order a = List.map (listed ID_String a) order.*1.
Proof.
  intros Hrun Horder. apply HandleListAgents_wf.
  - apply (run_wf events (agent.New id)); [apply wf_NewHost|done].
  - intros [P l] He. apply elem_of_map_to_list. unfold range_order in Horder.
    by rewrite <- Horder.
Qed.


(** *** Registration *)

Abbreviation error_reply a err :=
  {| Type_ := MessageTypeError; From := ID_String (agent.hostID a); To := EmptyString;
     RequestID := EmptyString; Payload := Some (agent.error_payload err) |}.

Lemma handleRegister_rejects a from msg payload owner :
  Unmarshal_RegisterPayload (Payload msg) = inr payload ->
  agentNames (agent.p2pHost a) !! RegisterPayload.AgentName payload = Some owner ->
  owner <> from ->
  12 <= String.length (ID_String owner) ->
  handleRegister a from msg
  = Returned (a, (Some (error_reply a
                          (name_taken_error (RegisterPayload.AgentName payload)
                             (substring 0 12 (ID_String owner)))), None)).
Proof.
  intros Hdec Hown Hne Hlen. unfold agent.handleRegister. rewrite Hdec.
  rewrite (RegisterAgentName_conflict ID_String _ owner from) by done.
  by destruct a.
Qed.

(** X20. A registration under a name that another peer holds changes
    nothing at the receiver and is answered: the sender reads an [error]
    message from the receiving host whose payload is the JSON object with
    the conflict message under [error], with no transport error. *)
Theorem rejected_registration_is_answered
    (a : agent.Agent) (from to owner : peer_ID) (msg : Message)
    (payload : RegisterPayload.t) :
  wire_safe msg ->
  Type_ msg = MessageTypeRegister ->
  Unmarshal_RegisterPayload (Payload msg) = inr payload ->
  agentNames (agent.p2pHost a) !! RegisterPayload.AgentName payload = Some owner ->
  owner <> from ->
  12 <= String.length (ID_String owner) ->
  utf8.ValidString (ID_String (agent.hostID a)) = true ->
  exists data,
    json.Marshal msg = Some data /\
    exchange (outcome agent.Agent) (Some dispatch) from to msg (Returned a)
    = (Returned a,
       ([OpWrite data; OpCloseWrite; OpClose],
        (Some (error_reply a
                 (name_taken_error (RegisterPayload.AgentName payload)
                    (substring 0 12 (ID_String owner)))), None))).
Proof.
  intros Hmsg Ht Hdec Hown Hne Hlen Hid.
  set (err := name_taken_error _ _).
  assert (Hsafe : wire_safe (error_reply a err)).
  { split; [by repeat split|]. eexists. split; [reflexivity|].
    apply compact_payload_error_payload. }
  destruct (wire_safe_roundtrip _ Hsafe) as (rdata & Hrm & Hru & Hrl).
  apply (exchange_reply_data _ dispatch from to msg (error_reply a err) (error_reply a err)
           (Returned a) (Returned a) rdata); try done.
  unfold agent.dispatch, handleP2PMessage. rewrite Ht.
  change (String.eqb MessageTypeRegister MessageTypeRegister) with true. cbv iota.
  unfold agent.lift. by rewrite (handleRegister_rejects a from msg payload owner).
Qed.




(** *** A chat between two agents *)

Lemma dispatch_chat b from msg :
  Type_ msg = MessageTypeChat ->
  dispatch (Returned b) from msg = agent.lift handleChatRequest (Returned b) from msg.
Proof.
  intros Ht. unfold agent.dispatch, handleP2PMessage. by rewrite Ht.
Qed.

(** X22. When the agent asked cannot decode the chat request or its
    completion service fails, [HandleSendToAgent] at the asking agent ends
    with [no response from agent]: the request went out, the stream came
    back empty, and the cause stays at the remote side. *)
Theorem remote_failure_is_no_response
    (a b : agent.Agent) (agentID requestID : string) (to : peer_ID)
    (req : ChatCompletionRequest) :
  peer_Decode agentID = inr to ->
  wire_safe (chat_request a agentID requestID req) ->
  match Unmarshal_ChatCompletionRequest (Marshal_ChatCompletionRequest req) with
  | inl _ => True
  | inr chatReq => exists err, forwardToOpenAI chatReq = inl err
  end ->
  exists data,
    json.Marshal (chat_request a agentID requestID req) = Some data /\
    HandleSendToAgent
      (answered_by (outcome agent.Agent) dispatch (Returned b) (agent.hostID a)
         (chat_request a agentID requestID req))
      requestID a agentID req
    = ([OpWrite data; OpCloseWrite; OpClose], inl agent.ErrNoResponse).
Proof.
  intros Hto Hsafe Hfail.
  set (msg := chat_request a agentID requestID req) in *.
  destruct (wire_safe_roundtrip msg Hsafe) as (data & Hm & Hu & _).
  exists data. split; [done|].
  unfold agent.HandleSendToAgent. rewrite Hto. fold msg.
  unfold answered_by.
  assert (Hops : (handleStream (outcome agent.Agent) (Some dispatch) (agent.hostID a)
                    (inr (match json.Marshal msg with Some d => d | None => EmptyString end))
                    (Returned b)).2
                 = [OpClose]).
  { rewrite Hm. unfold handleStream. rewrite Hu.
    rewrite dispatch_chat by done. unfold agent.lift, agent.handleChatRequest.
    change (Payload msg) with (Marshal_ChatCompletionRequest req).
    destruct (Unmarshal_ChatCompletionRequest _) as [e|chatReq]; [done|].
    destruct Hfail as [e ->]. done. }
  rewrite Hops. unfold SendMessage. cbn. by rewrite Hm.
Qed.

(** X23. A chat between two agents: when the completion service of the
    agent asked answers and the answer encodes to a compact JSON value,
    [HandleSendToAgent] at the asking agent ends with what the decoding of
    exactly these bytes gives. *)
Theorem chat_reaches_the_caller
    (a b : agent.Agent) (agentID requestID : string) (to : peer_ID)
    (req chatReq : ChatCompletionRequest) (resp : ChatCompletionResponse)
    (respPayload : string) :
  peer_Decode agentID = inr to ->
  wire_safe (chat_request a agentID requestID req) ->
  Unmarshal_ChatCompletionRequest (Marshal_ChatCompletionRequest req) = inr chatReq ->
  forwardToOpenAI chatReq = inr resp ->
  Marshal_ChatCompletionResponse resp = Some respPayload ->
  compact_payload respPayload ->
  utf8.ValidString (ID_String (agent.hostID b)) = true ->
  exists data,
    json.Marshal (chat_request a agentID requestID req) = Some data /\
    HandleSendToAgent
      (answered_by (outcome agent.Agent) dispatch (Returned b) (agent.hostID a)
         (chat_request a agentID requestID req))
      requestID a agentID req
    = ([OpWrite data; OpCloseWrite; OpClose],
       match Unmarshal_ChatCompletionResponse (Some respPayload) with
       | inl err => inl (agent.ErrParseResponse err)
       | inr chatResp => inr chatResp
       end).
Proof.
  intros Hto Hsafe Hreq Hfwd Hresp Hcompact Hid.
  set (msg := chat_request a agentID requestID req) in *.
  destruct (wire_safe_roundtrip msg Hsafe) as (data & Hm & Hu & _).
  exists data. split; [done|].
  set (reply := {| Type_ := MessageTypeComplete; From := ID_String (agent.hostID b);
                   To := EmptyString; RequestID := requestID;
                   Payload := Some respPayload |}).
  assert (Hrsafe : wire_safe reply).
  { destruct Hsafe as [(_ & _ & _ & Hr) _].
    split; [by repeat split|]. by exists respPayload. }
  destruct (wire_safe_roundtrip reply Hrsafe) as (rdata & Hrm & Hru & Hrl).
  unfold agent.HandleSendToAgent. rewrite Hto. fold msg.
  unfold answered_by.
  assert (Hops : (handleStream (outcome agent.Agent) (Some dispatch) (agent.hostID a)
                    (inr (match json.Marshal msg with Some d => d | None => EmptyString end))
                    (Returned b)).2
                 = [OpWrite rdata; OpClose]).
  { rewrite Hm. unfold handleStream. rewrite Hu.
    rewrite dispatch_chat by done. unfold agent.lift, agent.handleChatRequest.
    change (Payload msg) with (Marshal_ChatCompletionRequest req).
    rewrite Hreq, Hfwd, Hresp. change (RequestID msg) with requestID. fold reply.
    by rewrite Hrm. }
  rewrite Hops. unfold SendMessage. cbn [answering open_result write_result read_result].
  rewrite Hm, (reply_bytes_one rdata) by done.
  destruct (Nat.eqb_spec (String.length rdata) 0); [done|].
  rewrite Hru. change (Payload reply) with (Some respPayload).
  by destruct (Unmarshal_ChatCompletionResponse _).
Qed.


(** X24. The registration that [broadcastRegistration] sends is always
    encodable and is read back unchanged, whatever the agent name and the
    port in the configuration are: the name is escaped where it has to
    be. *)
Theorem registration_is_carried (cfg : config.Config) (a : agent.Agent) :
  utf8.ValidString (ID_String (agent.hostID a)) = true ->
  exists data,
    json.Marshal (agent.registration ID_String cfg a) = Some data /\
    json.Unmarshal data = Some (agent.registration ID_String cfg a).
Proof.
  intros Hid.
  destruct (wire_safe_roundtrip (agent.registration ID_String cfg a)) as (data & Hm & Hu & _).
  - split; [by repeat split|]. eexists. split; [reflexivity|].
    apply compact_payload_registration.
  - by exists data.
Qed.


End AgentFacts.

(** *** Concrete runs of the further properties *)

Lemma peers_entry_persists_witness :
  let h := onPeerConnected Sample.P1 NewHost in
  let ops := [OpDisconnect Sample.P1; OpRegister "alice" Sample.P2; OpConnect Sample.P2] in
  peers (apply_ops Base58.Encode h ops) !! Sample.P1 = Some 1%positive /\
  exists b, mem (apply_ops Base58.Encode h ops) !! 1%positive
            = Some (set_Connected b {| ID := Sample.P1; Name := EmptyString;
                                       Addrs := []; Connected := true |}).
Proof.
  apply (peers_entry_persists Base58.Encode
           [OpDisconnect Sample.P1; OpRegister "alice" Sample.P2; OpConnect Sample.P2]
           (onPeerConnected Sample.P1 NewHost) Sample.P1 1%positive).
  - vm_compute; reflexivity.
  - vm_compute; reflexivity.
Defined.

Lemma is_connected_last_event_witness :
  is_connected
    (apply_ops Base58.Encode NewHost
       [OpConnect Sample.P1; OpConnect Sample.P2; OpDisconnect Sample.P1]) Sample.P1
  = match last_event Sample.P1
            [OpConnect Sample.P1; OpConnect Sample.P2; OpDisconnect Sample.P1] with
    | Some b => b
    | None => is_connected NewHost Sample.P1
    end.
Proof.
  apply (is_connected_last_event Base58.Encode
           [OpConnect Sample.P1; OpConnect Sample.P2; OpDisconnect Sample.P1]
           NewHost Sample.P1 wf_NewHost).
Defined.

Lemma reconnect_restores_witness :
  onPeerConnected Sample.P1 (onPeerDisconnected Sample.P1 Sample.three_peers)
  = Sample.three_peers.
Proof.
  apply (proj2 (reconnect_restores Sample.P1 Sample.three_peers)).
  vm_compute; reflexivity.
Defined.

Lemma chat_msg_wire_safe : wire_safe Sample.chat_msg.
Proof.
  split; [repeat split; vm_compute; reflexivity|].
  exists Sample.chat_payload. split; [reflexivity|]. vm_compute. reflexivity.
Qed.

Lemma exchange_delivers_reply_witness :
  exists data,
    json.Marshal Sample.chat_msg = Some data /\
    exchange unit (Some Sample2.echo) Sample.P1 Sample.P2 Sample.chat_msg tt
    = (tt, ([OpWrite data; OpCloseWrite; OpClose], (Some Sample.chat_msg, None))).
Proof.
  apply (exchange_delivers_reply unit Sample2.echo Sample.P1 Sample.P2
           Sample.chat_msg Sample.chat_msg tt tt
           chat_msg_wire_safe chat_msg_wire_safe).
  reflexivity.
Defined.

Lemma exchange_silent_witness :
  exists data,
    json.Marshal Sample.chat_msg = Some data /\
    exchange unit (Some Sample2.failing) Sample.P1 Sample.P2 Sample.chat_msg tt
    = (tt, ([OpWrite data; OpCloseWrite; OpClose], (None, None))).
Proof.
  apply (exchange_silent unit (Some Sample2.failing) Sample.P1 Sample.P2
           Sample.chat_msg tt chat_msg_wire_safe).
  right. discriminate.
Defined.

Lemma exchange_unencodable_witness :
  exchange unit (Some Sample2.echo) Sample.P1 Sample.P2 Sample2.broken_msg tt
  = (tt, ([OpClose], (None, Some ErrMarshal))).
Proof.
  apply (exchange_unencodable unit (Some Sample2.echo) Sample.P1 Sample.P2
           Sample2.broken_msg tt).
  vm_compute. reflexivity.
Defined.

Lemma authMiddleware_admits_witness :
  authMiddleware Sample2.api_key Sample2.api_key = Next.
Proof.
  apply (proj2 (authMiddleware_admits Sample2.api_key Sample2.api_key)).
  - vm_compute. reflexivity.
  - right. reflexivity.
Defined.

Lemma validated_name_is_plain_witness :
  json.appendString "my-agent_01" = json.quoted "my-agent_01" /\
  utf8.ValidString "my-agent_01" = true.
Proof.
  apply (validated_name_is_plain "my-agent_01"). vm_compute. reflexivity.
Defined.

Lemma masked_key_shows_witness :
  masked_key "abc" = Panicked /\
  exists shown, masked_key "sk-12345" = Returned shown /\
                "sk-12345" = string_take 7 shown +:+ string_drop 13 shown.
Proof.
  split.
  - apply (proj1 (masked_key_shows "abc")). cbn. lia.
  - destruct (proj2 (masked_key_shows "sk-12345") ltac:(cbn; lia))
      as (shown & H1 & _ & _ & _ & H5).
    exists shown. split; [exact H1|]. apply H5. cbn. lia.
Defined.

Lemma registry_consistent_run_witness :
  exists a, Sample2.run (Returned (agent.New Sample.P3)) Sample2.events = Returned a /\
            agent.registry_consistent Base58.Encode a.
Proof.
  eexists. split; [vm_compute; reflexivity|].
  apply (registry_consistent_run Base58.Encode Sample2.decode_register
           Sample2.decode_announce string string Sample2.decode_text Sample2.service_up Some
           Sample2.events (agent.New Sample.P3)).
  - intros key r H. cbn in H. rewrite lookup_empty in H. discriminate.
  - vm_compute; reflexivity.
Defined.

Lemma run_never_panics_witness :
  exists a, Sample2.run (Returned (agent.New Sample.P3)) Sample2.events = Returned a.
Proof.
  apply (run_never_panics Base58.Encode Sample2.decode_register
           Sample2.decode_announce string string Sample2.decode_text Sample2.service_up Some
           Sample.P3 Sample2.events).
  intros from msg H. unfold Sample2.events in H. cbn [In] in H.
  destruct H as [H|[H|[H|[H|[H|[]]]]]]; try discriminate H;
    injection H as <- _; vm_compute; lia.
Defined.

Lemma messages_leave_connections_witness :
  let a := Sample2.alice_claimed in
  let events :=
    [agent.Inbound Sample.P2 (Sample2.register_msg Sample.P2 "bob");
     agent.Inbound Sample.P1 Sample2.ping_msg] in
  exists a', Sample2.run (Returned a) events = Returned a' /\
             peers (agent.p2pHost a') = peers (agent.p2pHost a) /\
             mem (agent.p2pHost a') = mem (agent.p2pHost a).
Proof.
  eexists. split; [vm_compute; reflexivity|].
  refine (let H := messages_leave_connections Base58.Encode Sample2.decode_register
            Sample2.decode_announce string string Sample2.decode_text Sample2.service_up Some
            [agent.Inbound Sample.P2 (Sample2.register_msg Sample.P2 "bob");
             agent.Inbound Sample.P1 Sample2.ping_msg]
            Sample2.alice_claimed _ _ _ in
          conj (proj1 (proj2 H)) (proj1 (proj2 (proj2 H)))).
  - intros e He. cbn [In] in He. destruct He as [<-|[<-|[]]]; eauto.
  - vm_compute; reflexivity.
Defined.

Lemma HandleListAgents_lists_known_peers_witness :
  exists a,
    Sample2.run (Returned (agent.New Sample.P3)) Sample2.events = Returned a /\
    agent.HandleListAgents Base58.Encode (map_to_list (peers (agent.p2pHost a))) a
    = List.map (listed Base58.Encode a) (map_to_list (peers (agent.p2pHost a))).*1.
Proof.
  eexists. split; [vm_compute; reflexivity|].
  apply (HandleListAgents_lists_known_peers Base58.Encode Sample2.decode_register
           Sample2.decode_announce string string Sample2.decode_text Sample2.service_up Some
           Sample.P3 Sample2.events).
  - vm_compute; reflexivity.
  - unfold range_order. reflexivity.
Defined.

Lemma ping_msg_wire_safe : wire_safe Sample2.ping_msg.
Proof.
  split; [repeat split; vm_compute; reflexivity|].
  exists "{}". split; [reflexivity|]. vm_compute. reflexivity.
Qed.

Lemma reply_without_payload_arrives_null_witness :
  let b := agent.New Sample.P2 in
  exists data,
    json.Marshal Sample2.ping_msg = Some data /\
    exchange (outcome agent.Agent) (Some (Sample2.dispatch Sample2.service_up))
      Sample.P1 Sample.P2 Sample2.ping_msg (Returned b)
    = (Returned b,
       ([OpWrite data; OpCloseWrite; OpClose],
        (Some (with_Payload (agent.pong Base58.Encode b) (Some "null")), None))).
Proof.
  apply (reply_without_payload_arrives_null (outcome agent.Agent)
           (Sample2.dispatch Sample2.service_up) Sample.P1 Sample.P2 Sample2.ping_msg
           (agent.pong Base58.Encode (agent.New Sample.P2))
           (Returned (agent.New Sample.P2)) (Returned (agent.New Sample.P2))
           ping_msg_wire_safe).
  - reflexivity.
  - repeat split; vm_compute; reflexivity.
  - reflexivity.
Defined.

Lemma register_msg_wire_safe (from : peer_ID) (name : string) :
  utf8.ValidString (Base58.Encode from) = true ->
  wire_safe (Sample2.register_msg from name).
Proof.
  intros H. split; [by repeat split|]. eexists. split; [reflexivity|].
  apply compact_payload_registration.
Qed.

Lemma rejected_registration_is_answered_witness :
  exists data,
    json.Marshal (Sample2.register_msg Sample.P2 "alice") = Some data /\
    exchange (outcome agent.Agent) (Some (Sample2.dispatch Sample2.service_up))
      Sample.P2 Sample.P3 (Sample2.register_msg Sample.P2 "alice")
      (Returned Sample2.alice_claimed)
    = (Returned Sample2.alice_claimed,
       ([OpWrite data; OpCloseWrite; OpClose],
        (Some {| Type_ := MessageTypeError; From := Base58.Encode Sample.P3;
                 To := EmptyString; RequestID := EmptyString;
                 Payload :=
                   Some (agent.error_payload
                           "agent name 'alice' is already taken by peer 12D3KooWAHoE") |},
         None))).
Proof.
  apply (rejected_registration_is_answered Base58.Encode Sample2.decode_register
           Sample2.decode_announce string string Sample2.decode_text Sample2.service_up Some
           Sample2.alice_claimed Sample.P2 Sample.P3 Sample.P1
           (Sample2.register_msg Sample.P2 "alice")
           (RegisterPayload.mk "alice" "http://localhost:8080" ["gpt-4"; "gpt-3.5-turbo"])).
  - apply register_msg_wire_safe. vm_compute; reflexivity.
  - reflexivity.
  - vm_compute; reflexivity.
  - vm_compute; reflexivity.
  - intros H. vm_compute in H. discriminate H.
  - vm_compute; lia.
  - vm_compute; reflexivity.
Defined.


Lemma remote_failure_is_no_response_witness :
  let a := agent.New Sample.P1 in
  let b := agent.New Sample.P2 in
  let msg := agent.chat_request Base58.Encode string Some a (Base58.Encode Sample.P2)
               Sample2.request_id Sample.chat_payload in
  exists data,
    json.Marshal msg = Some data /\
    Sample2.HandleSendToAgent
      (answered_by (outcome agent.Agent) (Sample2.dispatch Sample2.service_down)
         (Returned b) Sample.P1 msg)
      Sample2.request_id a (Base58.Encode Sample.P2) Sample.chat_payload
    = ([OpWrite data; OpCloseWrite; OpClose], inl agent.ErrNoResponse).
Proof.
  apply (remote_failure_is_no_response Base58.Encode Sample2.decode_register
           Sample2.decode_announce string string Sample2.decode_text Sample2.service_down Some
           Sample2.decode_peer Some Sample2.decode_text
           (agent.New Sample.P1) (agent.New Sample.P2) (Base58.Encode Sample.P2)
           Sample2.request_id Sample.P2 Sample.chat_payload).
  - vm_compute; reflexivity.
  - exact chat_msg_wire_safe.
  - cbn. exists "connection refused". reflexivity.
Defined.

Lemma chat_reaches_the_caller_witness :
  let a := agent.New Sample.P1 in
  let b := agent.New Sample.P2 in
  let msg := agent.chat_request Base58.Encode string Some a (Base58.Encode Sample.P2)
               Sample2.request_id Sample.chat_payload in
  exists data,
    json.Marshal msg = Some data /\
    Sample2.HandleSendToAgent
      (answered_by (outcome agent.Agent) (Sample2.dispatch Sample2.service_up)
         (Returned b) Sample.P1 msg)
      Sample2.request_id a (Base58.Encode Sample.P2) Sample.chat_payload
    = ([OpWrite data; OpCloseWrite; OpClose], inr Sample2.completion).
Proof.
  apply (chat_reaches_the_caller Base58.Encode Sample2.decode_register
           Sample2.decode_announce string string Sample2.decode_text Sample2.service_up Some
           Sample2.decode_peer Some Sample2.decode_text
           (agent.New Sample.P1) (agent.New Sample.P2) (Base58.Encode Sample.P2)
           Sample2.request_id Sample.P2 Sample.chat_payload Sample.chat_payload
           Sample2.completion Sample2.completion).
  - vm_compute; reflexivity.
  - exact chat_msg_wire_safe.
  - reflexivity.
  - reflexivity.
  - reflexivity.
  - vm_compute; reflexivity.
  - vm_compute; reflexivity.
Defined.

Lemma registration_is_carried_witness :
  exists data,
    json.Marshal (Sample2.register_msg Sample.P1 "alice") = Some data /\
    json.Unmarshal data = Some (Sample2.register_msg Sample.P1 "alice").
Proof.
  apply (registration_is_carried Base58.Encode (Sample2.register_cfg "alice")
           (agent.New Sample.P1)).
  vm_compute; reflexivity.
Defined.

